(** * ecom-agent: the selection pipeline of [app.py]

    A shallow embedding of the conversational recommendation service:
    the structured-output extraction, the rule-based fallback engine, the
    catalog search, the product search, the final selection stage, the
    refinement endpoint and the cart endpoint, together with the
    properties the specification states about them and further
    properties of the code.

    Python values are modelled as follows.
    - A [str] is a list of Unicode code points ([text]).
    - A value produced by [json.loads] is a [json] tree.
    - An exception is a value of [exn]; code that can raise returns
      [result].
    - The generative backend, the commerce backend, the catalog database
      and the random generator are explicit arguments.
    - [print] calls write to the log only and are left out. *)

From Stdlib Require Import ZArith NArith QArith List String Ascii Bool Lia.
From Stdlib Require Import DecimalString.
From stdpp Require Import base option list gmap sorting.

Set Default Proof Using "Type".
Local Open Scope N_scope.

(** ** Text *)

Abbreviation char := N (only parsing).
Abbreviation text := (list N) (only parsing).

(** A literal of the source, given as a Rocq string of ASCII characters. *)
Definition T (s : string) : text :=
  List.map N_of_ascii (list_ascii_of_string s).

(** As [T], with every apostrophe standing for a double quote: JSON
    literals are written ['key': 'value']. *)
Definition J (s : string) : text :=
  List.map (fun c => if c =? 39 then 34 else c) (T s).

Module Str.

(** [str.isspace] on one code point: the Unicode characters of
    bidirectional class WS, B or S, or of category Zs. *)
Definition isspace (c : char) : bool :=
  ((9 <=? c) && (c <=? 13)) || ((28 <=? c) && (c <=? 32))
  || (c =? 133) || (c =? 160) || (c =? 5760)
  || ((8192 <=? c) && (c <=? 8202))
  || (c =? 8232) || (c =? 8233) || (c =? 8239) || (c =? 8287)
  || (c =? 12288).

Fixpoint lstrip (s : text) : text :=
  match s with
  | c :: r => if isspace c then lstrip r else s
  | [] => []
  end.

Definition rstrip (s : text) : text := rev (lstrip (rev s)).

(** [s.strip()] *)
Definition strip (s : text) : text := rstrip (lstrip s).

(** [s.startswith(p)] *)
Fixpoint startswith (p s : text) : bool :=
  match p, s with
  | [], _ => true
  | a :: p', b :: s' => (a =? b) && startswith p' s'
  | _ :: _, [] => false
  end.

(** [s.endswith(p)] *)
Definition endswith (p s : text) : bool := startswith (rev p) (rev s).

(** [sub in s] *)
Fixpoint contains (sub s : text) : bool :=
  startswith sub s ||
  match s with
  | [] => false
  | _ :: r => contains sub r
  end.

(** [s.replace(old, new)] for a non-empty [old]: the occurrences of [old]
    are replaced from left to right and do not overlap.  [skip] counts the
    characters of the current occurrence still to be dropped. *)
Fixpoint replace_from (old new : text) (skip : nat) (s : text) : text :=
  match s with
  | [] => []
  | c :: r =>
      match skip with
      | S k => replace_from old new k r
      | O =>
          if startswith old s
          then new ++ replace_from old new (pred (length old)) r
          else c :: replace_from old new O r
      end
  end.

(** With an empty [old], Python puts [new] before every character and at
    the end. *)
Definition replace (old new s : text) : text :=
  match old with
  | [] => new ++ flat_map (fun c => c :: new) s
  | _ :: _ => replace_from old new O s
  end.

End Str.

(** ** Exceptions *)

(** A raised exception: its class name and [str(e)]. *)
Record exn := Exn { exn_type : text; exn_str : text }.

Inductive result (A : Type) : Type :=
| Return (a : A)
| Raise (e : exn).
Arguments Return {A} a.
Arguments Raise {A} e.

#[global] Instance result_ret : MRet result := fun A a => Return a.

#[global] Instance result_bind : MBind result := fun A B k r =>
  match r with
  | Return a => k a
  | Raise e => Raise e
  end.

(** ** JSON values

    The values [json.loads] builds.  A Python [dict] keeps its keys in
    insertion order, so an object is the list of its items in that order.
    A [float] is kept as the numeral it was read from. *)
#[warnings="-register-all"]
Inductive json :=
| JNull
| JBool (b : bool)
| JInt (z : Z)
| JFloat (numeral : text)
| JStr (s : text)
| JList (items : list json)
| JDict (pairs : list (text * json)).

(** [d[k] = v] on the items of a dict: an existing key keeps its place. *)
Fixpoint dict_set {V} (d : list (text * V)) (k : text) (v : V)
  : list (text * V) :=
  match d with
  | [] => [(k, v)]
  | (k', v') :: r =>
      if bool_decide (k = k') then (k, v) :: r else (k', v') :: dict_set r k v
  end.

(** [d.get(k)] on the items of a dict, [None] when the key is absent. *)
Fixpoint dict_get {V} (d : list (text * V)) (k : text) : option V :=
  match d with
  | [] => None
  | (k', v) :: r => if bool_decide (k = k') then Some v else dict_get r k
  end.

(** [dict(pairs)] *)
Definition dict_of_pairs {V} (pairs : list (text * V)) : list (text * V) :=
  fold_left (fun d kv => dict_set d (fst kv) (snd kv)) pairs [].

(** ** [json.loads]

    The decoder of the standard library ([json.decoder], [json.scanner])
    in its default configuration: strict strings, [NaN] and [Infinity]
    accepted.  The recursion limit and the limit on the number of digits
    of an integer are limits of the interpreter and are not modelled. *)
Module Json.

(** The outcome of scanning a prefix of the input: the value and the rest
    of the input, a decoding error, or a recursion that was cut short. *)
Inductive scan (A : Type) : Type :=
| Scanned (a : A) (rest : text)
| Invalid
| Starved.
Arguments Scanned {A} a rest.
Arguments Invalid {A}.
Arguments Starved {A}.

(** [WHITESPACE = [ \t\n\r]*] *)
Definition is_ws (c : char) : bool :=
  (c =? 32) || (c =? 9) || (c =? 10) || (c =? 13).

Fixpoint skip_ws (s : text) : text :=
  match s with
  | c :: r => if is_ws c then skip_ws r else s
  | [] => []
  end.

Definition is_digit (c : char) : bool := (48 <=? c) && (c <=? 57).

Definition hex_digit (c : char) : option N :=
  if is_digit c then Some (c - 48)
  else if (97 <=? c) && (c <=? 102) then Some (c - 87)
  else if (65 <=? c) && (c <=? 70) then Some (c - 55)
  else None.

(** The four hexadecimal digits of a [\uXXXX] escape. *)
Definition hex4 (a b c d : char) : option N :=
  match hex_digit a, hex_digit b, hex_digit c, hex_digit d with
  | Some x, Some y, Some z, Some w => Some (((x * 16 + y) * 16 + z) * 16 + w)
  | _, _, _, _ => None
  end.

(** [BACKSLASH]: the one-letter escapes. *)
Definition backslash (esc : char) : option char :=
  if esc =? 34 then Some 34          (* quote *)
  else if esc =? 92 then Some 92     (* backslash *)
  else if esc =? 47 then Some 47     (* slash *)
  else if esc =? 98 then Some 8      (* b *)
  else if esc =? 102 then Some 12    (* f *)
  else if esc =? 110 then Some 10    (* n *)
  else if esc =? 114 then Some 13    (* r *)
  else if esc =? 116 then Some 9     (* t *)
  else None.

Definition is_high_surrogate (u : N) : bool := (55296 <=? u) && (u <=? 56319).
Definition is_low_surrogate (u : N) : bool := (56320 <=? u) && (u <=? 57343).

Definition join_surrogates (u u2 : N) : N :=
  65536 + N.lor (N.shiftl (u - 55296) 10) (u2 - 56320).

Definition push (c : char) (r : option (text * text)) : option (text * text) :=
  match r with
  | Some (str, rest) => Some (c :: str, rest)
  | None => None
  end.

(** [scanstring], entered after the opening quote: the decoded string
    and the input after the closing quote. *)
Fixpoint scanstring (s : text) : option (text * text) :=
  match s with
  | [] => None
  | c :: r =>
      if c =? 34 then Some ([], r)
      else if c =? 92 then
        match r with
        | [] => None
        | esc :: r1 =>
            if esc =? 117 then
              match r1 with
              | h1 :: h2 :: h3 :: h4 :: r2 =>
                  match hex4 h1 h2 h3 h4 with
                  | None => None
                  | Some uni =>
                      match r2 with
                      | b :: u :: r3 =>
                          if is_high_surrogate uni && (b =? 92) && (u =? 117)
                          then
                            match r3 with
                            | g1 :: g2 :: g3 :: g4 :: r4 =>
                                match hex4 g1 g2 g3 g4 with
                                | None => None
                                | Some uni2 =>
                                    if is_low_surrogate uni2
                                    then push (join_surrogates uni uni2)
                                              (scanstring r4)
                                    else push uni (scanstring r2)
                                end
                            | _ => None
                            end
                          else push uni (scanstring r2)
                      | _ => push uni (scanstring r2)
                      end
                  end
              | _ => None
              end
            else
              match backslash esc with
              | Some ch => push ch (scanstring r1)
              | None => None
              end
        end
      else if c <? 32 then None
      else push c (scanstring r)
  end.

(** The longest run of digits at the head of the input. *)
Fixpoint span_digits (s : text) : text * text :=
  match s with
  | c :: r =>
      if is_digit c
      then let (ds, rest) := span_digits r in (c :: ds, rest)
      else ([], s)
  | [] => ([], [])
  end.

(** [int(digits)] for a run of decimal digits. *)
Definition int_of_digits (ds : text) : Z :=
  fold_left (fun acc c => (acc * 10 + Z.of_N (c - 48))%Z) ds 0%Z.

(** The integer part of [NUMBER_RE], an optional minus sign and then
    either [0] or a run of digits that does not start with [0]: sign,
    digits, rest. *)
Definition match_integer (s : text) : option (bool * text * text) :=
  let (neg, s1) :=
    match s with
    | c :: r => if c =? 45 then (true, r) else (false, s)
    | [] => (false, s)
    end in
  match s1 with
  | c :: r =>
      if c =? 48 then Some (neg, [c], r)
      else if is_digit c
      then let (ds, rest) := span_digits r in Some (neg, c :: ds, rest)
      else None
  | [] => None
  end.

(** The optional group [(\.[0-9]+)?]. *)
Definition match_frac (s : text) : text * text :=
  match s with
  | c :: r =>
      if c =? 46 then
        match span_digits r with
        | ([], _) => ([], s)
        | (ds, rest) => (c :: ds, rest)
        end
      else ([], s)
  | [] => ([], s)
  end.

(** The optional group [([eE][-+]?[0-9]+)?]. *)
Definition match_exp (s : text) : text * text :=
  match s with
  | e :: r =>
      if (e =? 101) || (e =? 69) then
        let (sign, r1) :=
          match r with
          | c :: r' => if (c =? 45) || (c =? 43) then ([c], r') else ([], r)
          | [] => ([], r)
          end in
        match span_digits r1 with
        | ([], _) => ([], s)
        | (ds, rest) => (e :: sign ++ ds, rest)
        end
      else ([], s)
  | [] => ([], s)
  end.

(** [match_number] and the conversion that follows it: an [int] when the
    numeral has neither fraction nor exponent, a [float] otherwise. *)
Definition match_number (s : text) : option (json * text) :=
  match match_integer s with
  | None => None
  | Some (neg, ds, r) =>
      let (frac, r1) := match_frac r in
      let (exp, r2) := match_exp r1 in
      match frac, exp with
      | [], [] =>
          Some (JInt (if neg then - int_of_digits ds else int_of_digits ds)%Z,
                r2)
      | _, _ =>
          Some (JFloat ((if neg then [45] else []) ++ ds ++ frac ++ exp), r2)
      end
  end.

Definition literal (word : string) (v : json) (s : text) : option (json * text) :=
  if Str.startswith (T word) s
  then Some (v, drop (String.length word) s)
  else None.

(** The scalar cases of [_scan_once], in the order the scanner tries
    them. *)
Definition scan_scalar (s : text) : option (json * text) :=
  match literal "null" JNull s with Some r => Some r | None =>
  match literal "true" (JBool true) s with Some r => Some r | None =>
  match literal "false" (JBool false) s with Some r => Some r | None =>
  match match_number s with Some r => Some r | None =>
  match literal "NaN" (JFloat (T "NaN")) s with Some r => Some r | None =>
  match literal "Infinity" (JFloat (T "Infinity")) s with Some r => Some r | None =>
  literal "-Infinity" (JFloat (T "-Infinity")) s
  end end end end end end.

(** [_scan_once], [JSONObject] and [JSONArray].  [JSONObject] is entered
    after the opening quote of a key with the pairs read so far,
    [JSONArray] at the start of an element with the values read so far.
    [fuel] bounds the depth of the recursion. *)
Fixpoint scan_once (fuel : nat) (s : text) : scan json :=
  match fuel with
  | O => Starved
  | S f =>
      match s with
      | [] => Invalid
      | c :: r =>
          if c =? 34 then
            match scanstring r with
            | Some (str, rest) => Scanned (JStr str) rest
            | None => Invalid
            end
          else if c =? 123 then
            match skip_ws r with
            | c1 :: r1 =>
                if c1 =? 125 then Scanned (JDict []) r1
                else if c1 =? 34 then JSONObject f [] r1
                else Invalid
            | [] => Invalid
            end
          else if c =? 91 then
            match skip_ws r with
            | c1 :: r1 =>
                if c1 =? 93 then Scanned (JList []) r1
                else JSONArray f [] (c1 :: r1)
            | [] => Invalid
            end
          else
            match scan_scalar s with
            | Some (v, rest) => Scanned v rest
            | None => Invalid
            end
      end
  end
with JSONObject (fuel : nat) (pairs : list (text * json)) (s : text)
  : scan json :=
  match fuel with
  | O => Starved
  | S f =>
      match scanstring s with
      | None => Invalid
      | Some (key, r) =>
          match skip_ws r with
          | c :: r1 =>
              if c =? 58 then
                match scan_once f (skip_ws r1) with
                | Scanned value r2 =>
                    match skip_ws r2 with
                    | c2 :: r3 =>
                        if c2 =? 125
                        then Scanned
                               (JDict (dict_of_pairs (pairs ++ [(key, value)])))
                               r3
                        else if c2 =? 44 then
                          match skip_ws r3 with
                          | c3 :: r4 =>
                              if c3 =? 34
                              then JSONObject f (pairs ++ [(key, value)]) r4
                              else Invalid
                          | [] => Invalid
                          end
                        else Invalid
                    | [] => Invalid
                    end
                | Invalid => Invalid
                | Starved => Starved
                end
              else Invalid
          | [] => Invalid
          end
      end
  end
with JSONArray (fuel : nat) (values : list json) (s : text) : scan json :=
  match fuel with
  | O => Starved
  | S f =>
      match scan_once f s with
      | Scanned value r =>
          match skip_ws r with
          | c :: r1 =>
              if c =? 93 then Scanned (JList (values ++ [value])) r1
              else if c =? 44 then JSONArray f (values ++ [value]) (skip_ws r1)
              else Invalid
          | [] => Invalid
          end
      | Invalid => Invalid
      | Starved => Starved
      end
  end.

(** The depth that is enough for an input of the given length. *)
Definition enough (s : text) : nat := S (2 * length s).

(** [JSONDecoder.decode]: one value between optional whitespace, and
    nothing after it. *)
Definition decode (s : text) : scan json :=
  match scan_once (enough s) (skip_ws s) with
  | Scanned v rest =>
      match skip_ws rest with
      | [] => Scanned v []
      | _ :: _ => Invalid
      end
  | Invalid => Invalid
  | Starved => Starved
  end.

(** [json.loads(s)]: [None] stands for [JSONDecodeError].  A text that
    starts with a byte order mark is refused. *)
Definition loads (s : text) : option json :=
  if Str.startswith [65279] s then None
  else match decode s with
       | Scanned v _ => Some v
       | _ => None
       end.

End Json.

(** ** The random generator

    The state of [random] is the stream of its future raw draws. *)
Definition rng := nat -> nat.

Definition randbelow (n : nat) (g : rng) : nat * rng :=
  (g O mod n, fun i => g (S i))%nat.

(** The selection loop of [random.sample]: [result[i] = pool[j]] and
    [pool[j] = pool[n - i - 1]] for [j = randbelow(n - i)].  CPython uses
    this loop for populations of at most 21 elements when [k <= 5], and
    draws the [k] positions by rejection above that size; both return the
    elements at [k] distinct positions, and the loop stands for both. *)
Fixpoint sample_loop {A} (k i n : nat) (pool : list A) (g : rng)
  : result (list A * rng) :=
  match k with
  | O => Return ([], g)
  | S k' =>
      let (j, g1) := randbelow (n - i) g in
      match pool !! j, pool !! (n - i - 1)%nat with
      | Some x, Some y =>
          rest ← sample_loop k' (S i) n (<[j := y]> pool) g1;
          Return (x :: fst rest, snd rest)
      | _, _ => Raise (Exn (T "IndexError") (T "list index out of range"))
      end
  end.

(** [random.sample(population, k)] *)
Definition sample {A} (population : list A) (k : nat) (g : rng)
  : result (list A * rng) :=
  if (k <=? length population)%nat
  then sample_loop k O (length population) population g
  else Raise (Exn (T "ValueError")
                  (T "Sample larger than population or is negative")).

(** ** Rows of the catalog *)

(** A row of [food.menu_items]: the two columns the query names, both
    nullable, and the remaining columns as they are rendered. *)
Record menu_item := {
  name : option text;
  review : option Q;
  columns : list (text * text);
}.

(** The catalog database as the service sees it: whether a connection
    can be opened, the rows of the table, and for the [i]-th statement of
    a connection and its parameter whether executing it raises. *)
Record database := {
  reachable : bool;
  menu_items : list menu_item;
  execute_error : nat -> text -> option exn;
}.

(** ** Built-in functions left abstract

    Functions of the Python runtime and of the database whose results
    depend on Unicode tables, on floating point or on formatting.  Every
    statement below holds for all of them. *)
Class Builtins := {
  (** [str.lower()] *)
  str_lower : text -> text;
  (** [LOWER()] of the catalog database *)
  sql_lower : text -> text;
  (** [bool(x)] for the float read from a numeral *)
  float_truthy : text -> bool;
  (** [int(x)] for a [str]: the integer, or the [ValueError] it raises *)
  int_of_str : text -> result Z;
  (** [int(x)] for the float read from a numeral: the integer, or the
      error it raises on [nan] and on the infinities *)
  int_of_float : text -> result Z;
  (** the rendering of a list of names inside an f-string *)
  format_names : list text -> text;
  (** the rendering of the food search results inside an f-string *)
  format_food_results : gmap text (list menu_item) -> text;
  (** the rendering of the product search results inside an f-string *)
  format_product_results : gmap text json -> text;
  (** [json.dumps(v, indent=2)] *)
  dumps_indent2 : json -> text;
  (** [str(e)] for the [JSONDecodeError] raised on a document *)
  decode_error_str : text -> text;
}.

(** ** Fallback suggestion engine *)

Record SuggestionSet := {
  food_items : list text;
  products : list text;
}.

(** [list(dict.fromkeys(l))]: the keys in the order of their first
    insertion. *)
Definition fromkeys (l : list text) : list text :=
  fold_left (fun d x => if bool_decide (x ∈ d) then d else d ++ [x]) l [].

Section Fallback.
Context `{Builtins}.

(** The keyword tables chosen from the lowercased request. *)
Definition event_keywords (query_lower : text) : list text * list text :=
  if Str.contains (T "birthday") query_lower
     || Str.contains (T "party") query_lower
  then ([T "cake"; T "burger"; T "pizza"; T "brownie"; T "cupcake"; T "muffin"],
        [T "lights"; T "poppers"; T "curtain"; T "towels"])
  else if Str.contains (T "picnic") query_lower
          || Str.contains (T "outdoor") query_lower
  then ([T "sandwich"; T "chips"; T "juice"; T "water"; T "snacks"],
        [T "towels"; T "wipes"; T "storage"; T "bag"])
  else if Str.contains (T "dinner") query_lower
          || Str.contains (T "meal") query_lower
  then ([T "biryani"; T "curry"; T "naan"; T "rice"; T "dal"],
        [T "plates"; T "storage"; T "cleaner"])
  else ([T "burger"; T "pizza"; T "coffee"; T "tea"; T "snacks"],
        [T "storage"; T "cleaner"; T "towels"]).

(** [[item for item in available if keyword.lower() in item.lower()]] *)
Definition keyword_matches (keyword : text) (available : list text)
  : list text :=
  List.filter (fun item => Str.contains (str_lower keyword) (str_lower item))
              available.

(** The loop [for keyword in keywords: ... suggested.extend(matches[:2])] *)
Definition collect_matches (keywords available : list text) : list text :=
  fold_left
    (fun suggested keyword =>
       match keyword_matches keyword available with
       | [] => suggested
       | matches => suggested ++ take 2 matches
       end)
    keywords [].

(** [if not suggested and available: suggested = random.sample(...)] *)
Definition or_random (suggested available : list text) (g : rng)
  : result (list text * rng) :=
  match suggested, available with
  | [], _ :: _ => sample available (Nat.min 3 (length available)) g
  | _, _ => Return (suggested, g)
  end.

Definition create_fallback_suggestions
  (user_query : text) (available_food_items available_products : list text)
  (g : rng) : result (SuggestionSet * rng) :=
  let query_lower := str_lower user_query in
  let (food_keywords, product_keywords) := event_keywords query_lower in
  let suggested_food := collect_matches food_keywords available_food_items in
  let suggested_products :=
    collect_matches product_keywords available_products in
  f ← or_random suggested_food available_food_items g;
  p ← or_random suggested_products available_products (snd f);
  Return ({| food_items := take 5 (fromkeys (fst f));
             products := take 5 (fromkeys (fst p)) |}, snd p).

End Fallback.


(** ** Python operations on JSON values *)

(** [bool(v)] *)
Definition truthy `{Builtins} (v : json) : bool :=
  match v with
  | JNull => false
  | JBool b => b
  | JInt z => negb (z =? 0)%Z
  | JFloat n => float_truthy n
  | JStr s => negb (bool_decide (s = []))
  | JList l => negb (bool_decide (l = []))
  | JDict d => negb (bool_decide (d = []))
  end.

(** [type(v).__name__] *)
Definition type_name (v : option json) : string :=
  match v with
  | None | Some JNull => "NoneType"
  | Some (JBool _) => "bool"
  | Some (JInt _) => "int"
  | Some (JFloat _) => "float"
  | Some (JStr _) => "str"
  | Some (JList _) => "list"
  | Some (JDict _) => "dict"
  end.

Definition AttributeError (v : option json) (attr : string) : exn :=
  Exn (T "AttributeError")
    (T "'" ++ T (type_name v) ++ T "' object has no attribute '" ++ T attr
     ++ T "'").

Definition TypeError (msg : text) : exn := Exn (T "TypeError") msg.

(** [obj.get(key, default)]: only a dict has the method. *)
Definition py_get (obj : json) (key : string) (otherwise : json) : result json :=
  match obj with
  | JDict d => Return (default otherwise (dict_get d (T key)))
  | _ => Raise (AttributeError (Some obj) "get")
  end.

(** [int(v)] *)
Definition py_int `{Builtins} (v : json) : result Z :=
  match v with
  | JInt z => Return z
  | JBool b => Return (if b then 1 else 0)%Z
  | JStr s => int_of_str s
  | JFloat n => int_of_float n
  | JNull | JList _ | JDict _ =>
      Raise (TypeError
               (T "int() argument must be a string, a bytes-like object or a real number, not '"
                ++ T (type_name (Some v)) ++ T "'"))
  end.

(** [for item in v]: the elements of a list, the characters of a string,
    the keys of a dict; nothing else can be iterated. *)
Definition py_iter (v : json) : result (list json) :=
  match v with
  | JList l => Return l
  | JStr s => Return ((fun c => JStr [c]) <$> s)
  | JDict d => Return ((fun kv => JStr (fst kv)) <$> d)
  | _ => Raise (TypeError (T "'" ++ T (type_name (Some v))
                           ++ T "' object is not iterable"))
  end.

(** ** The generative backend *)

(** The arguments of [client.chat.completions.create]. *)
Record chat_request := {
  model : text;
  messages : list json;
  temperature : text;
  max_completion_tokens : Z;
  top_p : text;
}.

(** The backend: a call raises, or returns a completion, given here by
    the [message.content] of each of its choices ([None] when the choice
    carries no text). *)
Definition backend := chat_request -> result (list (option text)).

Definition llama_scout : text := T "meta-llama/llama-4-scout-17b-16e-instruct".

Definition message (role : string) (content : json) : json :=
  JDict [(T "role", JStr (T role)); (T "content", content)].

(** [completion.choices[0].message.content.strip()] *)
Definition content_stripped (choices : list (option text)) : result text :=
  match choices with
  | [] => Raise (Exn (T "IndexError") (T "list index out of range"))
  | None :: _ => Raise (AttributeError None "strip")
  | Some content :: _ => Return (Str.strip content)
  end.

(** The prompt literals of [app.py].  In these literals a dollar sign
    stands for a double quote. *)
Definition P (s : string) : text :=
  List.map (fun c => if c =? 36 then 34 else c) (T s).

(** [system_prompt] of [get_suggested_items_and_products] *)
Definition suggestion_prompt : text := P "
    You are a smart assistant for an e-commerce platform. Given a user's request for planning an event or outing, suggest both food items and products needed for that event.

    You must ONLY suggest items from the provided available lists. Choose items that are most suitable for the requested event.

    Return ONLY a valid JSON object in this exact format and do not include any additional text or explanations:
    {
        $food_items$: [$item1$, $item2$, $item3$],
        $products$: [$product1$, $product2$, $product3$]
    }

    Rules:
    - Select an ample amount of food items and products maximum 8 each
    - Only use items from the provided lists
    - No additional text or explanations
    - Must be valid JSON format
    ".

(** [system_prompt] of [get_final_combined_selection] *)
Definition selection_prompt : text := P "
    You are an intelligent assistant helping to select both food items and products for a user event (like birthday, picnic, trips etc.). You are given the user's request and available search results for both food items and products.

    Your job is to analyse the suitability of items and products based reviews, descriptions, and prices to fulfill the event requirements while staying within budget. And final output with the best item or product for each of the suggested items.

    Return only a JSON object with two arrays in the following format:
    {
        $food_selection$: [
            {
                $item_name$: $name of the 1st food item$,
                $item_id$: $ID of the 1st food item$,
                $quantity$: $number of items to order$,
                $price$: $price of this single item not multiplied by quantity$,
                $reviews$: $rating or reviews of the item$,
                $restaurant_id$: $ID of the restaurant as in the items data$,
                $image_url$: $URL of the food item image$,
                $description$: $brief description of the food item$
            },
            {
                $item_name$: $name of the 2nd food item$,
                $item_id$: $ID of the 2nd food item$,
                $quantity$: $number of items to order$,
                $price$: $price of this single item not multiplied by quantity$,
                $reviews$: $rating or reviews of the item$,
                $restaurant_id$: $ID of the restaurant as in the items data$,
                $image_url$: $URL of the food item image$,
                $description$: $brief description of the food item$
            },
            //... rest of the food
        ],
        $product_selection$: [
            {
                $product_name$: $name of the 1st product$,
                $product_id$: $ID of the 1st product$,
                $quantity$: $number of products to order$,
                $price$: $price of this single product not multiplied by quantity$,
                $reviews$: $rating or reviews of the product$,
                $category$: $category of the product$,
                $description$: $brief description of the product$
                $producturl$: $URL of the product image$
            },
            {
                $product_name$: $name of the 2nd product$,
                $product_id$: $ID of the 2nd product$,
                $quantity$: $number of products to order$,
                $price$: $price of this single product not multiplied by quantity$,
                $reviews$: $rating or reviews of the product$,
                $category$: $category of the product$,
                $description$: $brief description of the product$,
                $producturl$: $URL of the product image$
            },
            //... rest of the products
        ]
    }
    
    Be budget-conscious, prioritize high reviews and variety.
    STRICT INSTRUCTIONS:
    - Do not include any additional text or explanations.
    - Do not repeat the same item from different restaurants.
    - Do not repeat the same product.
    - Ensure the output is a valid JSON object.
    - Consider the synergy between food and products for the event.
    - Preserve the data of the food items and products as provided in the search results.
    ".

(** [system_prompt] of [continue_chat] *)
Definition refinement_prompt : text := P "
    You are a helpful assistant refining food and product selections based on user follow-up instructions.
    Given the current selection and user instructions, return a revised version.

    Format:
    {
        $food_selection$: [...],
        $product_selection$: [...]
    }

    Do not repeat items unnecessarily.
    ".

(** ** Structured-output extraction *)

Definition fence : text := T "```".
Definition fence_json : text := T "```json".

(** [re.search(r'\{.*\}', s, re.DOTALL)]: from the first opening brace to
    the last closing brace after it. *)
Fixpoint from_first_brace (s : text) : option text :=
  match s with
  | [] => None
  | c :: r => if c =? 123 then Some r else from_first_brace r
  end.

(** The longest prefix that ends with a closing brace. *)
Fixpoint upto_last_brace (s : text) : option text :=
  match s with
  | [] => None
  | c :: r =>
      match upto_last_brace r with
      | Some m => Some (c :: m)
      | None => if c =? 125 then Some [c] else None
      end
  end.

Definition brace_search (s : text) : option text :=
  match from_first_brace s with
  | Some r =>
      match upto_last_brace r with
      | Some m => Some (123 :: m)
      | None => None
      end
  | None => None
  end.

(** The two parsing attempts shared by both stages: [json.loads] on the
    whole text, and on a [JSONDecodeError] [json.loads] on the match of
    the brace pattern.  [None] when both are given up. *)
Definition loads_or_braces (s : text) : option json :=
  match Json.loads s with
  | Some v => Some v
  | None =>
      match brace_search s with
      | Some json_str => Json.loads json_str
      | None => None
      end
  end.

(** Lines 137-142: the clean-up of the suggestion stage. *)
Definition clean_suggested (suggested_data : text) : text :=
  if Str.startswith fence_json suggested_data
  then Str.strip (Str.replace fence [] (Str.replace fence_json [] suggested_data))
  else if Str.startswith fence suggested_data
  then Str.strip (Str.replace fence [] suggested_data)
  else suggested_data.

(** Lines 364-370: the clean-up of the final selection stage. *)
Definition clean_selected (selected_data : text) : text :=
  let selected_data :=
    if Str.startswith fence_json selected_data
    then Str.strip (Str.replace fence_json [] selected_data)
    else if Str.startswith fence selected_data
    then Str.strip (Str.replace fence [] selected_data)
    else selected_data in
  if Str.endswith fence selected_data
  then Str.strip (take (length selected_data - 3) selected_data)
  else selected_data.

(** The extraction of the suggestion stage applied to the raw text of the
    backend (lines 134-161). *)
Definition extract_suggested (content : text) : option json :=
  loads_or_braces (clean_suggested (Str.strip content)).

(** The extraction of the final selection stage applied to the raw text
    of the backend (lines 361-385). *)
Definition extract_selected (content : text) : option json :=
  loads_or_braces (clean_selected (Str.strip content)).

(** ** Suggestion stage *)

(** The dict [create_fallback_suggestions] returns. *)
Definition suggestion_dict (s : SuggestionSet) : json :=
  JDict [(T "food_items", JList (JStr <$> food_items s));
         (T "products", JList (JStr <$> products s))].

(** The empty selection of the final fallback. *)
Definition empty_selection : json :=
  JDict [(T "food_selection", JList []); (T "product_selection", JList [])].

Section Stages.
Context `{Builtins}.
Variable client : backend.

Definition suggestion_request
  (user_query : text) (available_food_items available_products : list text)
  : chat_request :=
  let user_message :=
    T "
    User Request: " ++ user_query ++ T "

    Available Food Items: " ++ format_names (take 50 available_food_items)
    ++ T "  # Limit to first 50 items to avoid token limits
    Available Products: " ++ format_names (take 50 available_products)
    ++ T "  # Limit to first 50 items to avoid token limits

    Select appropriate items for this request and return only the JSON object.
    " in
  {| model := llama_scout;
     messages := [message "system" (JStr suggestion_prompt);
                  message "user" (JStr user_message)];
     temperature := T "0.1";
     max_completion_tokens := 500;
     top_p := T "0.9" |}.

(** The fallback as both call sites use it: the dict and the generator. *)
Definition fallback_suggestions
  (user_query : text) (available_food_items available_products : list text)
  (g : rng) : result (json * rng) :=
  fb ← create_fallback_suggestions user_query available_food_items
         available_products g;
  Return (suggestion_dict (fst fb), snd fb).

Definition get_suggested_items_and_products
  (user_query : text) (available_food_items available_products : list text)
  (g : rng) : result (json * rng) :=
  let fallback :=
    fallback_suggestions user_query available_food_items available_products g in
  let attempt :=
    choices ← client (suggestion_request user_query available_food_items
                        available_products);
    suggested_data ← content_stripped choices;
    match loads_or_braces (clean_suggested suggested_data) with
    | Some result => Return (result, g)
    | None => fallback
    end in
  match attempt with
  | Return r => Return r
  | Raise e => fallback
  end.

(** ** Final selection stage *)

Definition selection_request (user_query : text)
  (food_results : gmap text (list menu_item))
  (product_results : gmap text json) : chat_request :=
  {| model := llama_scout;
     messages :=
       [message "system" (JStr selection_prompt);
        message "user"
          (JStr (T "User Request: " ++ user_query
                 ++ T "
Available Food Items: " ++ format_food_results food_results
                 ++ T "
Available Products: " ++ format_product_results product_results))];
     temperature := T "0";
     max_completion_tokens := 1024;
     top_p := T "1" |}.

Definition get_final_combined_selection (user_query : text)
  (food_results : gmap text (list menu_item))
  (product_results : gmap text json) : result json :=
  choices ← client (selection_request user_query food_results product_results);
  selected_data ← content_stripped choices;
  match loads_or_braces (clean_selected selected_data) with
  | Some v => Return v
  | None => Return empty_selection
  end.

End Stages.

(** ** Catalog search *)

Section Catalog.
Context `{Builtins}.

(** [WHERE LOWER(name) = LOWER(%s)]: a null name matches nothing. *)
Definition name_matches (item : text) (row : menu_item) : bool :=
  match name row with
  | Some n => bool_decide (sql_lower n = sql_lower item)
  | None => false
  end.

(** [ORDER BY review DESC NULLS LAST]: [row1] may stand before [row2]. *)
Definition review_before (row1 row2 : menu_item) : bool :=
  match review row1, review row2 with
  | Some a, Some b => Qle_bool b a
  | Some _, None => true
  | None, Some _ => false
  | None, None => true
  end.

(** The order of the query as a relation on rows. *)
Definition review_order (row1 row2 : menu_item) : Prop :=
  review_before row1 row2 = true.

(** The sort of the query as a stable insertion sort: among rows of equal
    rating the database is free to choose, and the table order is one
    choice. *)
Fixpoint insert_row (row : menu_item) (sorted : list menu_item)
  : list menu_item :=
  match sorted with
  | [] => [row]
  | r :: rest =>
      if review_before r row then r :: insert_row row rest
      else row :: sorted
  end.

Definition order_by_review (rows : list menu_item) : list menu_item :=
  foldr insert_row [] rows.

(** The statement of [fetch_food_search_results] and [fetchall()]. *)
Definition select_top3 (table : list menu_item) (item : text)
  : list menu_item :=
  take 3 (order_by_review (List.filter (name_matches item) table)).

(** The loop of the [try] block from its [i]-th statement on: the dict
    built so far, and the exception that ended the loop if one did. *)
Fixpoint run_queries (db : database) (i : nat) (items : list text)
  (search_results : gmap text (list menu_item))
  : gmap text (list menu_item) * option exn :=
  match items with
  | [] => (search_results, None)
  | item :: rest =>
      match execute_error db i item with
      | Some e => (search_results, Some e)
      | None =>
          run_queries db (S i) rest
            (<[item := select_top3 (menu_items db) item]> search_results)
      end
  end.

Definition fetch_food_search_results (db : database) (item_list : list text)
  : gmap text (list menu_item) :=
  if reachable db then
    match run_queries db O item_list ∅ with
    | (search_results, None) => search_results
    | (search_results, Some e) =>
        foldl (fun m item => <[item := []]> m) search_results item_list
    end
  else foldl (fun m item => <[item := []]> m) ∅ item_list.

End Catalog.

(** ** Sessions and the HTTP surface *)

(** An entry of [SESSION_CONTEXT]. *)
Record context := {
  chat_history : list json;
  session_food_items : json;
  session_products : json;
  food_search_results : gmap text (list menu_item);
  product_search_results : gmap text json;
  final_selection : json;
}.

(** What a route returns: the body given to [jsonify] and the status
    code, 200 when the route names none. *)
Record response := {
  status : nat;
  body : json;
}.

Definition jsonify (d : list (text * json)) : response :=
  {| status := 200; body := JDict d |}.

Definition with_status (r : response) (code : nat) : response :=
  {| status := code; body := body r |}.

(** [SESSION_CONTEXT.get(session_id)]: the keys are strings; a list or a
    dict cannot be hashed. *)
Definition session_get (store : gmap text context) (session_id : json)
  : result (option context) :=
  match session_id with
  | JStr sid => Return (store !! sid)
  | JList _ | JDict _ =>
      Raise (TypeError (T "unhashable type: '"
                        ++ T (type_name (Some session_id)) ++ T "'"))
  | _ => Return None
  end.

(** [context["chat_history"].append(turn)] *)
Definition append_turn (ctx : context) (turn : json) : context :=
  {| chat_history := chat_history ctx ++ [turn];
     session_food_items := session_food_items ctx;
     session_products := session_products ctx;
     food_search_results := food_search_results ctx;
     product_search_results := product_search_results ctx;
     final_selection := final_selection ctx |}.

(** [context["final_selection"] = revised_data] *)
Definition set_final_selection (ctx : context) (revised_data : json)
  : context :=
  {| chat_history := chat_history ctx;
     session_food_items := session_food_items ctx;
     session_products := session_products ctx;
     food_search_results := food_search_results ctx;
     product_search_results := product_search_results ctx;
     final_selection := revised_data |}.

Section Routes.
Context `{Builtins}.

Definition refinement_request (ctx : context) : chat_request :=
  {| model := llama_scout;
     messages :=
       [message "system" (JStr refinement_prompt)] ++ chat_history ctx
       ++ [message "user"
             (JStr (T "Current Selection:
" ++ dumps_indent2 (final_selection ctx)))];
     temperature := T "0.2";
     max_completion_tokens := 1024;
     top_p := T "1" |}.

(** The [try] block of [continue_chat] up to the parsed revision, on the
    context that already holds the user turn: the revised text and the
    value read from it. *)
Definition revise (client : backend) (ctx : context) : result (text * json) :=
  choices ← client (refinement_request ctx);
  revised ← content_stripped choices;
  match Json.loads revised with
  | Some revised_data => Return (revised, revised_data)
  | None => Raise (Exn (T "JSONDecodeError") (decode_error_str revised))
  end.

(** [POST /chat/continue]: the outcome of the route and [SESSION_CONTEXT]
    after it.  The context is a dict shared with [SESSION_CONTEXT], so
    every update of it is an update of the store. *)
Definition continue_chat (client : backend) (store : gmap text context)
  (data : json) : result response * gmap text context :=
  match
    session_id ← py_get data "session_id" JNull;
    followup_message ← py_get data "message" JNull;
    Return (session_id, followup_message)
  with
  | Raise e => (Raise e, store)
  | Return (session_id, followup_message) =>
      if negb (truthy session_id) || negb (truthy followup_message)
      then (Return (with_status
                      (jsonify [(T "error",
                                 JStr (T "Session ID and message are required"))])
                      400), store)
      else
        match session_id, session_get store session_id with
        | _, Raise e => (Raise e, store)
        | JStr sid, Return (Some ctx) =>
            let ctx := append_turn ctx (message "user" followup_message) in
            match revise client ctx with
            | Return (revised, revised_data) =>
                let ctx := set_final_selection ctx revised_data in
                let ctx := append_turn ctx (message "assistant" (JStr revised)) in
                (Return (jsonify [(T "revised_selection", revised_data);
                                  (T "chat_history", JList (chat_history ctx))]),
                 <[sid := ctx]> store)
            | Raise e =>
                (Return (jsonify [(T "error", JStr (T "Failed to process revision"));
                                  (T "details", JStr (exn_str e))]),
                 <[sid := ctx]> store)
            end
        | _, Return _ =>
            (Return (with_status
                       (jsonify [(T "error", JStr (T "Invalid session ID"))])
                       404), store)
        end
  end.

End Routes.

(** ** The cart route *)

(** The reply of the commerce backend to a request. *)
Record http_reply := {
  status_code : nat;
  reply_text : text;
}.

Definition user_id : text := T "5d320bcc-5ccd-4510-aace-695a3d864c18".

Section Cart.
Context `{Builtins}.
(** The commerce backend has a state of its own (the carts); [cart_add]
    is [requests.post(SERVER_URL + '/cart/add', json=payload)]: it raises
    or returns a reply, and moves the backend to a new state. *)
Context {world : Type}.
Variable cart_add : world -> json -> result http_reply * world.

(** The dict [payload] built for one item. *)
Definition cart_payload (item : json) : result json :=
  restaurant_id ← py_get item "restaurant_id" JNull;
  item_id ← py_get item "item_id" JNull;
  quantity_field ← py_get item "quantity" (JInt 1);
  quantity ← py_int quantity_field;
  producturl ← py_get item "producturl" JNull;
  image_url ← py_get item "image_url" JNull;
  Return (JDict [(T "user_id", JStr user_id);
                 (T "restaurant_id", restaurant_id);
                 (T "item_id", item_id);
                 (T "quantity", JInt quantity);
                 (T "producturl",
                  if truthy producturl then producturl else image_url)]).

(** The state of the loop over [food_selection]. *)
Record cart_run := {
  added_items : list json;
  failed_items : list json;
  posted : list json;       (* the payloads sent to the commerce backend *)
  commerce : world;
}.

Definition failed_entry (item : json) (reason : text) : json :=
  JDict [(T "item", item); (T "reason", JStr reason)].

(** The body of the loop for one item: an exception of the payload
    construction leaves the loop, one of the request is recorded. *)
Definition cart_step (st : cart_run) (item : json) : result cart_run :=
  payload ← cart_payload item;
  let (outcome, w) := cart_add (commerce st) payload in
  Return
    match outcome with
    | Return response =>
        if bool_decide (status_code response = 200%nat)
        then {| added_items := added_items st ++ [payload];
                failed_items := failed_items st;
                posted := posted st ++ [payload];
                commerce := w |}
        else {| added_items := added_items st;
                failed_items :=
                  failed_items st ++ [failed_entry item (reply_text response)];
                posted := posted st ++ [payload];
                commerce := w |}
    | Raise e =>
        {| added_items := added_items st;
           failed_items := failed_items st ++ [failed_entry item (exn_str e)];
           posted := posted st ++ [payload];
           commerce := w |}
    end.

(** The loop: the state when it ends, and the exception that ended it if
    one did. *)
Fixpoint cart_loop (st : cart_run) (items : list json)
  : cart_run * option exn :=
  match items with
  | [] => (st, None)
  | item :: rest =>
      match cart_step st item with
      | Return st' => cart_loop st' rest
      | Raise e => (st, Some e)
      end
  end.

(** [POST /cart/add-all]: the outcome of the route, the payloads it sent
    and the commerce backend after it. *)
Definition add_items_to_cart (w : world) (data : json)
  : result response * list json * world :=
  match py_get data "food_selection" JNull with
  | Raise e => (Raise e, [], w)
  | Return food_selection =>
      if negb (truthy food_selection) || negb (truthy (JStr user_id))
      then (Return (with_status
                      (jsonify [(T "error",
                                 JStr (T "Missing food_selection or user_id"))])
                      400), [], w)
      else
        match py_iter food_selection with
        | Raise e => (Raise e, [], w)
        | Return items =>
            let start := {| added_items := []; failed_items := [];
                            posted := []; commerce := w |} in
            match cart_loop start items with
            | (st, None) =>
                (Return (jsonify [(T "status", JStr (T "completed"));
                                  (T "added", JList (added_items st));
                                  (T "failed", JList (failed_items st))]),
                 posted st, commerce st)
            | (st, Some e) => (Raise e, posted st, commerce st)
            end
        end
  end.

End Cart.

(** ** Product search *)

(** The reply of the commerce backend to a search: its status code, and
    what [r.json()] returns or raises on its body. *)
Record search_reply := {
  search_status : nat;
  search_body : result json;
}.

(** The state of the loop of [fetch_product_search_results]: the dict
    built so far, the URLs requested so far and the commerce backend. *)
Record search_run {world : Type} := {
  search_results : list (text * json);
  requested : list text;
  search_backend : world;
}.
Arguments search_run : clear implicits.

Section ProductSearch.
Context {world : Type}.
(** [os.getenv("SERVER_URL")], [None] when the variable is not set. *)
Variable SERVER_URL : option text.
(** [requests.get(url)]: it raises or returns a reply, and moves the
    commerce backend to a new state. *)
Variable http_get : world -> text -> result search_reply * world.

(** [f"{SERVER_URL}/search/product/{product}"] *)
Definition search_url (product : text) : text :=
  default (T "None") SERVER_URL ++ T "/search/product/" ++ product.

(** What one turn of the loop stores under the product: the decoded body
    of a reply of status 200, and the empty list for any other status and
    for any exception of the request or of the decoding. *)
Definition search_entry (outcome : result search_reply) : json :=
  match outcome with
  | Return r =>
      if bool_decide (search_status r = 200%nat)
      then match search_body r with
           | Return v => v
           | Raise _ => JList []
           end
      else JList []
  | Raise _ => JList []
  end.

(** The body of the loop for one product. *)
Definition search_step (st : search_run world) (product : text)
  : search_run world :=
  let (outcome, w) := http_get (search_backend st) (search_url product) in
  {| search_results :=
       dict_set (search_results st) product (search_entry outcome);
     requested := requested st ++ [search_url product];
     search_backend := w |}.

(** [fetch_product_search_results(product_list)] for a list of names:
    the dict it returns, the URLs it requested and the commerce backend
    after it.  Every exception of the loop body is caught there, so the
    function has no exceptional outcome. *)
Definition fetch_product_search_results (w : world)
  (product_list : list text) : search_run world :=
  foldl search_step
    {| search_results := []; requested := []; search_backend := w |}
    product_list.

(** An entry is the empty list, or the decoded body of a reply of status
    200 to the search for its product. *)
Definition found_for (product : text) (v : json) : Prop :=
  v = JList []
  ∨ ∃ w r, fst (http_get w (search_url product)) = Return r
           ∧ search_status r = 200%nat ∧ search_body r = Return v.

End ProductSearch.

(** ** Predicates of the specification *)

(** The two parsing attempts of the extraction both fail on a text. *)
Definition both_attempts_fail (s : text) : Prop :=
  Json.loads s = None
  ∧ ∀ json_str, brace_search s = Some json_str → Json.loads json_str = None.

(** The values under [name_key] of the line items listed under
    [list_key] in a selection. *)
Definition line_item_names (list_key name_key : string) (selection : json)
  : list json :=
  match selection with
  | JDict d =>
      match dict_get d (T list_key) with
      | Some (JList items) =>
          omap (fun item =>
                  match item with
                  | JDict fields => dict_get fields (T name_key)
                  | _ => None
                  end) items
      | _ => []
      end
  | _ => []
  end.

(** No two food line items share an [item_name] and no two product line
    items share a [product_name]. *)
Definition no_repeated_names (selection : json) : Prop :=
  NoDup (line_item_names "food_selection" "item_name" selection)
  ∧ NoDup (line_item_names "product_selection" "product_name" selection).

(** A JSON body is an object that has the key. *)
Definition has_key (key : string) (v : json) : Prop :=
  match v with
  | JDict d => is_Some (dict_get d (T key))
  | _ => False
  end.

(** The refinement turn fails on a context: the backend call raises, the
    completion has no choice or no text, or the text is not JSON. *)
Inductive refinement_fails `{Builtins} (client : backend) (ctx : context)
  : Prop :=
| backend_raises e :
    client (refinement_request ctx) = Raise e → refinement_fails client ctx
| no_choice :
    client (refinement_request ctx) = Return [] → refinement_fails client ctx
| no_text rest :
    client (refinement_request ctx) = Return (None :: rest) →
    refinement_fails client ctx
| not_json content rest :
    client (refinement_request ctx) = Return (Some content :: rest) →
    Json.loads (Str.strip content) = None →
    refinement_fails client ctx.

(** The fenced forms the clean-up of both stages looks for: the text
    between an opening line and a closing fence. *)
Definition fenced (opening t : text) : text := opening ++ 10 :: t ++ 10 :: fence.

(** A name holds one of the keywords, both in lower case. *)
Definition matches_keyword `{Builtins} (keywords : list text) (item : text)
  : Prop :=
  ∃ keyword, keyword ∈ keywords
             ∧ Str.contains (str_lower keyword) (str_lower item) = true.

(** The keywords of the event of a request, for food and for products. *)
Definition food_keywords `{Builtins} (user_query : text) : list text :=
  fst (event_keywords (str_lower user_query)).

Definition product_keywords `{Builtins} (user_query : text) : list text :=
  snd (event_keywords (str_lower user_query)).

(** ** Shapes of text around a JSON value

    Predicates for the analysis of the decoder: what a scanned value is
    made of and what may follow it. *)

(** Only JSON whitespace. *)
Definition blank (w : text) : Prop := Forall (fun c => Json.is_ws c = true) w.

(** The first, the last character is not whitespace for [str.strip]. *)
Definition solid_start (c : text) : Prop :=
  match c with a :: _ => Str.isspace a = false | [] => False end.

Definition solid_end (c : text) : Prop :=
  ∃ c' z, c = c' ++ [z] ∧ Str.isspace z = false.

(** What follows a value inside a document: nothing, whitespace, a comma
    or a closing bracket. *)
Definition delimited (r : text) : Prop :=
  match r with
  | [] => True
  | x :: _ => Json.is_ws x = true ∨ x = 44 ∨ x = 93 ∨ x = 125
  end.

(** What ends a run of digits, a numeral without fraction, a numeral. *)
Definition nondigit (r : text) : Prop :=
  match r with [] => True | x :: _ => Json.is_digit x = false end.

Definition no_fraction (r : text) : Prop :=
  match r with [] => True | x :: _ => Json.is_digit x = false ∧ x ≠ 46 end.

Definition stops (r : text) : Prop :=
  match r with
  | [] => True
  | x :: _ => Json.is_digit x = false ∧ x ≠ 46 ∧ x ≠ 101 ∧ x ≠ 69
  end.

(** ** A runtime to evaluate with

    One instance of [Builtins], to run the definitions on concrete
    inputs.  It agrees with Python on ASCII text and on numerals that a
    float holds exactly; the statements do not depend on it. *)
Module Runtime.

Definition lower (s : text) : text :=
  (fun c => if (65 <=? c) && (c <=? 90) then c + 32 else c) <$> s.

Definition decimal (ds : text) : option Z :=
  match ds with
  | [] => None
  | _ :: _ => if forallb Json.is_digit ds then Some (Json.int_of_digits ds)
              else None
  end.

Definition int_of_str (s : text) : result Z :=
  let parsed :=
    match Str.strip s with
    | c :: ds =>
        if c =? 45 then Z.opp <$> decimal ds
        else if c =? 43 then decimal ds
        else decimal (c :: ds)
    | [] => None
    end in
  match parsed with
  | Some z => Return z
  | None => Raise (Exn (T "ValueError")
                       (T "invalid literal for int() with base 10: '" ++ s
                        ++ T "'"))
  end.

(** The digits of a numeral before its exponent. *)
Fixpoint mantissa (n : text) : text :=
  match n with
  | c :: r => if (c =? 101) || (c =? 69) then [] else c :: mantissa r
  | [] => []
  end.

Definition float_truthy (n : text) : bool :=
  existsb (fun c => (49 <=? c) && (c <=? 57)) (mantissa n)
  || negb (existsb Json.is_digit n).

(** The integer part of the decimal value of a numeral; [NaN] and the
    infinities have none. *)
Definition int_of_float (n : text) : result Z :=
  match Json.match_integer n with
  | None =>
      if Str.startswith (T "NaN") n
      then Raise (Exn (T "ValueError") (T "cannot convert float NaN to integer"))
      else Raise (Exn (T "OverflowError")
                      (T "cannot convert float infinity to integer"))
  | Some (neg, ds, r) =>
      let (frac, r1) := Json.match_frac r in
      let (exp, _) := Json.match_exp r1 in
      let digits := Json.int_of_digits (ds ++ drop 1 frac) in
      let e :=
        match exp with
        | _ :: s :: es =>
            if s =? 45 then (- Json.int_of_digits es)%Z
            else if s =? 43 then Json.int_of_digits es
            else Json.int_of_digits (s :: es)
        | _ => 0%Z
        end in
      let scale := (e - Z.of_nat (length (drop 1 frac)))%Z in
      let magnitude :=
        if (0 <=? scale)%Z then (digits * 10 ^ scale)%Z
        else (digits / 10 ^ (- scale))%Z in
      Return (if neg then - magnitude else magnitude)%Z
  end.

Fixpoint join (sep : text) (l : list text) : text :=
  match l with
  | [] => []
  | [x] => x
  | x :: r => x ++ sep ++ join sep r
  end.

Definition format_names (names : list text) : text :=
  T "[" ++ join (T ", ") ((fun n => 39 :: n ++ [39]) <$> names) ++ T "]".

Definition quoted (s : text) : text :=
  34 :: flat_map (fun c => if (c =? 34) || (c =? 92) then [92; c]
                           else if c =? 10 then [92; 110]
                           else [c]) s ++ [34].

Definition decimal_of_Z (z : Z) : text :=
  T (DecimalString.NilZero.string_of_int (Z.to_int z)).

Fixpoint dumps (indent : text) (v : json) : text :=
  let inner := indent ++ T "  " in
  match v with
  | JNull => T "null"
  | JBool true => T "true"
  | JBool false => T "false"
  | JInt z => decimal_of_Z z
  | JFloat n => n
  | JStr s => quoted s
  | JList [] => T "[]"
  | JList l =>
      T "[" ++ 10 :: join [44; 10] (List.map (fun x => inner ++ dumps inner x) l)
      ++ 10 :: indent ++ T "]"
  | JDict [] => T "{}"
  | JDict d =>
      T "{" ++ 10 :: join [44; 10]
                      (List.map (fun kv => let '(k, x) := kv in
                                           inner ++ quoted k ++ T ": "
                                           ++ dumps inner x) d)
      ++ 10 :: indent ++ T "}"
  end.

(** A row and a dict of search results, rendered in the way of a Python
    dict. *)
Definition format_row (row : menu_item) : text :=
  T "{'name': " ++ from_option (fun n => 39 :: n ++ [39]) (T "None") (name row)
  ++ T ", 'review': "
  ++ from_option (fun q => decimal_of_Z (Qnum q) ++ T "/"
                           ++ decimal_of_Z (Z.pos (Qden q)))
       (T "None") (review row)
  ++ flat_map (fun kv => T ", '" ++ fst kv ++ T "': '" ++ snd kv ++ T "'")
       (columns row)
  ++ T "}".

Definition format_dict {V} (render : V -> text) (m : gmap text V) : text :=
  T "{" ++ join (T ", ")
             ((fun kv => 39 :: fst kv ++ T "': " ++ render (snd kv))
                <$> map_to_list m)
  ++ T "}".

Definition format_food_results (m : gmap text (list menu_item)) : text :=
  format_dict (fun rows => T "[" ++ join (T ", ") (format_row <$> rows) ++ T "]")
    m.

Definition builtins : Builtins :=
  Build_Builtins lower lower float_truthy int_of_str int_of_float
    format_names format_food_results (format_dict (dumps [])) (dumps [])
    (fun _ => T "Expecting value").

End Runtime.

(** * Properties *)

(** ** Text functions on examples *)

Example strip_example :
  Str.strip (T "  ab c  ") = T "ab c".
Proof. reflexivity. Qed.

Example replace_example :
  Str.replace (T "```") [] (T "````a``b```") = T "`a``b".
Proof. reflexivity. Qed.


Example loads_example :
  Json.loads (J "{'a': [1, -2.5e3, true, null, 'x\nA'], 'b': {}, 'a': 'z'}")
  = Some (JDict [(T "a", JStr (T "z")); (T "b", JDict [])]).
Proof. vm_compute. reflexivity. Qed.

Example loads_example2 :
  Json.loads (J " [ {'k' : 'v'} , [] , 'a`b' ] ")
  = Some (JList [JDict [(T "k", JStr (T "v"))]; JList []; JStr (T "a`b")]).
Proof. vm_compute. reflexivity. Qed.

Example loads_bad :
  Json.loads (J "{'a': 1,}") = None /\ Json.loads (J "[1 2]") = None
  /\ Json.loads (J "01") = None /\ Json.loads (J "") = None
  /\ Json.loads (J "{'a': 1} x") = None.
Proof. vm_compute. repeat split. Qed.

(** Equal lists that differ in the grouping of their parts. *)
Ltac regroup :=
  repeat (rewrite <- app_assoc || rewrite <- app_comm_cons);
  cbn [app]; reflexivity.

(** ** Text functions *)

Section Text.
Import Str.

Lemma startswith_spec (p s : text) :
  startswith p s = true ↔ ∃ r, s = p ++ r.
Proof.
  revert s. induction p as [|a p IH]; intros s; cbn.
  - split; [intros _; by exists s | done].
  - destruct s as [|b s].
    + split; [done | intros [r Hr]; discriminate].
    + rewrite andb_true_iff, N.eqb_eq, IH. split.
      * intros [-> [r ->]]. by exists r.
      * intros [r Hr]. injection Hr as -> ->. split; [done | by exists r].
Qed.

Lemma startswith_app (p s : text) : startswith p (p ++ s) = true.
Proof. apply startswith_spec. by exists s. Qed.

Lemma contains_spec (p s : text) :
  contains p s = true ↔ ∃ a b, s = a ++ p ++ b.
Proof.
  induction s as [|c s IH]; cbn [contains]; rewrite orb_true_iff, startswith_spec.
  - split.
    + intros [[r Hr]|?]; [|done]. exists [], r. done.
    + intros (a & b & Hab). left. exists b.
      destruct a; [done | discriminate].
  - rewrite IH. split.
    + intros [[r Hr]|(a & b & ->)]; [exists [], r; done | by exists (c :: a), b].
    + intros (a & b & Hab). destruct a as [|a0 a].
      * left. by exists b.
      * right. injection Hab as -> ->. by exists a, b.
Qed.

Lemma not_contains_startswith (p s : text) :
  contains p s = false → startswith p s = false.
Proof.
  destruct s; cbn [contains]; intros Hc; by apply orb_false_iff in Hc as [? _].
Qed.

Lemma not_contains_cons (p : text) c s :
  contains p (c :: s) = false → contains p s = false.
Proof. cbn [contains]. intros Hc. by apply orb_false_iff in Hc as [_ ?]. Qed.

(** [lstrip] drops a prefix and [rstrip] a suffix. *)
Lemma lstrip_suffix (s : text) : ∃ w, s = w ++ lstrip s.
Proof.
  induction s as [|c s [w IH]]; [by exists []|]. cbn.
  destruct (isspace c); [|by exists []].
  exists (c :: w). cbn. by rewrite <- IH.
Qed.

Lemma rstrip_prefix (s : text) : ∃ w, s = rstrip s ++ w.
Proof.
  unfold rstrip. destruct (lstrip_suffix (rev s)) as [w Hw].
  exists (rev w). rewrite <- rev_app_distr, <- Hw. by rewrite rev_involutive.
Qed.

Lemma contains_strip (p s : text) :
  contains p s = false → contains p (strip s) = false.
Proof.
  intros Hs. destruct (contains p (strip s)) eqn:Hc; [|done].
  apply contains_spec in Hc as (a & b & Hab).
  destruct (lstrip_suffix s) as [w1 H1].
  destruct (rstrip_prefix (lstrip s)) as [w2 H2].
  assert (Hin : contains p s = true); [|congruence].
  apply contains_spec. exists (w1 ++ a), (b ++ w2).
  rewrite H1, H2. unfold strip in Hab. rewrite Hab.
  by rewrite <- !app_assoc.
Qed.

Lemma lstrip_app_nonspace (s : text) c r :
  isspace c = false → lstrip (s ++ c :: r) = lstrip s ++ c :: r.
Proof.
  intros Hc. induction s as [|a s IH]; cbn.
  - by rewrite Hc.
  - by destruct (isspace a).
Qed.

Lemma lstrip_idemp (s : text) : lstrip (lstrip s) = lstrip s.
Proof.
  induction s as [|c s IH]; [done|]. cbn.
  destruct (isspace c) eqn:Hc; [done|]. cbn. by rewrite Hc.
Qed.

Lemma rstrip_snoc_nonspace (s : text) c :
  isspace c = false → rstrip (s ++ [c]) = s ++ [c].
Proof.
  intros Hc. unfold rstrip. rewrite rev_app_distr. cbn. rewrite Hc. cbn.
  by rewrite rev_involutive.
Qed.

Lemma rstrip_snoc_space (s : text) c :
  isspace c = true → rstrip (s ++ [c]) = rstrip s.
Proof. intros Hc. unfold rstrip. rewrite rev_app_distr. cbn. by rewrite Hc. Qed.

Lemma strip_snoc_space (s : text) c :
  isspace c = true → strip (s ++ [c]) = strip s.
Proof.
  intros Hc. unfold strip. induction s as [|a s IH]; cbn.
  - by rewrite Hc.
  - destruct (isspace a); [done|].
    exact (rstrip_snoc_space (a :: s) c Hc).
Qed.

Lemma strip_cons_space (s : text) c :
  isspace c = true → strip (c :: s) = strip s.
Proof. intros Hc. unfold strip. cbn. by rewrite Hc. Qed.

(** *** The fences *)

Lemma startswith_fence_json_fence (s : text) :
  startswith fence_json s = true → startswith fence s = true.
Proof.
  rewrite !startswith_spec. intros [r ->]. by exists (T "json" ++ r).
Qed.

(** A line break cuts every fence that would start before it. *)
Lemma startswith_fence_newline (s r : text) :
  startswith fence (s ++ 10 :: r) = startswith fence s.
Proof.
  destruct s as [|a [|b [|c s]]]; cbn; try done;
    try (by rewrite ?andb_false_r);
    by destruct (96 =? a), (96 =? b), (96 =? c).
Qed.

Lemma replace_fence_tail (t : text) :
  contains fence t = false →
  replace_from fence [] O (t ++ 10 :: fence) = t ++ [10].
Proof.
  induction t as [|c t IH]; intros Hc; [done|].
  cbn [app replace_from].
  change (c :: t ++ 10 :: fence) with ((c :: t) ++ 10 :: fence).
  rewrite startswith_fence_newline, (not_contains_startswith _ _ Hc).
  rewrite IH; [done | by eapply not_contains_cons].
Qed.

Lemma replace_fence_json_tail (t : text) :
  contains fence t = false →
  replace_from fence_json [] O (t ++ 10 :: fence) = t ++ 10 :: fence.
Proof.
  induction t as [|c t IH]; intros Hc; [done|].
  cbn [app replace_from].
  destruct (startswith fence_json (c :: t ++ 10 :: fence)) eqn:Hs.
  - apply startswith_fence_json_fence in Hs.
    change (c :: t ++ 10 :: fence) with ((c :: t) ++ 10 :: fence) in Hs.
    rewrite startswith_fence_newline, (not_contains_startswith _ _ Hc) in Hs.
    done.
  - rewrite IH; [done | by eapply not_contains_cons].
Qed.

Lemma endswith_spec (p s : text) :
  endswith p s = true ↔ ∃ a, s = a ++ p.
Proof.
  unfold endswith. rewrite startswith_spec. split.
  - intros [r Hr]. exists (rev r).
    rewrite <- (rev_involutive s), Hr, rev_app_distr. by rewrite rev_involutive.
  - intros [a ->]. exists (rev a). by rewrite rev_app_distr.
Qed.

Lemma not_contains_endswith (p s : text) :
  contains p s = false → endswith p s = false.
Proof.
  intros Hc. destruct (endswith p s) eqn:He; [|done].
  apply endswith_spec in He as [a ->].
  assert (contains p (a ++ p) = true); [|congruence].
  apply contains_spec. exists a, []. by rewrite app_nil_r.
Qed.

End Text.

(** ** The JSON decoder

    The recursion of the scanner is bounded by [fuel].  The depth
    [Json.enough] is always sufficient, and a scan that ended does not
    depend on the depth it was given: [Json.loads] returns [None] only
    where the decoder raises [JSONDecodeError]. *)

Section Decoder.
Import Json.

Lemma push_Some c o str r :
  push c o = Some (str, r) → ∃ str', o = Some (str', r).
Proof. destruct o as [[str' r']|]; cbn; [|done]. intros [= _ ->]. eauto. Qed.

Lemma scanstring_shorter (s : text) :
  ∀ str r, scanstring s = Some (str, r) → (length r < length s)%nat.
Proof.
  remember (length s) as n eqn:Hn. revert s Hn.
  induction n as [n IH] using lt_wf_ind. intros s -> str r.
  assert (Hrec : ∀ c s', (length s' < length s)%nat →
            push c (scanstring s') = Some (str, r) →
            (length r < length s)%nat).
  { intros c s' Hlt [str' Hs]%push_Some.
    specialize (IH _ Hlt s' eq_refl _ _ Hs). lia. }
  destruct s as [|c s]; cbn [scanstring]; [done|].
  repeat case_match; subst; try done;
    try (intros [= _ <-]; cbn; lia);
    (apply Hrec; cbn; lia).
Qed.

Lemma skip_ws_length (s : text) : (length (skip_ws s) ≤ length s)%nat.
Proof. induction s as [|c s IH]; cbn; [done|]. destruct (is_ws c); cbn; lia. Qed.

Lemma span_digits_length (s : text) :
  (length (snd (span_digits s)) ≤ length s)%nat.
Proof.
  induction s as [|c s IH]; cbn; [done|].
  destruct (is_digit c); [|cbn; lia].
  destruct (span_digits s); cbn in *. lia.
Qed.

Lemma match_integer_shorter s neg ds r :
  match_integer s = Some (neg, ds, r) → (length r < length s)%nat.
Proof.
  unfold match_integer.
  assert (Hgen : ∀ (b : bool) (s1 : text),
    match s1 with
    | [] => None
    | c :: r0 =>
        if c =? 48 then Some (b, [c], r0)
        else if is_digit c
             then let (ds, rest) := span_digits r0 in Some (b, c :: ds, rest)
             else None
    end = Some (neg, ds, r) → (length r < length s1)%nat).
  { intros b [|c r0]; [done|]. pose proof (span_digits_length r0).
    repeat case_match; intros [= _ _ <-]; subst; cbn in *; lia. }
  destruct s as [|c s]; [done|].
  destruct (c =? 45); intros Hm.
  - apply (Hgen true s) in Hm. cbn. lia.
  - by apply (Hgen false (c :: s)) in Hm.
Qed.

Lemma match_frac_length s : (length (snd (match_frac s)) ≤ length s)%nat.
Proof.
  unfold match_frac. destruct s as [|c r]; [done|].
  destruct (c =? 46); [|cbn; lia].
  pose proof (span_digits_length r).
  destruct (span_digits r) as [[|d ds] rest]; cbn in *; lia.
Qed.

Lemma match_exp_length s : (length (snd (match_exp s)) ≤ length s)%nat.
Proof.
  unfold match_exp. destruct s as [|c r]; [done|].
  destruct ((c =? 101) || (c =? 69)); [|cbn; lia].
  destruct r as [|c' r']; [cbn; lia|].
  destruct ((c' =? 45) || (c' =? 43)).
  - pose proof (span_digits_length r').
    destruct (span_digits r') as [[|d ds] rest]; cbn in *; lia.
  - pose proof (span_digits_length (c' :: r')).
    destruct (span_digits (c' :: r')) as [[|d ds] rest]; cbn in *; lia.
Qed.

Lemma match_number_shorter s v r :
  match_number s = Some (v, r) → (length r < length s)%nat.
Proof.
  unfold match_number.
  destruct (match_integer s) as [[[neg ds] r0]|] eqn:Hi; [|done].
  apply match_integer_shorter in Hi.
  pose proof (match_frac_length r0).
  destruct (match_frac r0) as [frac r1].
  pose proof (match_exp_length r1).
  destruct (match_exp r1) as [exp r2]. cbn in *.
  repeat case_match; intros [= _ <-]; lia.
Qed.

Lemma literal_shorter word v s v' r :
  word ≠ ""%string → literal word v s = Some (v', r) → (length r < length s)%nat.
Proof.
  unfold literal. intros Hw. case_match eqn:Hs; [|done]. intros [= _ <-].
  rewrite length_drop. destruct word; [done|]. destruct s; [done|]. cbn. lia.
Qed.

Lemma scan_scalar_shorter s v r :
  scan_scalar s = Some (v, r) → (length r < length s)%nat.
Proof.
  unfold scan_scalar.
  repeat case_match; intros Hfinal; simplify_eq;
    repeat match goal with
    | H : literal _ _ _ = Some _ |- _ => apply literal_shorter in H; [|done]
    | H : match_number _ = Some _ |- _ => apply match_number_shorter in H
    end; lia.
Qed.

Local Ltac skip_ws_bounds :=
  repeat match goal with
  | H : skip_ws ?x = _ |- _ =>
      let H' := fresh in
      pose proof (skip_ws_length x) as H'; rewrite H in H'; clear H
  | H : context [length (skip_ws ?x)] |- _ =>
      lazymatch goal with
      | _ : (length (skip_ws x) ≤ length x)%nat |- _ => fail
      | _ => pose proof (skip_ws_length x)
      end
  end.

Lemma scan_shorter (fuel : nat) :
  (∀ s v r, scan_once fuel s = Scanned v r → (length r < length s)%nat)
  ∧ (∀ pairs s v r, JSONObject fuel pairs s = Scanned v r →
       (length r < length s)%nat)
  ∧ (∀ values s v r, JSONArray fuel values s = Scanned v r →
       (length r < length s)%nat).
Proof.
  induction fuel as [|f (IHs & IHo & IHa)]; [done|].
  split_and!.
  - intros s v r. cbn [scan_once].
    destruct s as [|c s]; [done|].
    repeat case_match; try done; subst.
    all: repeat match goal with
    | H : scanstring _ = Some _ |- _ => apply scanstring_shorter in H
    | H : scan_scalar _ = Some _ |- _ => apply scan_scalar_shorter in H
    end; skip_ws_bounds.
    all: try (intros [= _ <-]; cbn in *; lia).
    + intros Ho%IHo. cbn in *. lia.
    + intros Ha%IHa. cbn in *. lia.
  - intros pairs s v r. cbn [JSONObject].
    repeat case_match; try done; subst.
    all: repeat match goal with
    | H : scanstring _ = Some _ |- _ => apply scanstring_shorter in H
    | H : scan_once _ _ = Scanned _ _ |- _ => apply IHs in H
    end; skip_ws_bounds.
    all: try (intros [= _ <-]; cbn in *; lia).
    intros Ho%IHo. cbn in *. lia.
  - intros values s v r. cbn [JSONArray].
    repeat case_match; try done; subst.
    all: repeat match goal with
    | H : scan_once _ _ = Scanned _ _ |- _ => apply IHs in H
    end; skip_ws_bounds.
    all: try (intros [= _ <-]; cbn in *; lia).
    intros Ha%IHa. skip_ws_bounds. cbn in *. lia.
Qed.

Lemma scan_fed (fuel : nat) :
  (∀ s, (2 * length s < fuel)%nat → scan_once fuel s ≠ Starved)
  ∧ (∀ pairs s, (2 * length s + 1 < fuel)%nat →
       JSONObject fuel pairs s ≠ Starved)
  ∧ (∀ values s, (2 * length s + 1 < fuel)%nat →
       JSONArray fuel values s ≠ Starved).
Proof.
  induction fuel as [|f (IHs & IHo & IHa)]; [split_and!; intros; lia|].
  split_and!.
  - intros s Hf. cbn [scan_once].
    destruct s as [|c s]; [done|].
    repeat case_match; try done; subst; skip_ws_bounds.
    + apply IHo. cbn in *. lia.
    + apply IHa. cbn in *. lia.
  - intros pairs s Hf. cbn [JSONObject].
    repeat case_match; try done; subst.
    + repeat match goal with
      | H : scanstring _ = Some _ |- _ => apply scanstring_shorter in H
      | H : scan_once _ _ = Scanned _ _ |- _ => apply (proj1 (scan_shorter _)) in H
      end; skip_ws_bounds.
      apply IHo. cbn in *. lia.
    + match goal with
      | H : scan_once _ ?x = Starved |- _ => apply IHs in H; [done|]
      end.
      repeat match goal with
      | H : scanstring _ = Some _ |- _ => apply scanstring_shorter in H
      end; skip_ws_bounds.
      match goal with
      | |- context [skip_ws ?x] => pose proof (skip_ws_length x)
      end. cbn in *. lia.
  - intros values s Hf. cbn [JSONArray].
    repeat case_match; try done; subst.
    + repeat match goal with
      | H : scan_once _ _ = Scanned _ _ |- _ => apply (proj1 (scan_shorter _)) in H
      end; skip_ws_bounds.
      apply IHa.
      match goal with
      | |- context [skip_ws ?x] => pose proof (skip_ws_length x)
      end. cbn in *. lia.
    + match goal with
      | H : scan_once _ ?x = Starved |- _ => apply IHs in H; [done|lia]
      end.
Qed.

(** [decode] always ends with a value or with an error. *)
Lemma decode_not_starved (s : text) : decode s ≠ Starved.
Proof.
  unfold decode.
  destruct (scan_once (enough s) (skip_ws s)) eqn:Hs; [by case_match|done|].
  apply (proj1 (scan_fed _)) in Hs; [done|].
  pose proof (skip_ws_length s). unfold enough. lia.
Qed.

(** [None] stands for a decoding error and for nothing else. *)
Lemma loads_None (s : text) :
  loads s = None ↔ Str.startswith [65279] s = true ∨ decode s = Invalid.
Proof.
  unfold loads. pose proof (decode_not_starved s) as Hfed.
  destruct (Str.startswith [65279] s); [by split; eauto|].
  destruct (decode s) as [v rest| |]; [|by split; eauto|done].
  split; [done|]. by intros [?|?].
Qed.

Lemma scan_stable (fuel : nat) :
  (∀ s, scan_once fuel s ≠ Starved → scan_once (S fuel) s = scan_once fuel s)
  ∧ (∀ pairs s, JSONObject fuel pairs s ≠ Starved →
       JSONObject (S fuel) pairs s = JSONObject fuel pairs s)
  ∧ (∀ values s, JSONArray fuel values s ≠ Starved →
       JSONArray (S fuel) values s = JSONArray fuel values s).
Proof.
  induction fuel as [|f (IHs & IHo & IHa)]; [done|].
  split_and!.
  - intros s. cbn [scan_once].
    destruct s as [|c s]; [done|].
    destruct (c =? 34); [done|].
    destruct (c =? 123).
    { destruct (skip_ws s) as [|c1 r1]; [done|].
      destruct (c1 =? 125); [done|]. destruct (c1 =? 34); [|done]. apply IHo. }
    destruct (c =? 91); [|done].
    destruct (skip_ws s) as [|c1 r1]; [done|].
    destruct (c1 =? 93); [done|]. apply IHa.
  - intros pairs s.
    change (JSONObject (S (S f)) pairs s) with
      (match scanstring s with
       | None => Invalid
       | Some (key, r) =>
           match skip_ws r with
           | c :: r1 =>
               if c =? 58 then
                 match scan_once (S f) (skip_ws r1) with
                 | Scanned value r2 =>
                     match skip_ws r2 with
                     | c2 :: r3 =>
                         if c2 =? 125
                         then Scanned
                                (JDict (dict_of_pairs (pairs ++ [(key, value)])))
                                r3
                         else if c2 =? 44 then
                           match skip_ws r3 with
                           | c3 :: r4 =>
                               if c3 =? 34
                               then JSONObject (S f) (pairs ++ [(key, value)]) r4
                               else Invalid
                           | [] => Invalid
                           end
                         else Invalid
                     | [] => Invalid
                     end
                 | Invalid => Invalid
                 | Starved => Starved
                 end
               else Invalid
           | [] => Invalid
           end
       end).
    cbn [JSONObject].
    destruct (scanstring s) as [[key r]|]; [|done].
    destruct (skip_ws r) as [|c r1]; [done|].
    destruct (c =? 58); [|done].
    destruct (scan_once f (skip_ws r1)) as [value r2| |] eqn:Hv; [| |done].
    + rewrite (IHs (skip_ws r1)) by congruence. rewrite Hv.
      destruct (skip_ws r2) as [|c2 r3]; [done|].
      destruct (c2 =? 125); [done|]. destruct (c2 =? 44); [|done].
      destruct (skip_ws r3) as [|c3 r4]; [done|].
      destruct (c3 =? 34); [|done]. apply IHo.
    + rewrite (IHs (skip_ws r1)) by congruence. by rewrite Hv.
  - intros values s.
    change (JSONArray (S (S f)) values s) with
      (match scan_once (S f) s with
       | Scanned value r =>
           match skip_ws r with
           | c :: r1 =>
               if c =? 93 then Scanned (JList (values ++ [value])) r1
               else if c =? 44
                    then JSONArray (S f) (values ++ [value]) (skip_ws r1)
                    else Invalid
           | [] => Invalid
           end
       | Invalid => Invalid
       | Starved => Starved
       end).
    cbn [JSONArray].
    destruct (scan_once f s) as [value r| |] eqn:Hv; [| |done].
    + rewrite (IHs s) by congruence. rewrite Hv.
      destruct (skip_ws r) as [|c r1]; [done|].
      destruct (c =? 93); [done|]. destruct (c =? 44); [|done]. apply IHa.
    + rewrite (IHs s) by congruence. by rewrite Hv.
Qed.

(** More fuel than a scan needed does not change its result. *)
Lemma scan_once_fuel (f f' : nat) (s : text) :
  (f ≤ f')%nat → scan_once f s ≠ Starved → scan_once f' s = scan_once f s.
Proof.
  induction 1 as [|f' Hle IH]; [done|]. intros Hs.
  rewrite <- (IH Hs). apply scan_stable. by rewrite (IH Hs).
Qed.

(** *** What a scan reads

    A scan reads a prefix of its input, and what follows the prefix
    enters the scan only through the character that ends a numeral. *)

Lemma is_ws_isspace c : is_ws c = true → Str.isspace c = true.
Proof.
  unfold is_ws. rewrite !orb_true_iff, !N.eqb_eq.
  intros [[[->| ->]| ->]| ->]; reflexivity.
Qed.

Lemma skip_ws_split (r : text) : ∃ w, r = w ++ skip_ws r ∧ blank w.
Proof.
  induction r as [|c r (w & Hr & Hw)]; cbn.
  - exists []. by split; [|constructor].
  - destruct (is_ws c) eqn:Hc.
    + exists (c :: w). split; [cbn; congruence | by constructor].
    + exists []. by split; [|constructor].
Qed.

Lemma skip_ws_blank_app (w x : text) :
  blank w → match x with a :: _ => is_ws a = false | [] => True end →
  skip_ws (w ++ x) = x.
Proof.
  induction 1 as [|c w Hc _ IH]; cbn; intros Hx.
  - destruct x as [|a x]; [done|]. cbn. by rewrite Hx.
  - rewrite Hc. by apply IH.
Qed.

Lemma skip_ws_head (r : text) c r' :
  skip_ws r = c :: r' → is_ws c = false.
Proof.
  induction r as [|a r IH]; cbn; [done|].
  destruct (is_ws a) eqn:Ha; [done|]. by intros [= <- _].
Qed.

Lemma solid_start_not_ws c x :
  solid_start c → match c ++ x with a :: _ => is_ws a = false | [] => True end.
Proof.
  destruct c as [|a c]; [done|]. cbn. intros Ha.
  destruct (is_ws a) eqn:Hw; [|done]. apply is_ws_isspace in Hw. congruence.
Qed.

Lemma push_inv c o str r :
  push c o = Some (str, r) → ∃ str', o = Some (str', r) ∧ str = c :: str'.
Proof. destruct o as [[str' r']|]; cbn; [|done]. intros [= <- <-]. eauto. Qed.

(** One step of [scanstring]. *)
Lemma scanstring_eq (s : text) :
  scanstring s =

  match s with
  | [] => None
  | c :: r =>
      if c =? 34 then Some ([], r)
      else if c =? 92 then
        match r with
        | [] => None
        | esc :: r1 =>
            if esc =? 117 then
              match r1 with
              | h1 :: h2 :: h3 :: h4 :: r2 =>
                  match hex4 h1 h2 h3 h4 with
                  | None => None
                  | Some uni =>
                      match r2 with
                      | b :: u :: r3 =>
                          if is_high_surrogate uni && (b =? 92) && (u =? 117)
                          then
                            match r3 with
                            | g1 :: g2 :: g3 :: g4 :: r4 =>
                                match hex4 g1 g2 g3 g4 with
                                | None => None
                                | Some uni2 =>
                                    if is_low_surrogate uni2
                                    then push (join_surrogates uni uni2)
                                              (scanstring r4)
                                    else push uni (scanstring r2)
                                end
                            | _ => None
                            end
                          else push uni (scanstring r2)
                      | _ => push uni (scanstring r2)
                      end
                  end
              | _ => None
              end
            else
              match backslash esc with
              | Some ch => push ch (scanstring r1)
              | None => None
              end
        end
      else if c <? 32 then None
      else push c (scanstring r)
  end.
Proof. by destruct s. Qed.

(** A text on which the scan of a string succeeds and leaves nothing
    holds at least its closing quote, and an escape it starts with is
    complete. *)
Lemma scanstring_whole_head (cx : text) str :
  scanstring cx = Some (str, []) →
  match cx with
  | [] => False
  | [b] => b = 34
  | b :: u :: cx' =>
      b = 92 → u = 117 → ∃ g1 g2 g3 g4 cx'', cx' = g1 :: g2 :: g3 :: g4 :: cx''
  end.
Proof.
  destruct cx as [|b [|u cx']]; [done| |].
  - cbn. destruct (b =? 34) eqn:Hb; [by apply N.eqb_eq in Hb|].
    destruct (b =? 92); [done|]. by destruct (b <? 32).
  - intros Hs -> ->. rewrite scanstring_eq in Hs. cbn -[scanstring] in Hs.
    destruct cx' as [|g1 [|g2 [|g3 [|g4 cx'']]]]; try done. eauto 6.
Qed.

Lemma scanstring_local (s : text) :
  ∀ str r, scanstring s = Some (str, r) →
  ∃ c, s = c ++ r ∧ solid_end c
       ∧ ∀ r', scanstring (c ++ r') = Some (str, r').
Proof.
  remember (length s) as n eqn:Hn. revert s Hn.
  induction n as [n IH] using lt_wf_ind. intros s -> str r.
  destruct s as [|c0 s]; [done|].
  (* the recursive call is on [x], after the characters [pre] *)
  assert (Hrec : ∀ (pre x : text) ch str',
    s = pre ++ x → scanstring x = Some (str', r) →
    (∀ cx r', x = cx ++ r → scanstring cx = Some (str', []) →
        scanstring (cx ++ r') = Some (str', r') →
        scanstring (c0 :: pre ++ cx ++ r') = Some (ch :: str', r')) →
    ∃ c, c0 :: s = c ++ r ∧ solid_end c
         ∧ ∀ r', scanstring (c ++ r') = Some (ch :: str', r')).
  { intros pre x ch str' -> Hx Hstep.
    destruct (IH (length x)) with (s := x) (str := str') (r := r)
      as (cx & -> & (cx' & z & -> & Hz) & Hloc); [|done|done|].
    { cbn. rewrite length_app. lia. }
    exists (c0 :: pre ++ cx' ++ [z]). split; [regroup|].
    split.
    { exists (c0 :: pre ++ cx'), z. split; [regroup | done]. }
    intros r'.
    replace ((c0 :: pre ++ cx' ++ [z]) ++ r')
      with (c0 :: pre ++ (cx' ++ [z]) ++ r') by regroup.
    apply Hstep; [done | | apply Hloc].
    specialize (Hloc []). by rewrite app_nil_r in Hloc. }
  rewrite scanstring_eq.
  destruct (c0 =? 34) eqn:Hq.
  { intros [= <- <-]. apply N.eqb_eq in Hq as ->. exists [34].
    split; [done|]. split; [by exists [], 34|]. done. }
  destruct (c0 =? 92) eqn:Hb.
  2:{ (* an ordinary character *)
      destruct (c0 <? 32) eqn:Hctl; [done|].
      intros (str' & Hs & ->)%push_inv.
      apply (Hrec [] s c0 str' eq_refl Hs). intros cx r' _ _ Hr'.
      rewrite scanstring_eq. cbn -[scanstring]. by rewrite Hq, Hb, Hctl, Hr'. }
  apply N.eqb_eq in Hb as ->. clear Hq.
  destruct s as [|esc r1]; [done|].
  destruct (esc =? 117) eqn:Hu.
  2:{ (* a one-letter escape *)
      destruct (backslash esc) as [ch|] eqn:Hesc; [|done].
      intros (str' & Hs & ->)%push_inv.
      apply (Hrec [esc] r1 ch str' eq_refl Hs). intros cx r' _ _ Hr'.
      rewrite scanstring_eq. cbn -[scanstring]. by rewrite Hu, Hesc, Hr'. }
  apply N.eqb_eq in Hu as ->.
  destruct r1 as [|h1 [|h2 [|h3 [|h4 r2]]]]; try done.
  destruct (hex4 h1 h2 h3 h4) as [uni|] eqn:Hhex; [|done].
  (* the step after a first escape that is not joined with a second *)
  assert (Hsingle : ∀ str',
    scanstring r2 = Some (str', r) →
    (∀ b u r3, r2 = b :: u :: r3 →
       is_high_surrogate uni && (b =? 92) && (u =? 117) = true →
       ∃ g1 g2 g3 g4 r4 uni2,
         r3 = g1 :: g2 :: g3 :: g4 :: r4
         ∧ hex4 g1 g2 g3 g4 = Some uni2 ∧ is_low_surrogate uni2 = false) →
    ∃ c, 92 :: 117 :: h1 :: h2 :: h3 :: h4 :: r2 = c ++ r ∧ solid_end c
         ∧ ∀ r', scanstring (c ++ r') = Some (uni :: str', r')).
  { intros str' Hs Hpair.
    apply (Hrec [117; h1; h2; h3; h4] r2 uni str' eq_refl Hs).
    intros cx r' Hcx Hwhole Hr'.
    rewrite scanstring_eq. cbn -[scanstring]. rewrite Hhex.
    pose proof (scanstring_whole_head cx _ Hwhole) as Hhead.
    destruct cx as [|b [|u cx']]; [done| |].
    - subst b. cbn -[scanstring]. cbn -[scanstring] in Hr'. rewrite Hr'.
      destruct r' as [|u r3]; [done|]. by rewrite andb_false_r.
    - cbn -[scanstring].
      destruct (is_high_surrogate uni && (b =? 92) && (u =? 117)) eqn:Hc;
        [|cbn -[scanstring] in Hr'; by rewrite Hr'].
      destruct (Hpair b u (cx' ++ r)) as (g1 & g2 & g3 & g4 & r4 & uni2 & Hr3 & Hg & Hlow);
        [by rewrite Hcx | done |].
      apply andb_true_iff in Hc as [[_ ->%N.eqb_eq]%andb_true_iff ->%N.eqb_eq].
      destruct Hhead as (g1' & g2' & g3' & g4' & cx'' & ->); [done..|].
      cbn in Hr3. injection Hr3 as <- <- <- <- _.
      cbn -[scanstring]. rewrite Hg, Hlow.
      cbn -[scanstring] in Hr'. by rewrite Hr'. }
  destruct r2 as [|b [|u r3]].
  - intros (str' & Hs & ->)%push_inv. by apply Hsingle.
  - intros (str' & Hs & ->)%push_inv. by apply Hsingle.
  - destruct (is_high_surrogate uni && (b =? 92) && (u =? 117)) eqn:Hc.
    2:{ intros (str' & Hs & ->)%push_inv. apply Hsingle; [done|].
        intros b' u' r3' [= <- <- <-]. congruence. }
    destruct r3 as [|g1 [|g2 [|g3 [|g4 r4]]]]; try done.
    destruct (hex4 g1 g2 g3 g4) as [uni2|] eqn:Hg; [|done].
    destruct (is_low_surrogate uni2) eqn:Hlow.
    2:{ intros (str' & Hs & ->)%push_inv. apply Hsingle; [done|].
        intros b' u' r3' [= <- <- <-] _. eauto 10. }
    (* the two escapes are joined *)
    intros (str' & Hs & ->)%push_inv.
    apply (Hrec [117; h1; h2; h3; h4; b; u; g1; g2; g3; g4] r4 _ str'
             eq_refl Hs).
    intros cx r' _ _ Hr'. rewrite scanstring_eq. cbn -[scanstring].
    by rewrite Hhex, Hc, Hg, Hlow, Hr'.
Qed.

Lemma stops_nondigit r : stops r → nondigit r.
Proof. destruct r; [done|]. by intros [? _]. Qed.

Lemma delimited_stops r : delimited r → stops r.
Proof.
  destruct r as [|x r]; [done|]. cbn. unfold is_ws, is_digit.
  rewrite !orb_true_iff, !N.eqb_eq.
  intros [[[[->| ->]| ->]| ->]|[->|[->| ->]]]; by repeat split.
Qed.

Lemma is_digit_solid c : is_digit c = true → Str.isspace c = false.
Proof.
  unfold is_digit, Str.isspace. rewrite andb_true_iff, !N.leb_le.
  intros [H1 H2].
  repeat match goal with
  | |- context [?a <=? ?b] => destruct (N.leb_spec a b); try lia
  | |- context [?a =? ?b] => destruct (N.eqb_spec a b); try lia
  end; reflexivity.
Qed.

Lemma span_digits_spec (s : text) ds r :
  span_digits s = (ds, r) →
  s = ds ++ r ∧ Forall (fun c => is_digit c = true) ds
  ∧ ∀ r', nondigit r' → span_digits (ds ++ r') = (ds, r').
Proof.
  revert ds r. induction s as [|c s IH]; intros ds r; cbn.
  - intros [= <- <-]. split_and!; [done|constructor|].
    intros [|x r'] Hr'; [done|]. cbn in *. by rewrite Hr'.
  - destruct (is_digit c) eqn:Hc.
    + destruct (span_digits s) as [ds' r0]. intros [= <- <-].
      destruct (IH ds' r0 eq_refl) as (-> & Hds & Hloc).
      split_and!; [done | by constructor |].
      intros r' Hr'. cbn. by rewrite Hc, (Hloc r' Hr').
    + intros [= <- <-]. split_and!; [done|constructor|].
      intros [|x r'] Hr'; [done|]. cbn in *. by rewrite Hr'.
Qed.

(** A text that ends with a run of digits ends with a character that is
    not whitespace. *)
Lemma digits_solid_end (pre ds : text) :
  ds ≠ [] → Forall (fun c => is_digit c = true) ds → solid_end (pre ++ ds).
Proof.
  intros Hne Hds. destruct (exists_last Hne) as (l & z & ->).
  exists (pre ++ l), z. split; [by rewrite app_assoc|].
  apply is_digit_solid. apply (proj1 (Forall_forall _ _) Hds). set_solver.
Qed.

Lemma match_integer_spec s neg ds r0 :
  match_integer s = Some (neg, ds, r0) →
  s = (if neg then [45] else []) ++ ds ++ r0
  ∧ ds ≠ [] ∧ Forall (fun c => is_digit c = true) ds
  ∧ ∀ r', nondigit r' →
      match_integer ((if neg then [45] else []) ++ ds ++ r')
      = Some (neg, ds, r').
Proof.
  assert (Hdigits : ∀ (b : bool) (s1 : text),
    match s1 with
    | [] => None
    | c :: r =>
        if c =? 48 then Some (b, [c], r)
        else if is_digit c
             then let (ds, rest) := span_digits r in Some (b, c :: ds, rest)
             else None
    end = Some (neg, ds, r0) →
    b = neg ∧ s1 = ds ++ r0 ∧ ds ≠ [] ∧ Forall (fun c => is_digit c = true) ds
    ∧ (∃ d ds', ds = d :: ds' ∧ is_digit d = true)
    ∧ ∀ r', nondigit r' →
        match ds ++ r' with
        | [] => None
        | c :: r =>
            if c =? 48 then Some (b, [c], r)
            else if is_digit c
                 then let (ds, rest) := span_digits r in Some (b, c :: ds, rest)
                 else None
        end = Some (neg, ds, r')).
  { intros b [|c r]; [done|].
    destruct (c =? 48) eqn:H0.
    - intros [= <- <- <-]. apply N.eqb_eq in H0 as ->.
      split_and!; [done..| by repeat constructor | by eauto |].
      intros r' _. done.
    - destruct (is_digit c) eqn:Hc; [|done].
      destruct (span_digits r) as [ds' r1] eqn:Hspan. intros [= <- <- <-].
      apply span_digits_spec in Hspan as (-> & Hds & Hloc).
      split_and!; [done..| by constructor | by eauto |].
      intros r' Hr'. cbn. by rewrite H0, Hc, (Hloc r' Hr'). }
  unfold match_integer. destruct s as [|c s]; [done|].
  destruct (c =? 45) eqn:Hm.
  - apply N.eqb_eq in Hm as ->.
    intros (<- & -> & Hne & Hds & _ & Hloc)%(Hdigits true s).
    split_and!; [done..|]. intros r' Hr'. cbn. by apply Hloc.
  - intros (<- & Hs & Hne & Hds & (d & ds' & -> & Hd) & Hloc)%(Hdigits false (c :: s)).
    split_and!; [done..|]. intros r' Hr'. cbn in *.
    injection Hs as -> _. rewrite Hm. by apply (Hloc r' Hr').
Qed.

Lemma match_frac_spec s frac r1 :
  match_frac s = (frac, r1) →
  s = frac ++ r1
  ∧ (frac = [] ∨ ∃ fd, frac = 46 :: fd ∧ fd ≠ []
                       ∧ Forall (fun c => is_digit c = true) fd)
  ∧ ∀ r', no_fraction r' → match_frac (frac ++ r') = (frac, r').
Proof.
  assert (Hnone : ∀ r', no_fraction r' → match_frac r' = ([], r')).
  { intros [|x r'] Hr'; [done|]. cbn in *. destruct Hr' as [_ Hx].
    by destruct (N.eqb_spec x 46). }
  unfold match_frac at 1. destruct s as [|c r]; [intros [= <- <-]; eauto|].
  destruct (c =? 46) eqn:Hc; [|intros [= <- <-]; eauto].
  apply N.eqb_eq in Hc as ->.
  destruct (span_digits r) as [[|d fd] r0] eqn:Hspan; intros [= <- <-];
    [eauto|].
  apply span_digits_spec in Hspan as (-> & Hds & Hloc).
  split_and!; [done | right; eauto |].
  intros r' Hr'.
  assert (Hnd : nondigit r') by (destruct r'; [done | by destruct Hr']).
  unfold match_frac. cbn [app]. change (d :: fd ++ r') with ((d :: fd) ++ r').
  by rewrite N.eqb_refl, (Hloc r' Hnd).
Qed.

Lemma match_exp_spec s exp r2 :
  match_exp s = (exp, r2) →
  s = exp ++ r2
  ∧ (exp = [] ∨ ∃ e pre ed, exp = e :: pre ++ ed ∧ (e = 101 ∨ e = 69)
                            ∧ ed ≠ []
                            ∧ Forall (fun c => is_digit c = true) ed)
  ∧ ∀ r', stops r' → match_exp (exp ++ r') = (exp, r').
Proof.
  assert (Hnone : ∀ r', stops r' → match_exp r' = ([], r')).
  { intros [|x r'] Hr'; [done|]. cbn in *. destruct Hr' as (_ & _ & H1 & H2).
    by destruct (N.eqb_spec x 101), (N.eqb_spec x 69). }
  unfold match_exp at 1. destruct s as [|e r]; [intros [= <- <-]; eauto|].
  destruct ((e =? 101) || (e =? 69)) eqn:He; [|intros [= <- <-]; eauto].
  assert (Hgen : ∀ (sign r1 : text),
    r = sign ++ r1 →
    (∀ x, match sign ++ x with
          | c :: r' => if (c =? 45) || (c =? 43) then ([c], r') else ([], sign ++ x)
          | [] => ([], sign ++ x)
          end = (sign, x) ∨ ∃ d y, x = d :: y ∧ is_digit d = false) →
    match span_digits r1 with
    | ([], _) => ([], e :: r)
    | (ds, rest) => (e :: sign ++ ds, rest)
    end = (exp, r2) →
    e :: r = exp ++ r2
    ∧ (exp = [] ∨ ∃ e pre ed, exp = e :: pre ++ ed ∧ (e = 101 ∨ e = 69)
                              ∧ ed ≠ []
                              ∧ Forall (fun c => is_digit c = true) ed)
    ∧ ∀ r', stops r' → match_exp (exp ++ r') = (exp, r')).
  { intros sign r1 -> Hsign.
    destruct (span_digits r1) as [[|d ed] r0] eqn:Hspan; intros [= <- <-];
      [eauto|].
    apply span_digits_spec in Hspan as (-> & Hds & Hloc).
    split_and!; [regroup | right; exists e, sign, (d :: ed); split_and!; try done;
                           apply orb_true_iff in He as [?%N.eqb_eq|?%N.eqb_eq];
                           eauto |].
    intros r' Hr'. unfold match_exp.
    replace ((e :: sign ++ d :: ed) ++ r') with (e :: sign ++ (d :: ed) ++ r')
      by regroup.
    rewrite He.
    destruct (Hsign ((d :: ed) ++ r')) as [-> | (d' & y & [= <- _] & Hd')].
    - rewrite (Hloc r' (stops_nondigit _ Hr')). done.
    - apply Forall_cons in Hds as [Hd _]. congruence. }
  destruct r as [|c r']; [by intros [= <- <-]; eauto|].
  destruct ((c =? 45) || (c =? 43)) eqn:Hc.
  - apply (Hgen [c] r' eq_refl). intros x. left. cbn. by rewrite Hc.
  - apply (Hgen [] (c :: r') eq_refl). intros [|d y]; [by left|].
    cbn. destruct ((d =? 45) || (d =? 43)) eqn:Hd; [|by left].
    right. exists d, y. split; [done|]. unfold is_digit.
    apply orb_true_iff in Hd as [->%N.eqb_eq | ->%N.eqb_eq]; reflexivity.
Qed.

Lemma match_number_local s v r :
  match_number s = Some (v, r) →
  ∃ a c, s = (a :: c) ++ r ∧ (a = 45 ∨ is_digit a = true)
         ∧ solid_end (a :: c)
         ∧ ∀ r', stops r' → match_number ((a :: c) ++ r') = Some (v, r').
Proof.
  unfold match_number at 1.
  destruct (match_integer s) as [[[neg ds] r0]|] eqn:Hi; [|done].
  apply match_integer_spec in Hi as (-> & Hne & Hds & Hi).
  destruct (match_frac r0) as [frac r1] eqn:Hf.
  apply match_frac_spec in Hf as (-> & Hfrac & Hf).
  destruct (match_exp r1) as [exp r2] eqn:He.
  apply match_exp_spec in He as (-> & Hexp & He).
  intros Hv.
  set (sign := if neg then [45] else []) in *.
  assert (r2 = r) as -> by (destruct frac, exp; by simplify_eq).
  assert (Hc : ∃ a c, sign ++ ds ++ frac ++ exp = a :: c
                      ∧ (a = 45 ∨ is_digit a = true)).
  { destruct ds as [|d ds]; [done|]. apply Forall_cons in Hds as [Hd _].
    unfold sign. destruct neg; cbn; eauto 6. }
  destruct Hc as (a & c & Hc & Ha). exists a, c. rewrite <- Hc.
  split_and!; [regroup | done | |].
  - destruct Hexp as [-> | (e & pre & ed & -> & _ & Hed & Hdig)].
    + rewrite app_nil_r.
      destruct Hfrac as [-> | (fd & -> & Hfd & Hdig)].
      * rewrite app_nil_r. by apply digits_solid_end.
      * replace (sign ++ ds ++ 46 :: fd) with ((sign ++ ds ++ [46]) ++ fd)
          by regroup.
        by apply digits_solid_end.
    + replace (sign ++ ds ++ frac ++ e :: pre ++ ed)
        with ((sign ++ ds ++ frac ++ e :: pre) ++ ed) by regroup.
      by apply digits_solid_end.
  - intros r' Hr'. unfold match_number.
    replace ((sign ++ ds ++ frac ++ exp) ++ r')
      with (sign ++ ds ++ (frac ++ exp ++ r')) by regroup.
    assert (Hx : no_fraction (exp ++ r')).
    { destruct Hexp as [-> | (e & pre & ed & -> & He' & _)].
      - destruct r' as [|x r']; [done|]. cbn in *. tauto.
      - cbn. destruct He' as [-> | ->]; by split. }
    assert (Hn : nondigit (frac ++ exp ++ r')).
    { destruct Hfrac as [-> | (fd & -> & _)]; [|done].
      destruct (exp ++ r'); [done|]. by destruct Hx. }
    rewrite (Hi _ Hn), (Hf _ Hx), (He _ Hr'). fold sign.
    destruct frac, exp; by simplify_eq.
Qed.

Lemma T_length (w : string) : length (T w) = String.length w.
Proof.
  unfold T. rewrite length_map. induction w; cbn; [done | by f_equal].
Qed.

Lemma literal_spec word v s v' r :
  literal word v s = Some (v', r) → v' = v ∧ s = T word ++ r.
Proof.
  unfold literal. destruct (Str.startswith (T word) s) eqn:Hs; [|done].
  intros [= <- <-]. split; [done|].
  apply startswith_spec in Hs as [x ->].
  by rewrite <- T_length, drop_app_length.
Qed.

Lemma literal_app word v r' : literal word v (T word ++ r') = Some (v, r').
Proof.
  unfold literal. by rewrite startswith_app, <- T_length, drop_app_length.
Qed.

(** A literal is refused on a text that starts with another character. *)
Lemma literal_other_head word v a x :
  match T word with h :: _ => a ≠ h | [] => False end →
  literal word v (a :: x) = None.
Proof.
  unfold literal. destruct (T word) as [|h w]; [done|]. cbn. intros Ha.
  by destruct (N.eqb_spec h a); [subst|].
Qed.

Lemma number_head_solid a :
  a = 45 ∨ is_digit a = true →
  Str.isspace a = false ∧ a ≠ 34 ∧ a ≠ 123 ∧ a ≠ 91
  ∧ a ≠ 110 ∧ a ≠ 116 ∧ a ≠ 102.
Proof.
  intros [-> | Ha]; [by split_and! |].
  split; [by apply is_digit_solid|].
  unfold is_digit in Ha. apply andb_true_iff in Ha as [H1%N.leb_le H2%N.leb_le].
  split_and!; lia.
Qed.

Lemma literal_other_word w v w' x :
  match T w, T w' with h :: _, h' :: _ => h' ≠ h | _, _ => False end →
  literal w v (T w' ++ x) = None.
Proof.
  destruct (T w') as [|h' t'] eqn:Hw'; [by destruct (T w)|].
  intros Hh. cbn [app]. apply literal_other_head. by destruct (T w).
Qed.

Lemma match_number_other_head a x :
  a ≠ 45 → is_digit a = false → match_number (a :: x) = None.
Proof.
  intros Ha Hd. unfold match_number, match_integer.
  destruct (N.eqb_spec a 45); [done|].
  destruct (N.eqb_spec a 48) as [->|]; [done|]. by rewrite Hd.
Qed.

Lemma match_number_minus_letter b x :
  is_digit b = false → match_number (45 :: b :: x) = None.
Proof.
  intros Hd. unfold match_number, match_integer. cbn.
  destruct (N.eqb_spec b 48) as [->|]; [done|]. by rewrite Hd.
Qed.

(** The text of a literal, split to show its first and its last
    character. *)
Local Ltac literal_case H word first middle last :=
  apply literal_spec in H as [-> ->];
  exists first, (T middle ++ [last]);
  split_and!; [done | done | done | done | done
              | by exists (first :: T middle), last |];
  intros r' _; unfold scan_scalar;
  change ((first :: T middle ++ [last]) ++ r') with (T word ++ r');
  rewrite literal_app;
  rewrite ?literal_other_word by (by vm_compute).

Lemma scan_scalar_local s v r :
  scan_scalar s = Some (v, r) →
  ∃ a c, s = (a :: c) ++ r
         ∧ Str.isspace a = false ∧ a ≠ 34 ∧ a ≠ 123 ∧ a ≠ 91
         ∧ solid_end (a :: c)
         ∧ ∀ r', stops r' → scan_scalar ((a :: c) ++ r') = Some (v, r').
Proof.
  unfold scan_scalar at 1.
  destruct (literal "null" JNull s) as [[v0 r0]|] eqn:H1.
  { intros [= <- <-]. literal_case H1 "null"%string 110 "ul"%string 108. done. }
  destruct (literal "true" (JBool true) s) as [[v0 r0]|] eqn:H2.
  { intros [= <- <-]. literal_case H2 "true"%string 116 "ru"%string 101. done. }
  destruct (literal "false" (JBool false) s) as [[v0 r0]|] eqn:H3.
  { intros [= <- <-]. literal_case H3 "false"%string 102 "als"%string 101.
    done. }
  destruct (match_number s) as [[v0 r0]|] eqn:H4.
  { intros [= <- <-].
    apply match_number_local in H4 as (a & c & -> & Ha & Hend & Hloc).
    destruct (number_head_solid a Ha) as (? & ? & ? & ? & ? & ? & ?).
    exists a, c. split_and!; try done.
    intros r' Hr'. unfold scan_scalar. cbn [app].
    rewrite (literal_other_head "null"), (literal_other_head "true"),
      (literal_other_head "false") by done.
    change (a :: c ++ r') with ((a :: c) ++ r'). by rewrite (Hloc r' Hr'). }
  destruct (literal "NaN" (JFloat (T "NaN")) s) as [[v0 r0]|] eqn:H5.
  { intros [= <- <-]. literal_case H5 "NaN"%string 78 "a"%string 78.
    change (T "NaN" ++ r') with (78 :: T "aN" ++ r').
    by rewrite match_number_other_head. }
  destruct (literal "Infinity" (JFloat (T "Infinity")) s) as [[v0 r0]|] eqn:H6.
  { intros [= <- <-]. literal_case H6 "Infinity"%string 73 "nfinit"%string 121.
    change (T "Infinity" ++ r') with (73 :: T "nfinity" ++ r').
    by rewrite match_number_other_head. }
  intros H7. literal_case H7 "-Infinity"%string 45 "Infinit"%string 121.
  change (T "-Infinity" ++ r') with (45 :: 73 :: T "nfinity" ++ r').
  by rewrite match_number_minus_letter.
Qed.

(** *** Values *)

Lemma skip_ws_cons_inv (r : text) c r1 :
  skip_ws r = c :: r1 → ∃ w, r = w ++ c :: r1 ∧ blank w ∧ is_ws c = false.
Proof.
  intros Hr. destruct (skip_ws_split r) as (w & Hw & Hb). rewrite Hr in Hw.
  exists w. split_and!; [done..|]. by eapply skip_ws_head.
Qed.

Lemma skip_ws_blank_cons (w : text) c x :
  blank w → is_ws c = false → skip_ws (w ++ c :: x) = c :: x.
Proof. intros Hw Hc. by apply skip_ws_blank_app. Qed.

Lemma skip_ws_blank_solid (w c x : text) :
  blank w → solid_start c → skip_ws (w ++ c ++ x) = c ++ x.
Proof. intros Hw Hc. apply skip_ws_blank_app; [done|]. by apply solid_start_not_ws. Qed.

Lemma solid_end_app (l pre c : text) :
  l = pre ++ c → solid_end c → solid_end l.
Proof.
  intros -> (c' & z & -> & Hz). exists (pre ++ c'), z.
  split; [by rewrite app_assoc | done].
Qed.

Lemma solid_end_snoc (l pre : text) z :
  l = pre ++ [z] → Str.isspace z = false → solid_end l.
Proof. intros -> Hz. by exists pre, z. Qed.

Lemma delimited_blank_cons (w : text) c x :
  blank w → c = 44 ∨ c = 93 ∨ c = 125 → delimited (w ++ c :: x).
Proof. intros [|a w' Ha _] Hc; cbn; [by right | by left]. Qed.

Local Ltac right_nested :=
  repeat (rewrite <- app_assoc || rewrite <- app_comm_cons); cbn [app].

Lemma scan_local (fuel : nat) :
  (∀ s v r, scan_once fuel s = Scanned v r →
     ∃ c, s = c ++ r ∧ solid_start c ∧ solid_end c
          ∧ ∀ r', delimited r' → scan_once fuel (c ++ r') = Scanned v r')
  ∧ (∀ pairs s v r, JSONObject fuel pairs s = Scanned v r →
     ∃ c, s = c ++ r ∧ solid_end c
          ∧ ∀ r', JSONObject fuel pairs (c ++ r') = Scanned v r')
  ∧ (∀ values s v r, JSONArray fuel values s = Scanned v r →
     ∃ c, s = c ++ r ∧ solid_start c ∧ solid_end c
          ∧ ∀ r', JSONArray fuel values (c ++ r') = Scanned v r').
Proof.
  induction fuel as [|f (IHs & IHo & IHa)]; [done|].
  split_and!.
  - intros s v r. destruct s as [|c0 s]; [done|]. cbn [scan_once].
    destruct (c0 =? 34) eqn:Hq.
    { apply N.eqb_eq in Hq as ->.
      destruct (scanstring s) as [[str r0]|] eqn:Hs; [|done].
      intros [= <- <-].
      apply scanstring_local in Hs as (cs & -> & Hend & Hloc).
      exists (34 :: cs). split_and!; [done | done | |].
      - by apply (solid_end_app _ [34] cs).
      - intros r' _. cbn [app scan_once]. by rewrite N.eqb_refl, Hloc. }
    destruct (c0 =? 123) eqn:Ho.
    { apply N.eqb_eq in Ho as ->.
      destruct (skip_ws s) as [|c1 r1] eqn:Hw; [done|].
      apply skip_ws_cons_inv in Hw as (w & -> & Hw & Hc1).
      destruct (c1 =? 125) eqn:Hclose.
      { apply N.eqb_eq in Hclose as ->. intros [= <- <-].
        exists (123 :: w ++ [125]). split_and!; [by right_nested | done | |].
        - by apply (solid_end_snoc _ (123 :: w) 125).
        - intros r' _. right_nested. cbn [scan_once].
          by rewrite (skip_ws_blank_cons w 125 r' Hw). }
      destruct (c1 =? 34) eqn:Hkey; [|done].
      apply N.eqb_eq in Hkey as ->. intros Hobj.
      apply IHo in Hobj as (co & -> & Hend & Hloc).
      exists (123 :: w ++ 34 :: co). split_and!; [by right_nested | done | |].
      - apply (solid_end_app _ (123 :: w ++ [34]) co); [by right_nested|done].
      - intros r' _. right_nested. cbn [scan_once].
        rewrite (skip_ws_blank_cons w 34 _ Hw) by done. by rewrite Hloc. }
    destruct (c0 =? 91) eqn:Ha.
    { apply N.eqb_eq in Ha as ->.
      destruct (skip_ws s) as [|c1 r1] eqn:Hw; [done|].
      apply skip_ws_cons_inv in Hw as (w & -> & Hw & Hc1).
      destruct (c1 =? 93) eqn:Hclose.
      { apply N.eqb_eq in Hclose as ->. intros [= <- <-].
        exists (91 :: w ++ [93]). split_and!; [by right_nested | done | |].
        - by apply (solid_end_snoc _ (91 :: w) 93).
        - intros r' _. right_nested. cbn [scan_once].
          by rewrite (skip_ws_blank_cons w 93 r' Hw). }
      intros Harr. apply IHa in Harr as (ca & Hca & Hstart & Hend & Hloc).
      destruct ca as [|c1' ca]; [done|]. injection Hca as <- ->.
      exists (91 :: w ++ c1 :: ca). split_and!; [by right_nested | done | |].
      - by apply (solid_end_app _ (91 :: w) (c1 :: ca)).
      - intros r' _. right_nested. cbn [scan_once].
        rewrite (skip_ws_blank_cons w c1 _ Hw Hc1), Hclose. apply Hloc. }
    destruct (scan_scalar (c0 :: s)) as [[v0 r0]|] eqn:Hsc; [|done].
    intros [= <- <-].
    apply scan_scalar_local in Hsc
      as (a & c & Heq & Hsp & _ & _ & _ & Hend & Hloc).
    injection Heq as <- ->.
    exists (c0 :: c). split_and!; [done..|].
    intros r' Hr'. cbn [app scan_once]. rewrite Hq, Ho, Ha.
    change (c0 :: c ++ r') with ((c0 :: c) ++ r').
    by rewrite (Hloc r' (delimited_stops _ Hr')).
  - intros pairs s v r. cbn [JSONObject].
    destruct (scanstring s) as [[key r0]|] eqn:Hk; [|done].
    apply scanstring_local in Hk as (ck & -> & _ & Hk).
    destruct (skip_ws r0) as [|c r1] eqn:Hw0; [done|].
    apply skip_ws_cons_inv in Hw0 as (w0 & -> & Hw0 & _).
    destruct (c =? 58) eqn:Hcolon; [|done]. apply N.eqb_eq in Hcolon as ->.
    destruct (scan_once f (skip_ws r1)) as [value r2| |] eqn:Hv; [|done..].
    destruct (skip_ws_split r1) as (w1 & Hr1 & Hw1).
    apply IHs in Hv as (cv & Hcv & Hstart & _ & Hv).
    rewrite Hcv in Hr1. subst r1. clear Hcv.
    destruct (skip_ws r2) as [|c2 r3] eqn:Hw2; [done|].
    apply skip_ws_cons_inv in Hw2 as (w2 & -> & Hw2 & Hc2).
    destruct (c2 =? 125) eqn:Hclose.
    { apply N.eqb_eq in Hclose as ->. intros [= <- <-].
      exists (ck ++ w0 ++ 58 :: w1 ++ cv ++ w2 ++ [125]).
      split_and!; [by right_nested | |].
      - apply (solid_end_snoc _ (ck ++ w0 ++ 58 :: w1 ++ cv ++ w2) 125);
          [by right_nested | done].
      - intros r'. right_nested. cbn [JSONObject].
        rewrite Hk, (skip_ws_blank_cons w0 58 _ Hw0) by done.
        rewrite N.eqb_refl, (skip_ws_blank_solid w1 cv _ Hw1 Hstart).
        rewrite Hv by (apply delimited_blank_cons; auto).
        by rewrite (skip_ws_blank_cons w2 125 _ Hw2). }
    destruct (c2 =? 44) eqn:Hcomma; [|done]. apply N.eqb_eq in Hcomma as ->.
    destruct (skip_ws r3) as [|c3 r4] eqn:Hw3; [done|].
    apply skip_ws_cons_inv in Hw3 as (w3 & -> & Hw3 & _).
    destruct (c3 =? 34) eqn:Hquote; [|done]. apply N.eqb_eq in Hquote as ->.
    intros Hobj. apply IHo in Hobj as (co & -> & Hend & Hloc).
    exists (ck ++ w0 ++ 58 :: w1 ++ cv ++ w2 ++ 44 :: w3 ++ 34 :: co).
    split_and!; [by right_nested | |].
    + apply (solid_end_app _
               (ck ++ w0 ++ 58 :: w1 ++ cv ++ w2 ++ 44 :: w3 ++ [34]) co);
        [by right_nested | done].
    + intros r'. right_nested. cbn [JSONObject].
      rewrite Hk, (skip_ws_blank_cons w0 58 _ Hw0) by done.
      rewrite N.eqb_refl, (skip_ws_blank_solid w1 cv _ Hw1 Hstart).
      rewrite Hv by (apply delimited_blank_cons; auto).
      rewrite (skip_ws_blank_cons w2 44 _ Hw2) by done.
      change (44 =? 125) with false. rewrite N.eqb_refl.
      rewrite (skip_ws_blank_cons w3 34 _ Hw3) by done.
      by rewrite N.eqb_refl, Hloc.
  - intros values s v r. cbn [JSONArray].
    destruct (scan_once f s) as [value r0| |] eqn:Hv; [|done..].
    apply IHs in Hv as (cv & -> & Hstart & _ & Hv).
    destruct (skip_ws r0) as [|c r1] eqn:Hw; [done|].
    apply skip_ws_cons_inv in Hw as (w & -> & Hw & Hc).
    destruct (c =? 93) eqn:Hclose.
    { apply N.eqb_eq in Hclose as ->. intros [= <- <-].
      exists (cv ++ w ++ [93]). split_and!; [by right_nested | | |].
      - by destruct cv.
      - apply (solid_end_snoc _ (cv ++ w) 93); [by right_nested | done].
      - intros r'. right_nested. cbn [JSONArray].
        rewrite Hv by (apply delimited_blank_cons; auto).
        by rewrite (skip_ws_blank_cons w 93 _ Hw). }
    destruct (c =? 44) eqn:Hcomma; [|done]. apply N.eqb_eq in Hcomma as ->.
    destruct (skip_ws_split r1) as (w1 & Hr1 & Hw1).
    intros Harr. apply IHa in Harr as (ca & Hca & Hstart' & Hend & Hloc).
    rewrite Hca in Hr1. subst r1. clear Hca.
    exists (cv ++ w ++ 44 :: w1 ++ ca). split_and!; [by right_nested | | |].
    + by destruct cv.
    + apply (solid_end_app _ (cv ++ w ++ 44 :: w1) ca);
        [by right_nested | done].
    + intros r'. right_nested. cbn [JSONArray].
      rewrite Hv by (apply delimited_blank_cons; auto).
      rewrite (skip_ws_blank_cons w 44 _ Hw) by done.
      change (44 =? 93) with false. rewrite N.eqb_refl.
      by rewrite (skip_ws_blank_solid w1 ca _ Hw1 Hstart'), Hloc.
Qed.

(** *** Whitespace around a document *)

Lemma blank_isspace (w : text) :
  blank w → Forall (fun c => Str.isspace c = true) w.
Proof.
  intros Hw. eapply Forall_impl; [exact Hw|]. intros c. apply is_ws_isspace.
Qed.

Lemma lstrip_spaces_cons (w : text) a x :
  Forall (fun c => Str.isspace c = true) w → Str.isspace a = false →
  Str.lstrip (w ++ a :: x) = a :: x.
Proof.
  intros Hw Ha. induction Hw as [|b w Hb _ IH]; cbn; [by rewrite Ha|].
  by rewrite Hb.
Qed.

Lemma lstrip_spaces_solid (w c x : text) :
  Forall (fun c => Str.isspace c = true) w → solid_start c →
  Str.lstrip (w ++ c ++ x) = c ++ x.
Proof.
  intros Hw Hc. destruct c as [|a c]; [done|]. by apply lstrip_spaces_cons.
Qed.

Lemma rstrip_solid_spaces (c x : text) :
  solid_end c → Forall (fun c => Str.isspace c = true) x →
  Str.rstrip (c ++ x) = c.
Proof.
  intros (c' & z & -> & Hz) Hx. unfold Str.rstrip.
  rewrite !rev_app_distr. cbn [rev app].
  rewrite lstrip_spaces_cons; [|by apply Forall_rev|done].
  cbn. by rewrite rev_involutive.
Qed.

Lemma skip_ws_nil_blank (r : text) : skip_ws r = [] → blank r.
Proof.
  intros Hr. destruct (skip_ws_split r) as (w & Hw & Hb).
  rewrite Hr, app_nil_r in Hw. by subst.
Qed.

Lemma scan_once_bom (fuel : nat) (x : text) v r :
  scan_once fuel (65279 :: x) ≠ Scanned v r.
Proof.
  destruct fuel as [|f]; [done|]. cbn [scan_once].
  change (65279 =? 34) with false. change (65279 =? 123) with false.
  change (65279 =? 91) with false. cbv iota.
  unfold scan_scalar.
  rewrite !literal_other_head by (by vm_compute).
  by rewrite match_number_other_head.
Qed.

(** A document that [json.loads] reads is read to the same value after
    [strip()]: the whitespace [strip()] takes off lies outside the
    value. *)
Lemma loads_strip (t : text) v :
  loads t = Some v → loads (Str.strip t) = Some v.
Proof.
  unfold loads at 1. destruct (Str.startswith [65279] t) eqn:Hbom; [done|].
  unfold decode.
  destruct (scan_once (enough t) (skip_ws t)) as [v0 rest| |] eqn:Hs;
    [|done..].
  destruct (skip_ws rest) as [|? ?] eqn:Hrest; [|done]. intros [= ->].
  apply (proj1 (scan_local _)) in Hs as (c & Hc & Hstart & Hend & Hloc).
  destruct (skip_ws_split t) as (w & Ht & Hw). rewrite Hc in Ht.
  apply skip_ws_nil_blank in Hrest.
  assert (Hstrip : Str.strip t = c).
  { unfold Str.strip. rewrite Ht.
    rewrite (lstrip_spaces_solid w c rest (blank_isspace _ Hw) Hstart).
    by apply rstrip_solid_spaces, blank_isspace. }
  rewrite Hstrip. specialize (Hloc [] I). rewrite app_nil_r in Hloc.
  assert (Hlen : (length c ≤ length t)%nat).
  { rewrite Ht, !length_app. lia. }
  assert (Hfed : scan_once (enough c) c ≠ Starved).
  { apply (proj1 (scan_fed _)). unfold enough. lia. }
  assert (Hsame : scan_once (enough c) c = Scanned v []).
  { rewrite <- Hloc. symmetry. apply scan_once_fuel; [unfold enough; lia|done]. }
  unfold loads, decode.
  destruct c as [|a c]; [done|].
  assert (Hskip : skip_ws (a :: c) = a :: c).
  { cbn in *. destruct (is_ws a) eqn:Ha; [|done].
    apply is_ws_isspace in Ha. congruence. }
  rewrite Hskip, Hsame.
  destruct (N.eqb_spec 65279 a) as [<-|Ha].
  - by apply scan_once_bom in Hloc.
  - cbn [Str.startswith]. by destruct (N.eqb_spec 65279 a).
Qed.

End Decoder.

(** ** The random generator *)

Lemma randbelow_lt n g : (0 < n)%nat → (fst (randbelow n g) < n)%nat.
Proof. intros Hn. simpl. apply Nat.mod_upper_bound. lia. Qed.

(** The selection loop returns [k] elements of the pool whenever the
    pool holds the [n] elements it indexes. *)
Lemma sample_loop_returns {A} (k i n : nat) (pool : list A) (g : rng) :
  (i + k ≤ n)%nat → (n ≤ length pool)%nat →
  ∃ l g', sample_loop k i n pool g = Return (l, g')
          ∧ length l = k ∧ l ⊆ pool.
Proof.
  revert i pool g. induction k as [|k IH]; intros i pool g Hk Hn.
  - exists [], g. split_and!; [done..|]. intros x Hx. by apply elem_of_nil in Hx.
  - cbn [sample_loop].
    destruct (randbelow (n - i) g) as [j g1] eqn:Hr.
    assert (Hj : (j < n - i)%nat).
    { change j with (fst (j, g1)). rewrite <- Hr. apply randbelow_lt. lia. }
    destruct (lookup_lt_is_Some_2 pool j) as [x Hx]; [lia|].
    destruct (lookup_lt_is_Some_2 pool (n - i - 1)) as [y Hy]; [lia|].
    rewrite Hx, Hy.
    destruct (IH (S i) (<[j:=y]> pool) g1) as (l & g' & Hl & Hlen & Hsub);
      [lia | rewrite length_insert; lia |].
    rewrite Hl. exists (x :: l), g'. cbn. repeat split; [by rewrite Hlen|].
    intros z Hz. apply elem_of_cons in Hz as [->|Hz].
    + by eapply list_elem_of_lookup_2.
    + apply Hsub in Hz. apply list_elem_of_lookup in Hz as [m Hm].
      apply list_lookup_insert_Some in Hm as [(_ & -> & _)|[_ Hm]].
      * by eapply list_elem_of_lookup_2.
      * by eapply list_elem_of_lookup_2.
Qed.

Lemma sample_returns {A} (population : list A) (k : nat) (g : rng) :
  (k ≤ length population)%nat →
  ∃ l g', sample population k g = Return (l, g')
          ∧ length l = k ∧ l ⊆ population.
Proof.
  intros Hk. unfold sample.
  destruct (Nat.leb_spec k (length population)); [|lia].
  apply sample_loop_returns; lia.
Qed.

(** ** [dict.fromkeys] *)

Lemma fromkeys_fold (l d : list text) :
  NoDup d →
  let r := fold_left
             (fun d x => if bool_decide (x ∈ d) then d else d ++ [x]) l d in
  NoDup r ∧ (∀ x, x ∈ r ↔ x ∈ d ∨ x ∈ l).
Proof.
  revert d. induction l as [|a l IH]; intros d Hd; cbn.
  - split; [done|]. intros x. rewrite elem_of_nil. tauto.
  - case_bool_decide as Ha.
    + destruct (IH d Hd) as [Hnd Hiff]. split; [done|].
      intros x. rewrite Hiff, elem_of_cons.
      split; [tauto|]. intros [?|[->|?]]; tauto.
    + destruct (IH (d ++ [a])) as [Hnd Hiff].
      { apply NoDup_app. repeat split; [done| |apply NoDup_singleton].
        intros x Hx Hx'. apply list_elem_of_singleton in Hx'. by subst. }
      split; [done|]. intros x.
      rewrite Hiff, elem_of_app, list_elem_of_singleton, elem_of_cons. tauto.
Qed.

Lemma fromkeys_NoDup l : NoDup (fromkeys l).
Proof. apply (fromkeys_fold l []). constructor. Qed.

Lemma elem_of_fromkeys l x : x ∈ fromkeys l ↔ x ∈ l.
Proof.
  unfold fromkeys. destruct (fromkeys_fold l [] (NoDup_nil_2)) as [_ ->].
  rewrite elem_of_nil. tauto.
Qed.

Lemma fromkeys_nonempty l : l ≠ [] → fromkeys l ≠ [].
Proof.
  destruct l as [|a l]; [done|]. intros _ Hnil.
  assert (Ha : a ∈ fromkeys (a :: l)) by (apply elem_of_fromkeys; left).
  rewrite Hnil in Ha. by apply elem_of_nil in Ha.
Qed.

(** The list one field of the suggestion set is cut from. *)
Lemma capped_fromkeys l available :
  l ≠ [] → l ⊆ available →
  take 5 (fromkeys l) ≠ [] ∧ take 5 (fromkeys l) ⊆ available
  ∧ NoDup (take 5 (fromkeys l)) ∧ (length (take 5 (fromkeys l)) ≤ 5)%nat.
Proof.
  intros Hne Hsub. repeat split.
  - apply fromkeys_nonempty in Hne. by destruct (fromkeys l).
  - intros x Hx. apply Hsub, elem_of_fromkeys. by eapply subseteq_take.
  - eapply sublist_NoDup; [apply fromkeys_NoDup | apply sublist_take].
  - rewrite length_take. lia.
Qed.

(** ** Fallback suggestion engine *)

Section FallbackProperties.
Context `{Builtins}.

Lemma keyword_matches_subseteq keyword available :
  keyword_matches keyword available ⊆ available.
Proof.
  intros x Hx. unfold keyword_matches in Hx.
  apply list_elem_of_In, filter_In in Hx as [Hx _]. by apply list_elem_of_In.
Qed.

Lemma collect_matches_subseteq keywords available :
  collect_matches keywords available ⊆ available.
Proof.
  unfold collect_matches.
  assert (Hgen : ∀ acc, acc ⊆ available →
    fold_left
      (fun suggested keyword =>
         match keyword_matches keyword available with
         | [] => suggested
         | matches => suggested ++ take 2 matches
         end) keywords acc ⊆ available).
  { induction keywords as [|kw kws IH]; intros acc Hacc; cbn; [done|].
    apply IH.
    pose proof (keyword_matches_subseteq kw available) as Hkw.
    destruct (keyword_matches kw available) as [|m ms] eqn:Hm; [done|].
    intros x Hx. apply elem_of_app in Hx as [Hx|Hx]; [by apply Hacc|].
    apply Hkw. exact (subseteq_take 2 (m :: ms) x Hx). }
  apply Hgen. set_solver.
Qed.

(** The random selection steps in exactly when no keyword matched, and
    it leaves a non-empty list of catalog names. *)
Lemma or_random_returns suggested available g :
  available ≠ [] → suggested ⊆ available →
  ∃ l g', or_random suggested available g = Return (l, g')
          ∧ l ≠ [] ∧ l ⊆ available.
Proof.
  intros Hav Hsub. unfold or_random.
  destruct suggested as [|s ss].
  - destruct available as [|a av]; [done|].
    destruct (sample_returns (a :: av) (Nat.min 3 (length (a :: av))) g)
      as (l & g' & -> & Hlen & Hl); [lia|].
    exists l, g'. repeat split; [|done].
    intros ->. cbn in Hlen. lia.
  - exists (s :: ss), g. by destruct available.
Qed.

End FallbackProperties.

(** C3. For every request text and every pair of non-empty catalog name
    lists, [create_fallback_suggestions] returns a suggestion set (it does
    not raise, and it takes no backend: the generative backend is not
    among its arguments) whose [food_items] and [products] are each
    non-empty, hold only names of the corresponding catalog list, hold no
    name twice and hold at most five names. *)
Theorem create_fallback_suggestions_sound `{Builtins}
  (user_query : text) (available_food_items available_products : list text)
  (g : rng) :
  available_food_items ≠ [] → available_products ≠ [] →
  ∃ s g',
    create_fallback_suggestions user_query available_food_items
      available_products g = Return (s, g')
    ∧ food_items s ≠ [] ∧ products s ≠ []
    ∧ food_items s ⊆ available_food_items
    ∧ products s ⊆ available_products
    ∧ NoDup (food_items s) ∧ NoDup (products s)
    ∧ (length (food_items s) ≤ 5)%nat ∧ (length (products s) ≤ 5)%nat.
Proof.
  intros Hf Hp. unfold create_fallback_suggestions.
  destruct (event_keywords (str_lower user_query)) as [fk pk].
  destruct (or_random_returns (collect_matches fk available_food_items)
              available_food_items g Hf (collect_matches_subseteq _ _))
    as (lf & g1 & -> & Hlf & Hsf).
  cbn.
  destruct (or_random_returns (collect_matches pk available_products)
              available_products g1 Hp (collect_matches_subseteq _ _))
    as (lp & g2 & -> & Hlp & Hsp).
  cbn. eexists _, _. split; [reflexivity|]. cbn.
  destruct (capped_fromkeys lf available_food_items Hlf Hsf) as (?&?&?&?).
  destruct (capped_fromkeys lp available_products Hlp Hsp) as (?&?&?&?).
  repeat split; assumption.
Qed.

Lemma create_fallback_suggestions_sound_witness :
  let foods := [T "Chocolate Cake"; T "Veggie Pizza"] in
  let prods := [T "Party Poppers"; T "LED String Lights"] in
  let g : rng := fun _ => O in
  foods ≠ [] ∧ prods ≠ []
  ∧ ∃ s g',
      create_fallback_suggestions (H := Runtime.builtins)
        (T "birthday party for 10 kids") foods prods g = Return (s, g')
      ∧ food_items s ≠ [] ∧ products s ≠ []
      ∧ food_items s ⊆ foods ∧ products s ⊆ prods
      ∧ NoDup (food_items s) ∧ NoDup (products s)
      ∧ (length (food_items s) ≤ 5)%nat ∧ (length (products s) ≤ 5)%nat.
Proof.
  intros foods prods g.
  assert (Hf : foods ≠ []) by discriminate.
  assert (Hp : prods ≠ []) by discriminate.
  split; [exact Hf|]. split; [exact Hp|].
  exact (create_fallback_suggestions_sound (H := Runtime.builtins)
           (T "birthday party for 10 kids") foods prods g Hf Hp).
Defined.

(** The scenario of the specification: a birthday request against a
    catalog of four names. *)
Example fallback_birthday :
  create_fallback_suggestions (H := Runtime.builtins)
    (T "birthday party for 10 kids")
    [T "Chocolate Cake"; T "Veggie Pizza"]
    [T "Party Poppers"; T "LED String Lights"] (fun _ => O)
  = Return ({| food_items := [T "Chocolate Cake"; T "Veggie Pizza"];
               products := [T "LED String Lights"; T "Party Poppers"] |},
            fun _ => O).
Proof. vm_compute. reflexivity. Qed.


(** ** Structured-output extraction *)

Section Extraction.
Import Str.

Local Ltac regroup_fence := change fence with [96; 96; 96]; regroup.

Lemma strip_fenced (opening t : text) :
  opening = fence_json ∨ opening = fence →
  strip (fenced opening t) = fenced opening t.
Proof.
  intros Ho. unfold fenced, strip.
  assert (Hl : lstrip (opening ++ 10 :: t ++ 10 :: fence)
               = opening ++ 10 :: t ++ 10 :: fence)
    by (by destruct Ho as [-> | ->]).
  rewrite Hl.
  replace (opening ++ 10 :: t ++ 10 :: fence)
    with ((opening ++ 10 :: t ++ [10; 96; 96]) ++ [96]) by regroup_fence.
  by apply rstrip_snoc_nonspace.
Qed.

(** A text without fence is left alone by both clean-ups. *)
Lemma clean_suggested_plain (s : text) :
  contains fence s = false → clean_suggested s = s.
Proof.
  intros Hc. unfold clean_suggested.
  pose proof (not_contains_startswith _ _ Hc) as Hf.
  destruct (startswith fence_json s) eqn:Hj.
  - apply startswith_fence_json_fence in Hj. congruence.
  - by rewrite Hf.
Qed.

Lemma clean_selected_plain (s : text) :
  contains fence s = false → clean_selected s = s.
Proof.
  intros Hc. unfold clean_selected.
  pose proof (not_contains_startswith _ _ Hc) as Hf.
  destruct (startswith fence_json s) eqn:Hj.
  - apply startswith_fence_json_fence in Hj. congruence.
  - by rewrite Hf, (not_contains_endswith _ _ Hc).
Qed.

(** Both clean-ups take a fenced text without inner fence back to the
    stripped text. *)
Lemma clean_suggested_fenced (opening t : text) :
  contains fence t = false →
  opening = fence_json ∨ opening = fence →
  clean_suggested (fenced opening t) = strip t.
Proof.
  intros Hc [-> | ->]; unfold clean_suggested, fenced.
  - rewrite startswith_app.
    change (replace fence_json [] (fence_json ++ 10 :: t ++ 10 :: fence))
      with (10 :: replace_from fence_json [] O (t ++ 10 :: fence)).
    rewrite (replace_fence_json_tail t Hc).
    change (replace fence [] (10 :: t ++ 10 :: fence))
      with (10 :: replace_from fence [] O (t ++ 10 :: fence)).
    rewrite (replace_fence_tail t Hc).
    rewrite strip_cons_space by done. by apply strip_snoc_space.
  - change (startswith fence_json (fence ++ 10 :: t ++ 10 :: fence)) with false.
    rewrite startswith_app.
    change (replace fence [] (fence ++ 10 :: t ++ 10 :: fence))
      with (10 :: replace_from fence [] O (t ++ 10 :: fence)).
    rewrite (replace_fence_tail t Hc).
    rewrite strip_cons_space by done. by apply strip_snoc_space.
Qed.

Lemma clean_selected_fenced (opening t : text) :
  contains fence t = false →
  opening = fence_json ∨ opening = fence →
  clean_selected (fenced opening t) = strip t.
Proof.
  intros Hc [-> | ->]; unfold clean_selected, fenced.
  - rewrite startswith_app.
    change (replace fence_json [] (fence_json ++ 10 :: t ++ 10 :: fence))
      with (10 :: replace_from fence_json [] O (t ++ 10 :: fence)).
    rewrite (replace_fence_json_tail t Hc).
    rewrite strip_cons_space by done.
    assert (Hs : strip (t ++ 10 :: fence) = lstrip (t ++ [10]) ++ fence).
    { unfold strip.
      replace (t ++ 10 :: fence) with ((t ++ [10]) ++ 96 :: [96; 96])
        by regroup_fence.
      rewrite lstrip_app_nonspace by done.
      replace (lstrip (t ++ [10]) ++ 96 :: [96; 96])
        with ((lstrip (t ++ [10]) ++ [96; 96]) ++ [96]) by regroup_fence.
      rewrite rstrip_snoc_nonspace by done. regroup_fence. }
    rewrite Hs. set (u := lstrip (t ++ [10])).
    assert (He : endswith fence (u ++ fence) = true)
      by (apply endswith_spec; eauto).
    rewrite He, length_app.
    replace (length u + length fence - 3)%nat with (length u) by (cbn; lia).
    rewrite take_app_length. unfold strip, u. rewrite lstrip_idemp.
    by apply (strip_snoc_space t 10).
  - change (startswith fence_json (fence ++ 10 :: t ++ 10 :: fence)) with false.
    rewrite startswith_app.
    change (replace fence [] (fence ++ 10 :: t ++ 10 :: fence))
      with (10 :: replace_from fence [] O (t ++ 10 :: fence)).
    rewrite (replace_fence_tail t Hc).
    rewrite strip_cons_space by done.
    rewrite (strip_snoc_space t 10) by done.
    by rewrite (not_contains_endswith _ _ (contains_strip _ _ Hc)).
Qed.

End Extraction.

(** The extraction of a fenced text without inner fence works on the
    stripped text, as the extraction of the text itself does. *)
Lemma fenced_extraction_stripped (opening t : text) :
  Str.contains fence t = false →
  opening = fence_json ∨ opening = fence →
  extract_suggested (fenced opening t) = loads_or_braces (Str.strip t)
  ∧ extract_selected (fenced opening t) = loads_or_braces (Str.strip t)
  ∧ extract_suggested t = loads_or_braces (Str.strip t)
  ∧ extract_selected t = loads_or_braces (Str.strip t).
Proof.
  intros Hc Ho. unfold extract_suggested, extract_selected.
  rewrite (strip_fenced opening t Ho).
  rewrite (clean_suggested_fenced opening t Hc Ho).
  rewrite (clean_selected_fenced opening t Hc Ho).
  rewrite (clean_suggested_plain _ (contains_strip _ _ Hc)).
  rewrite (clean_selected_plain _ (contains_strip _ _ Hc)).
  done.
Qed.

(** C6, as amended.  For every text [t] that parses as a JSON value [v]
    and holds no triple backtick, the extraction applied to [t] wrapped in
    a fenced block that opens with [```json] or with a bare fence yields
    [v], the value the extraction applied to [t] itself yields, in the
    suggestion stage and in the final selection stage. *)
Theorem fenced_extraction_same (opening t : text) (v : json) :
  Json.loads t = Some v →
  Str.contains fence t = false →
  opening = fence_json ∨ opening = fence →
  extract_suggested (fenced opening t) = Some v
  ∧ extract_selected (fenced opening t) = Some v
  ∧ extract_suggested t = Some v
  ∧ extract_selected t = Some v.
Proof.
  intros Hv Hc Ho.
  destruct (fenced_extraction_stripped opening t Hc Ho) as (-> & -> & -> & ->).
  unfold loads_or_braces. by rewrite (loads_strip t v Hv).
Qed.

Lemma loads_or_braces_None (s : text) :
  both_attempts_fail s → loads_or_braces s = None.
Proof.
  intros [Hd Hb]. unfold loads_or_braces. rewrite Hd.
  destruct (brace_search s) as [json_str|]; [by apply Hb | done].
Qed.

(** C6, the claim as stated fails.  The text [t] below is a JSON object
    whose one value is a triple backtick; wrapped in a [```json] block,
    the suggestion stage reads an object whose value is the empty
    string. *)
Lemma fenced_backticks_lose_value :
  let t := J "{'a': '```'}" in
  let v := JDict [(T "a", JStr (T "```"))] in
  Json.loads t = Some v
  ∧ extract_suggested t = Some v
  ∧ extract_suggested (fenced fence_json t)
    = Some (JDict [(T "a", JStr [])])
  ∧ extract_suggested (fenced fence_json t) ≠ Some v.
Proof. vm_compute. split_and!; [done..|]. discriminate. Qed.

Lemma fenced_extraction_same_witness :
  let t := J "{'food_items': ['Veggie Pizza'], 'products': []}" in
  let v := JDict [(T "food_items", JList [JStr (T "Veggie Pizza")]);
                  (T "products", JList [])] in
  Json.loads t = Some v
  ∧ Str.contains fence t = false
  ∧ extract_suggested (fenced fence_json t) = Some v
  ∧ extract_selected (fenced fence_json t) = Some v
  ∧ extract_suggested t = Some v
  ∧ extract_selected t = Some v.
Proof.
  split; [reflexivity|]. split; [reflexivity|].
  apply (fenced_extraction_same fence_json
           (J "{'food_items': ['Veggie Pizza'], 'products': []}"));
    [reflexivity | reflexivity | left; reflexivity].
Defined.

(** The same loss in the final selection stage, under a bare fence. *)
Example fenced_backticks_selected :
  let t := J "{'a': '```'}" in
  extract_selected (fenced fence t) = Some (JDict [(T "a", JStr [])]).
Proof. vm_compute. reflexivity. Qed.

(** A fence with another language tag is not taken off: the tag stays in
    front of the text, and only the brace pattern can still find a
    value. *)
Example fenced_other_tag :
  Json.loads (J "[1, 2]") = Some (JList [JInt 1; JInt 2])
  ∧ extract_selected (fenced (T "```python") (J "[1, 2]")) = None
  ∧ extract_suggested (fenced (T "```python") (J "[{'a': 1}]"))
    = Some (JDict [(T "a", JInt 1)]).
Proof. vm_compute. done. Qed.

(** ** The two stages *)

Section StageProperties.
Context `{Builtins}.

Lemma or_random_total suggested available g :
  ∃ l g', or_random suggested available g = Return (l, g').
Proof.
  unfold or_random. destruct suggested as [|s ss]; [|eauto].
  destruct available as [|a av]; [eauto|].
  destruct (sample_returns (a :: av) (Nat.min 3 (length (a :: av))) g)
    as (l & g' & -> & _); [lia | eauto].
Qed.

(** The fallback engine returns on every input. *)
Lemma create_fallback_suggestions_total user_query foods prods g :
  ∃ s g', create_fallback_suggestions user_query foods prods g = Return (s, g').
Proof.
  unfold create_fallback_suggestions.
  destruct (event_keywords (str_lower user_query)) as [fk pk].
  destruct (or_random_total (collect_matches fk foods) foods g)
    as (lf & g1 & ->). cbn.
  destruct (or_random_total (collect_matches pk prods) prods g1)
    as (lp & g2 & ->). cbn. eauto.
Qed.

Lemma fallback_suggestions_total user_query foods prods g :
  ∃ s g', create_fallback_suggestions user_query foods prods g = Return (s, g')
          ∧ fallback_suggestions user_query foods prods g
            = Return (suggestion_dict s, g').
Proof.
  destruct (create_fallback_suggestions_total user_query foods prods g)
    as (s & g' & Hs).
  exists s, g'. split; [done|]. unfold fallback_suggestions. by rewrite Hs.
Qed.

(** The suggestion stage returns on every input and every backend: what
    the backend raises is caught, and the fallback does not raise. *)
Lemma get_suggested_items_and_products_total client user_query foods prods g :
  ∃ v g', get_suggested_items_and_products client user_query foods prods g
          = Return (v, g').
Proof.
  destruct (fallback_suggestions_total user_query foods prods g)
    as (s & g' & _ & Hf).
  unfold get_suggested_items_and_products. rewrite Hf.
  destruct (client _) as [choices|e]; cbn; [|eauto].
  destruct (content_stripped choices) as [suggested_data|e]; cbn; [|eauto].
  destruct (loads_or_braces _); eauto.
Qed.

End StageProperties.

(** C7. When both parsing attempts fail on the cleaned text of the
    backend (the direct parse, and the parse of the outermost brace
    substring if there is one), the suggestion stage returns what the
    fallback engine returns and the final selection stage returns the
    empty selection; neither raises. *)
Theorem extraction_failure_recovered `{Builtins} (client : backend)
  (user_query : text) (available_food_items available_products : list text)
  (g : rng) (food_results : gmap text (list menu_item))
  (product_results : gmap text json) :
  (∀ content rest,
     client (suggestion_request user_query available_food_items
               available_products) = Return (Some content :: rest) →
     both_attempts_fail (clean_suggested (Str.strip content)) →
     ∃ s g',
       create_fallback_suggestions user_query available_food_items
         available_products g = Return (s, g')
       ∧ get_suggested_items_and_products client user_query
           available_food_items available_products g
         = Return (suggestion_dict s, g'))
  ∧ (∀ content rest,
       client (selection_request user_query food_results product_results)
       = Return (Some content :: rest) →
       both_attempts_fail (clean_selected (Str.strip content)) →
       get_final_combined_selection client user_query food_results
         product_results = Return empty_selection).
Proof.
  split; intros content rest Hc Hfail%loads_or_braces_None.
  - destruct (fallback_suggestions_total user_query available_food_items
                available_products g) as (s & g' & Hs & Hf).
    exists s, g'. split; [done|].
    unfold get_suggested_items_and_products. rewrite Hc, Hf. cbn.
    by rewrite Hfail.
  - unfold get_final_combined_selection. rewrite Hc. cbn. by rewrite Hfail.
Qed.

Lemma extraction_failure_recovered_witness :
  let client : backend := fun _ => Return [Some (T "Sure! {not json}")] in
  let foods := [T "Chocolate Cake"; T "Veggie Pizza"] in
  let prods := [T "Party Poppers"] in
  let g : rng := fun _ => O in
  both_attempts_fail (clean_suggested (Str.strip (T "Sure! {not json}")))
  ∧ both_attempts_fail (clean_selected (Str.strip (T "Sure! {not json}")))
  ∧ (∃ s g',
       create_fallback_suggestions (H := Runtime.builtins)
         (T "birthday party") foods prods g = Return (s, g')
       ∧ get_suggested_items_and_products (H := Runtime.builtins) client
           (T "birthday party") foods prods g
         = Return (suggestion_dict s, g'))
  ∧ get_final_combined_selection (H := Runtime.builtins) client
      (T "birthday party") ∅ ∅
    = Return empty_selection.
Proof.
  intros client foods prods g.
  assert (H1 : both_attempts_fail
                 (clean_suggested (Str.strip (T "Sure! {not json}")))).
  { split; [reflexivity|]. intros m Hm. vm_compute in Hm.
    injection Hm as <-. reflexivity. }
  assert (H2 : both_attempts_fail
                 (clean_selected (Str.strip (T "Sure! {not json}")))).
  { split; [reflexivity|]. intros m Hm. vm_compute in Hm.
    injection Hm as <-. reflexivity. }
  destruct (extraction_failure_recovered (H := Runtime.builtins) client
              (T "birthday party") foods prods g ∅ ∅) as [Hs Hf].
  split; [exact H1|]. split; [exact H2|]. split.
  - exact (Hs (T "Sure! {not json}") [] eq_refl H1).
  - exact (Hf (T "Sure! {not json}") [] eq_refl H2).
Defined.

(** C1, on the failing input.  An exception of the backend call is not
    caught in [get_final_combined_selection]: it reaches the caller, for
    every user query and every pair of search-result maps.  The other
    half of the claim, the empty selection when both parsing attempts
    fail, holds. *)
Theorem final_selection_backend_error_escapes `{Builtins}
  (e : exn) (user_query : text) (food_results : gmap text (list menu_item))
  (product_results : gmap text json) :
  get_final_combined_selection (fun _ => Raise e) user_query food_results
    product_results = Raise e.
Proof. reflexivity. Qed.

(** ** De-duplication in the final selection *)

Lemma empty_selection_no_repeated_names : no_repeated_names empty_selection.
Proof. split; vm_compute; constructor. Qed.

(** C4, the claim as stated fails.  The search results hold the same
    cake from two restaurants, the backend answers with both rows as two
    line items of one [item_name], and the stage returns both. *)
Lemma final_selection_keeps_repeated_name :
  let row r := {| name := Some (T "Cake"); review := Some (9 # 2);
                  columns := [(T "restaurant_id", r)] |} in
  let food_results : gmap text (list menu_item) :=
    {[ T "Cake" := [row (T "r1"); row (T "r2")] ]} in
  let answer :=
    J "{'food_selection': [{'item_name': 'Cake', 'restaurant_id': 'r1'}, {'item_name': 'Cake', 'restaurant_id': 'r2'}], 'product_selection': []}" in
  ∃ v,
    get_final_combined_selection (H := Runtime.builtins)
      (fun _ => Return [Some answer]) (T "birthday party") food_results ∅
    = Return v
    ∧ line_item_names "food_selection" "item_name" v
      = [JStr (T "Cake"); JStr (T "Cake")]
    ∧ ¬ no_repeated_names v.
Proof.
  eexists. split; [vm_compute; reflexivity|]. split; [reflexivity|].
  intros [Hnd _]. vm_compute in Hnd.
  apply NoDup_cons in Hnd as [Hnotin _]. apply Hnotin. left.
Qed.

(** C4, as amended.  The final selection stage returns the value the
    extraction reads from the backend text, unchanged, and the empty
    selection when the extraction fails; it removes no line item.  Its
    result repeats no name exactly when the extracted value repeats
    none. *)
Theorem final_selection_is_extracted `{Builtins} (client : backend)
  (user_query : text) (food_results : gmap text (list menu_item))
  (product_results : gmap text json) (content : text)
  (rest : list (option text)) :
  client (selection_request user_query food_results product_results)
  = Return (Some content :: rest) →
  ∃ v,
    get_final_combined_selection client user_query food_results
      product_results = Return v
    ∧ v = default empty_selection (extract_selected content)
    ∧ (no_repeated_names v ↔
       ∀ v', extract_selected content = Some v' → no_repeated_names v').
Proof.
  intros Hc. unfold get_final_combined_selection. rewrite Hc. cbn.
  fold (extract_selected content).
  destruct (extract_selected content) as [v|]; eexists; split_and!; try done.
  - split; [by intros ? ? [= <-] | eauto].
  - split; [done | intros _; apply empty_selection_no_repeated_names].
Qed.

Lemma final_selection_is_extracted_witness :
  let answer := J "{'food_selection': [{'item_name': 'Cake'}], 'product_selection': []}" in
  let client : backend := fun _ => Return [Some answer] in
  client (selection_request (H := Runtime.builtins) (T "birthday party") ∅ ∅)
  = Return [Some answer]
  ∧ ∃ v,
      get_final_combined_selection (H := Runtime.builtins) client
        (T "birthday party") ∅ ∅ = Return v
      ∧ v = default empty_selection (extract_selected answer)
      ∧ (no_repeated_names v ↔
         ∀ v', extract_selected answer = Some v' → no_repeated_names v').
Proof.
  intros answer client. split; [reflexivity|].
  exact (final_selection_is_extracted (H := Runtime.builtins) client
           (T "birthday party") ∅ ∅ answer [] eq_refl).
Defined.

(** ** The refinement route *)

Section RefinementProperties.
Context `{Builtins}.

Lemma revise_fails client ctx :
  refinement_fails client ctx → ∃ e, revise client ctx = Raise e.
Proof.
  unfold revise.
  intros [e He | He | rest He | content rest He Hj]; rewrite He; cbn; eauto.
  rewrite Hj. eauto.
Qed.

Lemma revise_succeeds client ctx content rest v :
  client (refinement_request ctx) = Return (Some content :: rest) →
  Json.loads (Str.strip content) = Some v →
  revise client ctx = Return (Str.strip content, v).
Proof. intros He Hj. unfold revise. rewrite He. cbn. by rewrite Hj. Qed.

(** The route up to the refinement turn, for a request that names a
    known session and carries a message. *)
Lemma continue_chat_known_session client store d sid followup_message ctx :
  dict_get d (T "session_id") = Some (JStr sid) →
  dict_get d (T "message") = Some followup_message →
  sid ≠ [] → truthy followup_message = true →
  store !! sid = Some ctx →
  continue_chat client store (JDict d)
  = let ctx := append_turn ctx (message "user" followup_message) in
    match revise client ctx with
    | Return (revised, revised_data) =>
        let ctx := set_final_selection ctx revised_data in
        let ctx := append_turn ctx (message "assistant" (JStr revised)) in
        (Return (jsonify [(T "revised_selection", revised_data);
                          (T "chat_history", JList (chat_history ctx))]),
         <[sid := ctx]> store)
    | Raise e =>
        (Return (jsonify [(T "error", JStr (T "Failed to process revision"));
                          (T "details", JStr (exn_str e))]),
         <[sid := ctx]> store)
    end.
Proof.
  intros Hsid Hmsg Hne Htruthy Hctx. unfold continue_chat, py_get.
  rewrite Hsid, Hmsg. cbn -[revise append_turn set_final_selection jsonify T].
  rewrite Htruthy, (bool_decide_eq_false_2 _ Hne), Hctx.
  cbn -[revise append_turn set_final_selection jsonify T]. done.
Qed.

End RefinementProperties.

(** C9. A [/chat/continue] request with a known session and a message
    whose refinement turn fails is answered with status 200 and a body
    that has the keys [error] and [details]. *)
Theorem continue_chat_failure_is_200 `{Builtins} (client : backend)
  (store : gmap text context) (d : list (text * json)) (sid : text)
  (followup_message : json) (ctx : context) :
  dict_get d (T "session_id") = Some (JStr sid) →
  dict_get d (T "message") = Some followup_message →
  sid ≠ [] → truthy followup_message = true →
  store !! sid = Some ctx →
  refinement_fails client (append_turn ctx (message "user" followup_message)) →
  ∃ r, fst (continue_chat client store (JDict d)) = Return r
       ∧ status r = 200%nat
       ∧ has_key "error" (body r) ∧ has_key "details" (body r).
Proof.
  intros Hsid Hmsg Hne Htruthy Hctx [e He]%revise_fails.
  rewrite (continue_chat_known_session _ _ _ _ _ _ Hsid Hmsg Hne Htruthy Hctx).
  cbn zeta. rewrite He. eexists. split; [reflexivity|].
  split; [reflexivity|]. split; cbn; eauto.
Qed.

(** C2. For a session that holds a final selection and a chat history,
    and a follow-up message: when the refinement turn fails the route
    returns an error body, the final selection of the session is what it
    was and its chat history is what it was followed by the user turn;
    when the backend text parses, the chat history is followed by the
    user turn and the assistant turn with the revised text, and the final
    selection is the parsed revision. *)
Theorem continue_chat_session_update `{Builtins}
  (store : gmap text context) (d : list (text * json)) (sid : text)
  (followup_message : json) (ctx : context) :
  dict_get d (T "session_id") = Some (JStr sid) →
  dict_get d (T "message") = Some followup_message →
  sid ≠ [] → truthy followup_message = true →
  store !! sid = Some ctx →
  let user_turn := message "user" followup_message in
  (∀ client,
     refinement_fails client (append_turn ctx user_turn) →
     ∃ r ctx',
       fst (continue_chat client store (JDict d)) = Return r
       ∧ has_key "error" (body r)
       ∧ snd (continue_chat client store (JDict d)) !! sid = Some ctx'
       ∧ final_selection ctx' = final_selection ctx
       ∧ chat_history ctx' = chat_history ctx ++ [user_turn])
  ∧ (∀ client content rest revised_data,
       client (refinement_request (append_turn ctx user_turn))
       = Return (Some content :: rest) →
       Json.loads (Str.strip content) = Some revised_data →
       ∃ r ctx',
         fst (continue_chat client store (JDict d)) = Return r
         ∧ dict_get (match body r with JDict b => b | _ => [] end)
             (T "revised_selection") = Some revised_data
         ∧ snd (continue_chat client store (JDict d)) !! sid = Some ctx'
         ∧ final_selection ctx' = revised_data
         ∧ chat_history ctx'
           = chat_history ctx
             ++ [user_turn; message "assistant" (JStr (Str.strip content))]).
Proof.
  intros Hsid Hmsg Hne Htruthy Hctx user_turn. split.
  - intros client [e He]%revise_fails.
    rewrite (continue_chat_known_session _ _ _ _ _ _ Hsid Hmsg Hne Htruthy Hctx).
    cbn zeta. fold user_turn. rewrite He. eexists _, _.
    split; [reflexivity|]. split; [cbn; eauto|].
    split; [apply lookup_insert_eq|]. done.
  - intros client content rest revised_data Hc Hj.
    rewrite (continue_chat_known_session _ _ _ _ _ _ Hsid Hmsg Hne Htruthy Hctx).
    cbn zeta. fold user_turn.
    rewrite (revise_succeeds _ _ _ _ _ Hc Hj). eexists _, _.
    split; [reflexivity|]. split; [reflexivity|].
    split; [apply lookup_insert_eq|]. split; [done|].
    cbn. by rewrite <- app_assoc.
Qed.

Lemma continue_chat_failure_is_200_witness :
  let client : backend :=
    fun _ => Raise (Exn (T "APIConnectionError") (T "Connection error.")) in
  let ctx :=
    {| chat_history := [message "user" (JStr (T "birthday party"))];
       session_food_items := JList []; session_products := JList [];
       food_search_results := ∅; product_search_results := ∅;
       final_selection := empty_selection |} in
  let store : gmap text context := {[ T "s1" := ctx ]} in
  let d := [(T "session_id", JStr (T "s1"));
            (T "message", JStr (T "no onions please"))] in
  refinement_fails (H := Runtime.builtins) client
    (append_turn ctx (message "user" (JStr (T "no onions please"))))
  ∧ ∃ r, fst (continue_chat (H := Runtime.builtins) client store (JDict d))
         = Return r
         ∧ status r = 200%nat
         ∧ has_key "error" (body r) ∧ has_key "details" (body r).
Proof.
  intros client ctx store d.
  assert (Hfail : refinement_fails (H := Runtime.builtins) client
            (append_turn ctx (message "user" (JStr (T "no onions please")))))
    by (by eapply backend_raises).
  split; [exact Hfail|].
  apply (continue_chat_failure_is_200 (H := Runtime.builtins) client store d
           (T "s1") (JStr (T "no onions please")) ctx);
    [reflexivity | reflexivity | discriminate | reflexivity
    | reflexivity | exact Hfail].
Defined.

Lemma continue_chat_session_update_witness :
  let failing : backend :=
    fun _ => Return [Some (T "Here is the revised selection")] in
  let answering : backend :=
    fun _ => Return [Some (J " {'food_selection': [], 'product_selection': []} ")] in
  let ctx :=
    {| chat_history := [message "user" (JStr (T "birthday party"))];
       session_food_items := JList []; session_products := JList [];
       food_search_results := ∅; product_search_results := ∅;
       final_selection := JDict [(T "food_selection", JList [JStr (T "Cake")])] |} in
  let store : gmap text context := {[ T "s1" := ctx ]} in
  let d := [(T "session_id", JStr (T "s1"));
            (T "message", JStr (T "drop everything"))] in
  let user_turn := message "user" (JStr (T "drop everything")) in
  refinement_fails (H := Runtime.builtins) failing (append_turn ctx user_turn)
  ∧ (∃ r ctx',
       fst (continue_chat (H := Runtime.builtins) failing store (JDict d))
       = Return r
       ∧ has_key "error" (body r)
       ∧ snd (continue_chat (H := Runtime.builtins) failing store (JDict d))
           !! T "s1" = Some ctx'
       ∧ final_selection ctx' = final_selection ctx
       ∧ chat_history ctx' = chat_history ctx ++ [user_turn])
  ∧ (∃ r ctx',
       fst (continue_chat (H := Runtime.builtins) answering store (JDict d))
       = Return r
       ∧ dict_get (match body r with JDict b => b | _ => [] end)
           (T "revised_selection") = Some empty_selection
       ∧ snd (continue_chat (H := Runtime.builtins) answering store (JDict d))
           !! T "s1" = Some ctx'
       ∧ final_selection ctx' = empty_selection
       ∧ chat_history ctx'
         = chat_history ctx
           ++ [user_turn;
               message "assistant"
                 (JStr (J "{'food_selection': [], 'product_selection': []}"))]).
Proof.
  intros failing answering ctx store d user_turn.
  assert (Hfail : refinement_fails (H := Runtime.builtins) failing
                    (append_turn ctx user_turn))
    by (by eapply not_json).
  destruct (continue_chat_session_update (H := Runtime.builtins) store d
              (T "s1") (JStr (T "drop everything")) ctx)
    as [Hf Hs]; [reflexivity | reflexivity | discriminate | reflexivity
                 | reflexivity |].
  split; [exact Hfail|]. split; [exact (Hf failing Hfail)|].
  exact (Hs answering
           (J " {'food_selection': [], 'product_selection': []} ") []
           empty_selection eq_refl eq_refl).
Defined.

(** ** Catalog search *)

Section CatalogProperties.
Context `{Builtins}.

Lemma review_before_total row1 row2 :
  review_before row1 row2 = false → review_before row2 row1 = true.
Proof.
  unfold review_before.
  destruct (review row1) as [a|], (review row2) as [b|]; try done.
  intros Hba. apply Qle_bool_iff.
  destruct (Qlt_le_dec a b) as [Hlt|Hle]; [by apply Qlt_le_weak|].
  apply Qle_bool_iff in Hle. congruence.
Qed.

Lemma review_before_trans row1 row2 row3 :
  review_before row1 row2 = true → review_before row2 row3 = true →
  review_before row1 row3 = true.
Proof.
  unfold review_before.
  destruct (review row1) as [a|], (review row2) as [b|],
    (review row3) as [c|]; try done.
  rewrite !Qle_bool_iff. intros Hba Hcb. by eapply Qle_trans.
Qed.

Lemma elem_of_insert_row row sorted x :
  x ∈ insert_row row sorted ↔ x = row ∨ x ∈ sorted.
Proof.
  induction sorted as [|r rest IH]; cbn.
  - rewrite list_elem_of_singleton, elem_of_nil. tauto.
  - destruct (review_before r row); rewrite !elem_of_cons, ?IH; tauto.
Qed.

Lemma insert_row_sorted row sorted :
  StronglySorted review_order sorted →
  StronglySorted review_order (insert_row row sorted).
Proof.
  induction 1 as [|r rest Hs IH Hall]; cbn.
  - repeat constructor.
  - destruct (review_before r row) eqn:Hr.
    + constructor; [done|]. apply Forall_forall. intros x Hx.
      apply elem_of_insert_row in Hx as [->|Hx]; [done|].
      by eapply (proj1 (Forall_forall _ _) Hall).
    + apply review_before_total in Hr.
      constructor; [by constructor|]. constructor; [done|].
      apply Forall_forall. intros x Hx.
      eapply review_before_trans; [exact Hr|].
      by eapply (proj1 (Forall_forall _ _) Hall).
Qed.

Lemma order_by_review_sorted rows :
  StronglySorted review_order (order_by_review rows).
Proof.
  induction rows as [|r rows IH]; cbn; [constructor|].
  by apply insert_row_sorted.
Qed.

Lemma elem_of_order_by_review rows x : x ∈ order_by_review rows ↔ x ∈ rows.
Proof.
  induction rows as [|r rows IH]; cbn; [done|].
  by rewrite elem_of_insert_row, elem_of_cons, IH.
Qed.

Lemma StronglySorted_take {A} (R : relation A) n (l : list A) :
  StronglySorted R l → StronglySorted R (take n l).
Proof.
  intros Hl. revert n. induction Hl as [|x l Hl IH Hall]; intros [|n]; cbn;
    try constructor; [apply IH|].
  apply Forall_forall. intros y Hy.
  eapply (proj1 (Forall_forall _ _) Hall). by eapply subseteq_take.
Qed.

(** What the statement returns for one name. *)
Lemma select_top3_sound table item :
  (length (select_top3 table item) ≤ 3)%nat
  ∧ Forall (fun row => ∃ n, name row = Some n ∧ sql_lower n = sql_lower item)
      (select_top3 table item)
  ∧ StronglySorted review_order (select_top3 table item).
Proof.
  unfold select_top3. split_and!.
  - rewrite length_take. lia.
  - apply Forall_forall. intros row Hrow.
    apply subseteq_take in Hrow.
    apply (proj1 (elem_of_order_by_review _ _)) in Hrow.
    apply list_elem_of_In in Hrow. apply filter_In in Hrow as [_ Hm].
    unfold name_matches in Hm. destruct (name row) as [n|]; [|done].
    exists n. split; [done|]. by apply bool_decide_eq_true in Hm.
  - apply StronglySorted_take, order_by_review_sorted.
Qed.

Lemma lookup_reset (m : gmap text (list menu_item)) (items : list text)
  (key : text) :
  foldl (fun m item => <[item := []]> m) m items !! key
  = if bool_decide (key ∈ items) then Some [] else m !! key.
Proof.
  revert m. induction items as [|item items IH]; intros m; cbn; [done|].
  rewrite IH. destruct (decide (key = item)) as [->|Hne].
  - rewrite lookup_insert_eq, (bool_decide_eq_true_2 (item ∈ item :: items));
      [by case_bool_decide | left].
  - rewrite lookup_insert_ne by done.
    case_bool_decide as Hin.
    + rewrite bool_decide_eq_true_2; [done | by right].
    + rewrite bool_decide_eq_false_2; [done|].
      intros [?|?]%elem_of_cons; done.
Qed.

Lemma lookup_run_queries (db : database) (i : nat) (items : list text)
  (m m' : gmap text (list menu_item)) (key : text) :
  run_queries db i items m = (m', None) →
  m' !! key = if bool_decide (key ∈ items)
              then Some (select_top3 (menu_items db) key)
              else m !! key.
Proof.
  revert i m. induction items as [|item items IH]; intros i m; cbn.
  - by intros [= <-].
  - destruct (execute_error db i item); [done|]. intros Hrun.
    rewrite (IH _ _ Hrun). destruct (decide (key = item)) as [->|Hne].
    + rewrite lookup_insert_eq, (bool_decide_eq_true_2 (item ∈ item :: items));
        [by case_bool_decide | left].
    + rewrite lookup_insert_ne by done.
      case_bool_decide as Hin.
      * rewrite bool_decide_eq_true_2; [done | by right].
      * rewrite bool_decide_eq_false_2; [done|].
        intros [?|?]%elem_of_cons; done.
Qed.

(** The dict holds either the rows of the statement or, when the
    database failed, no row. *)
Lemma lookup_fetch_food_search_results (db : database)
  (item_list : list text) (item : text) :
  item ∈ item_list →
  fetch_food_search_results db item_list !! item
  = Some (select_top3 (menu_items db) item)
  ∨ fetch_food_search_results db item_list !! item = Some [].
Proof.
  intros Hin. unfold fetch_food_search_results.
  destruct (reachable db).
  - destruct (run_queries db O item_list ∅) as [m [e|]] eqn:Hrun.
    + right. by rewrite lookup_reset, bool_decide_eq_true_2.
    + left. by rewrite (lookup_run_queries _ _ _ _ _ _ Hrun),
        bool_decide_eq_true_2.
  - right. by rewrite lookup_reset, bool_decide_eq_true_2.
Qed.

End CatalogProperties.

(** C8. For every list of suggested food names and every state of the
    catalog table, [fetch_food_search_results] maps each name of the list
    to at most three rows, each of a name equal to the queried name up to
    case, in the order of the rating from high to low with the rows
    without rating last. *)
Theorem fetch_food_search_results_sound `{Builtins} (db : database)
  (item_list : list text) (item : text) :
  item ∈ item_list →
  ∃ rows,
    fetch_food_search_results db item_list !! item = Some rows
    ∧ (length rows ≤ 3)%nat
    ∧ Forall (fun row => ∃ n, name row = Some n ∧ sql_lower n = sql_lower item)
        rows
    ∧ StronglySorted review_order rows.
Proof.
  intros Hin.
  destruct (lookup_fetch_food_search_results db item_list item Hin)
    as [-> | ->]; eexists; (split; [reflexivity|]).
  - apply select_top3_sound.
  - split_and!; [cbn; lia | constructor | constructor].
Qed.

Lemma fetch_food_search_results_sound_witness :
  let row n r := {| name := Some n; review := r; columns := [] |} in
  let db :=
    {| reachable := true;
       menu_items := [row (T "Veggie Pizza") (Some (4 # 1)); row (T "Cake") None;
                      row (T "veggie pizza") None;
                      row (T "VEGGIE PIZZA") (Some (9 # 2));
                      row (T "Veggie Pizza") (Some (3 # 1))];
       execute_error := fun _ _ => None |} in
  T "Veggie Pizza" ∈ [T "Cake"; T "Veggie Pizza"]
  ∧ fetch_food_search_results (H := Runtime.builtins) db
      [T "Cake"; T "Veggie Pizza"] !! T "Veggie Pizza"
    = Some [row (T "VEGGIE PIZZA") (Some (9 # 2));
            row (T "Veggie Pizza") (Some (4 # 1));
            row (T "Veggie Pizza") (Some (3 # 1))]
  ∧ ∃ rows,
      fetch_food_search_results (H := Runtime.builtins) db
        [T "Cake"; T "Veggie Pizza"] !! T "Veggie Pizza" = Some rows
      ∧ (length rows ≤ 3)%nat
      ∧ Forall (fun row =>
                  ∃ n, name row = Some n
                       ∧ Runtime.lower n = Runtime.lower (T "Veggie Pizza"))
          rows
      ∧ StronglySorted review_order rows.
Proof.
  intros row db.
  assert (Hin : T "Veggie Pizza" ∈ [T "Cake"; T "Veggie Pizza"])
    by (right; left).
  split; [exact Hin|]. split; [vm_compute; reflexivity|].
  exact (fetch_food_search_results_sound (H := Runtime.builtins) db
           [T "Cake"; T "Veggie Pizza"] (T "Veggie Pizza") Hin).
Defined.

(** ** The cart route *)

Section CartProperties.
Context `{Builtins} {world : Type}.
Variable cart_add : world -> json -> result http_reply * world.

Lemma cart_payload_user_id item payload :
  cart_payload item = Return payload →
  ∃ fields, payload = JDict fields
            ∧ dict_get fields (T "user_id") = Some (JStr user_id).
Proof.
  unfold cart_payload.
  destruct (py_get item "restaurant_id" JNull); cbn; [|done].
  destruct (py_get item "item_id" JNull); cbn; [|done].
  destruct (py_get item "quantity" (JInt 1)); cbn; [|done].
  destruct (py_int _); cbn; [|done].
  destruct (py_get item "producturl" JNull); cbn; [|done].
  destruct (py_get item "image_url" JNull); cbn; [|done].
  intros [= <-]. eauto.
Qed.

(** One turn of the loop sends one payload and files the item under
    exactly one of the two lists. *)
Lemma cart_step_files_item st item st' :
  cart_step cart_add st item = Return st' →
  ∃ payload,
    cart_payload item = Return payload
    ∧ posted st' = posted st ++ [payload]
    ∧ ((added_items st' = added_items st ++ [payload]
        ∧ failed_items st' = failed_items st)
       ∨ (added_items st' = added_items st
          ∧ ∃ reason,
              failed_items st' = failed_items st ++ [failed_entry item reason])).
Proof.
  unfold cart_step.
  destruct (cart_payload item) as [payload|]; cbn; [|done].
  destruct (cart_add (commerce st) payload) as [[response|e] w].
  - case_bool_decide; intros [= <-]; exists payload; cbn; eauto 10.
  - intros [= <-]. exists payload. cbn. eauto 10.
Qed.

Lemma cart_loop_posted st items st' oe :
  cart_loop cart_add st items = (st', oe) →
  (∀ payload, payload ∈ posted st →
     ∃ fields, payload = JDict fields
               ∧ dict_get fields (T "user_id") = Some (JStr user_id)) →
  ∀ payload, payload ∈ posted st' →
    ∃ fields, payload = JDict fields
              ∧ dict_get fields (T "user_id") = Some (JStr user_id).
Proof.
  revert st. induction items as [|item items IH]; intros st; cbn.
  - by intros [= <- _].
  - destruct (cart_step cart_add st item) as [st1|e] eqn:Hstep.
    + intros Hloop Hst. apply (IH _ Hloop).
      apply cart_step_files_item in Hstep as (p & Hp & -> & _).
      intros payload [Hin|Hin%list_elem_of_singleton]%elem_of_app;
        [by apply Hst | subst; by eapply cart_payload_user_id].
    + by intros [= <- _].
Qed.

(** When the payload of every item can be built, the loop runs to its
    end and every item is in exactly one of the two lists. *)
Lemma cart_loop_well_formed st items :
  Forall (fun item => ∃ payload, cart_payload item = Return payload) items →
  ∃ st',
    cart_loop cart_add st items = (st', None)
    ∧ (length (added_items st') + length (failed_items st')
       = length (added_items st) + length (failed_items st) + length items)%nat.
Proof.
  intros Hall. revert st. induction Hall as [|item items [p Hp] _ IH];
    intros st; cbn.
  - exists st. split; [done | lia].
  - destruct (cart_step cart_add st item) as [st1|e] eqn:Hstep.
    + destruct (IH st1) as (st' & -> & Hlen). exists st'. split; [done|].
      apply cart_step_files_item in Hstep
        as (p1 & _ & _ & [[Ha Hf] | [Ha [reason Hf]]]);
        rewrite Hlen, Ha, Hf, length_app; cbn; lia.
    + unfold cart_step in Hstep. rewrite Hp in Hstep. cbn in Hstep.
      by destruct (cart_add (commerce st) p) as [[?|?] ?].
Qed.

End CartProperties.

(** C10. Every payload sent to the cart endpoint carries the constant
    [user_id], and two requests whose bodies differ only under the key
    [user_id] send the same payloads, get the same response and leave the
    commerce backend in the same state. *)
Theorem cart_user_id_is_constant `{Builtins} {world : Type}
  (cart_add : world -> json -> result http_reply * world) :
  (∀ w data payload,
     payload ∈ snd (fst (add_items_to_cart cart_add w data)) →
     ∃ fields, payload = JDict fields
               ∧ dict_get fields (T "user_id") = Some (JStr user_id))
  ∧ (∀ w (d1 d2 : list (text * json)),
       (∀ key, key ≠ T "user_id" → dict_get d1 key = dict_get d2 key) →
       add_items_to_cart cart_add w (JDict d1)
       = add_items_to_cart cart_add w (JDict d2)).
Proof.
  split.
  - intros w data payload. unfold add_items_to_cart.
    destruct (py_get data "food_selection" JNull) as [food_selection|e];
      [|by intros ?%elem_of_nil].
    destruct (negb (truthy food_selection) || negb (truthy (JStr user_id)));
      [by intros ?%elem_of_nil|].
    destruct (py_iter food_selection) as [items|e]; [|by intros ?%elem_of_nil].
    destruct (cart_loop _ _ items) as [st [e|]] eqn:Hloop; cbn;
      apply (cart_loop_posted _ _ _ _ _ Hloop); by intros ? ?%elem_of_nil.
  - intros w d1 d2 Hsame. unfold add_items_to_cart, py_get.
    by rewrite (Hsame (T "food_selection")).
Qed.

Lemma cart_user_id_is_constant_witness :
  let cart_add : nat -> json -> result http_reply * nat :=
    fun n _ => (Return {| status_code := 200; reply_text := T "ok" |}, S n) in
  let item := JDict [(T "item_id", JStr (T "m1"));
                     (T "restaurant_id", JStr (T "r1"));
                     (T "quantity", JStr (T "2"));
                     (T "image_url", JStr (T "http://img/m1.png"))] in
  let payload := JDict [(T "user_id", JStr user_id);
                        (T "restaurant_id", JStr (T "r1"));
                        (T "item_id", JStr (T "m1"));
                        (T "quantity", JInt 2);
                        (T "producturl", JStr (T "http://img/m1.png"))] in
  let d1 := [(T "food_selection", JList [item])] in
  let d2 := [(T "user_id", JStr (T "someone-else"));
             (T "food_selection", JList [item])] in
  payload ∈ snd (fst (add_items_to_cart (H := Runtime.builtins) cart_add O
                        (JDict d2)))
  ∧ (∀ key, key ≠ T "user_id" → dict_get d1 key = dict_get d2 key)
  ∧ (∃ fields, payload = JDict fields
               ∧ dict_get fields (T "user_id") = Some (JStr user_id))
  ∧ add_items_to_cart (H := Runtime.builtins) cart_add O (JDict d1)
    = add_items_to_cart (H := Runtime.builtins) cart_add O (JDict d2).
Proof.
  intros cart_add item payload d1 d2.
  assert (Hin : payload ∈ snd (fst (add_items_to_cart (H := Runtime.builtins)
                                      cart_add O (JDict d2))))
    by (vm_compute; left).
  assert (Hsame : ∀ key, key ≠ T "user_id" → dict_get d1 key = dict_get d2 key).
  { intros key Hkey. cbn [d1 d2 dict_get].
    by rewrite (bool_decide_eq_false_2 _ Hkey). }
  destruct (cart_user_id_is_constant (H := Runtime.builtins) cart_add)
    as [Hconst Hquiet].
  split; [exact Hin|]. split; [exact Hsame|].
  split; [exact (Hconst O (JDict d2) payload Hin) | exact (Hquiet O d1 d2 Hsame)].
Defined.

(** C5, on the failing input.  The second of three items has a null
    [quantity]; [int(None)] raises while its payload is built, outside
    the [try] block: the route raises after the first item was sent, the
    third item is never sent, and no response is made. *)
Theorem cart_malformed_item_aborts `{Builtins} :
  let cart_add : nat -> json -> result http_reply * nat :=
    fun n _ => (Return {| status_code := 200; reply_text := T "ok" |}, S n) in
  let item id quantity :=
    JDict [(T "item_id", JStr id); (T "restaurant_id", JStr (T "r1"));
           (T "quantity", quantity)] in
  let data :=
    JDict [(T "food_selection",
            JList [item (T "m1") (JInt 1); item (T "m2") JNull;
                   item (T "m3") (JInt 1)])] in
  add_items_to_cart cart_add O data
  = (Raise (TypeError
              (T "int() argument must be a string, a bytes-like object or a real number, not 'NoneType'")),
     [JDict [(T "user_id", JStr user_id); (T "restaurant_id", JStr (T "r1"));
             (T "item_id", JStr (T "m1")); (T "quantity", JInt 1);
             (T "producturl", JNull)]],
     1%nat).
Proof. vm_compute. reflexivity. Qed.

(** The same with a quantity in words, as a backend text may hold it. *)
Example cart_worded_quantity_aborts :
  let cart_add : nat -> json -> result http_reply * nat :=
    fun n _ => (Return {| status_code := 200; reply_text := T "ok" |}, S n) in
  let data :=
    JDict [(T "food_selection",
            JList [JDict [(T "item_id", JStr (T "m1"));
                          (T "restaurant_id", JStr (T "r1"));
                          (T "quantity", JStr (T "2 pieces"))];
                   JDict [(T "item_id", JStr (T "m2"));
                          (T "restaurant_id", JStr (T "r1"));
                          (T "quantity", JStr (T "3"))]])] in
  ∃ e, add_items_to_cart (H := Runtime.builtins) cart_add O data
       = (Raise e, [], O).
Proof. eexists. vm_compute. reflexivity. Qed.

(** What holds of C5: when the payload of every item can be built, every
    item is in exactly one of [added] and [failed] and the response is
    [completed], whatever the commerce backend answers. *)
Lemma add_items_to_cart_well_formed `{Builtins} {world : Type}
  (cart_add : world -> json -> result http_reply * world) (w : world)
  (d : list (text * json)) (items : list json) :
  dict_get d (T "food_selection") = Some (JList items) →
  items ≠ [] →
  Forall (fun item => ∃ payload, cart_payload item = Return payload) items →
  ∃ added failed,
    fst (fst (add_items_to_cart cart_add w (JDict d)))
    = Return (jsonify [(T "status", JStr (T "completed"));
                       (T "added", JList added);
                       (T "failed", JList failed)])
    ∧ (length added + length failed = length items)%nat.
Proof.
  intros Hd Hne Hall. unfold add_items_to_cart, py_get. rewrite Hd.
  cbn -[jsonify T cart_loop]. rewrite (bool_decide_eq_false_2 _ Hne).
  cbn -[jsonify T cart_loop].
  destruct (cart_loop_well_formed cart_add
              {| added_items := []; failed_items := []; posted := [];
                 commerce := w |} items Hall) as (st' & -> & Hlen).
  cbn in *. eauto.
Qed.

(** * Further properties of the code *)

(** ** The suggestion stage, case by case *)

Section MoreStageProperties.
Context `{Builtins}.

(** The suggestion stage as a case distinction on the backend. *)
Lemma get_suggested_items_and_products_cases (client : backend)
  (user_query : text) (foods prods : list text) (g : rng) :
  get_suggested_items_and_products client user_query foods prods g
  = match client (suggestion_request user_query foods prods) with
    | Return (Some content :: _) =>
        match extract_suggested content with
        | Some v => Return (v, g)
        | None => fallback_suggestions user_query foods prods g
        end
    | _ => fallback_suggestions user_query foods prods g
    end.
Proof.
  unfold get_suggested_items_and_products, extract_suggested.
  destruct (fallback_suggestions_total user_query foods prods g)
    as (s & g' & _ & ->).
  destruct (client _) as [[|[content|] rest]|e]; cbn; [done..| |done|done].
  by destruct (loads_or_braces _).
Qed.

End MoreStageProperties.

(** X1. For every backend, request text, lists of catalog names and
    generator, the suggestion stage returns a value and does not raise.
    The value is the one its extraction reads from the text of the first
    choice of the backend, and then the generator is as it was, or it is
    the dict of the suggestion set of the fallback engine. *)
Theorem suggestion_stage_returns `{Builtins} (client : backend)
  (user_query : text) (available_food_items available_products : list text)
  (g : rng) :
  ∃ v g',
    get_suggested_items_and_products client user_query available_food_items
      available_products g = Return (v, g')
    ∧ ((∃ content rest,
          client (suggestion_request user_query available_food_items
                    available_products) = Return (Some content :: rest)
          ∧ extract_suggested content = Some v ∧ g' = g)
       ∨ (∃ s,
            create_fallback_suggestions user_query available_food_items
              available_products g = Return (s, g')
            ∧ v = suggestion_dict s)).
Proof.
  rewrite get_suggested_items_and_products_cases.
  destruct (fallback_suggestions_total user_query available_food_items
              available_products g) as (s & g' & Hs & ->).
  destruct (client _) as [[|[content|] rest]|e] eqn:Hc; eauto 10.
  destruct (extract_suggested content) as [v|] eqn:Hv; eauto 10.
Qed.

(** X2. When the backend call of the suggestion stage raises, or its
    completion has no choice, or the first choice carries no text, the
    stage returns the dict of the suggestion set that
    [create_fallback_suggestions] returns on the same request text and
    lists. *)
Theorem suggestion_stage_backend_failure `{Builtins} (client : backend)
  (user_query : text) (available_food_items available_products : list text)
  (g : rng) :
  let request :=
    suggestion_request user_query available_food_items available_products in
  (∃ e, client request = Raise e)
  ∨ client request = Return []
  ∨ (∃ rest, client request = Return (None :: rest)) →
  ∃ s g',
    create_fallback_suggestions user_query available_food_items
      available_products g = Return (s, g')
    ∧ get_suggested_items_and_products client user_query available_food_items
        available_products g = Return (suggestion_dict s, g').
Proof.
  intros request Hfail.
  rewrite get_suggested_items_and_products_cases. fold request.
  destruct (fallback_suggestions_total user_query available_food_items
              available_products g) as (s & g' & Hs & ->).
  exists s, g'. split; [done|].
  by destruct Hfail as [[e ->]|[->|[rest ->]]].
Qed.

Lemma suggestion_stage_backend_failure_witness :
  let client : backend :=
    fun _ => Raise (Exn (T "APIConnectionError") (T "Connection error.")) in
  let foods := [T "Chocolate Cake"; T "Veggie Pizza"] in
  let prods := [T "Party Poppers"; T "LED String Lights"] in
  let g : rng := fun _ => O in
  get_suggested_items_and_products (H := Runtime.builtins) client
    (T "birthday party for 10 kids") foods prods g
  = Return (JDict [(T "food_items",
                    JList [JStr (T "Chocolate Cake"); JStr (T "Veggie Pizza")]);
                   (T "products",
                    JList [JStr (T "LED String Lights");
                           JStr (T "Party Poppers")])], g)
  ∧ ∃ s g',
      create_fallback_suggestions (H := Runtime.builtins)
        (T "birthday party for 10 kids") foods prods g = Return (s, g')
      ∧ get_suggested_items_and_products (H := Runtime.builtins) client
          (T "birthday party for 10 kids") foods prods g
        = Return (suggestion_dict s, g').
Proof.
  intros client foods prods g. split; [reflexivity|].
  apply (suggestion_stage_backend_failure (H := Runtime.builtins) client
           (T "birthday party for 10 kids") foods prods g).
  left. eexists. reflexivity.
Defined.

(** ** The brace pattern *)

Lemma from_first_brace_app (pre r : text) :
  123 ∉ pre → from_first_brace (pre ++ 123 :: r) = Some r.
Proof.
  induction pre as [|c pre IH]; intros Hpre; cbn; [done|].
  apply not_elem_of_cons in Hpre as [Hc Hpre].
  destruct (N.eqb_spec c 123) as [->|_]; [done|]. by apply IH.
Qed.

Lemma upto_last_brace_None (post : text) :
  125 ∉ post → upto_last_brace post = None.
Proof.
  induction post as [|c post IH]; intros Hpost; cbn; [done|].
  apply not_elem_of_cons in Hpost as [Hc Hpost].
  rewrite (IH Hpost). by destruct (N.eqb_spec c 125) as [->|_].
Qed.

Lemma upto_last_brace_app (m post : text) :
  125 ∉ post → upto_last_brace (m ++ 125 :: post) = Some (m ++ [125]).
Proof.
  intros Hpost. induction m as [|c m IH]; cbn.
  - by rewrite (upto_last_brace_None post Hpost).
  - by rewrite IH.
Qed.

(** The match of the pattern runs from the first opening brace to the
    last closing brace. *)
Lemma brace_search_app (pre inner post : text) :
  123 ∉ pre → 125 ∉ post →
  brace_search (pre ++ 123 :: inner ++ 125 :: post)
  = Some (123 :: inner ++ [125]).
Proof.
  intros Hpre Hpost. unfold brace_search.
  by rewrite (from_first_brace_app _ _ Hpre), (upto_last_brace_app _ _ Hpost).
Qed.

(** X3. A JSON object inside other text is recovered by both stages.
    When the stripped text of the backend holds no triple backtick, is
    not a JSON document as a whole, and reads [pre {inner} post] with no
    opening brace in [pre] and no closing brace in [post], and [{inner}]
    is a JSON document of value [v], the extraction of the suggestion
    stage and the extraction of the final selection stage yield [v]. *)
Theorem prose_wrapped_object_recovered (content pre inner post : text)
  (v : json) :
  Str.strip content = pre ++ 123 :: inner ++ 125 :: post →
  123 ∉ pre → 125 ∉ post →
  Str.contains fence content = false →
  Json.loads (Str.strip content) = None →
  Json.loads (123 :: inner ++ [125]) = Some v →
  extract_suggested content = Some v ∧ extract_selected content = Some v.
Proof.
  intros Hs Hpre Hpost Hc Hwhole Hv.
  unfold extract_suggested, extract_selected.
  rewrite (clean_suggested_plain _ (contains_strip _ _ Hc)).
  rewrite (clean_selected_plain _ (contains_strip _ _ Hc)).
  unfold loads_or_braces. rewrite Hwhole, Hs.
  by rewrite (brace_search_app _ _ _ Hpre Hpost).
Qed.

Lemma prose_wrapped_object_recovered_witness :
  let content :=
    J " Sure! Here you go: {'food_items': ['Cake'], 'products': []} Enjoy. " in
  let v := JDict [(T "food_items", JList [JStr (T "Cake")]);
                  (T "products", JList [])] in
  Json.loads (Str.strip content) = None
  ∧ extract_suggested content = Some v ∧ extract_selected content = Some v.
Proof.
  intros content v. split; [reflexivity|].
  apply (prose_wrapped_object_recovered content
           (T "Sure! Here you go: ")
           (J "'food_items': ['Cake'], 'products': []")
           (T " Enjoy."));
    [reflexivity | by apply (bool_decide_unpack _)
    | by apply (bool_decide_unpack _) | reflexivity..].
Defined.

(** ** The exceptions of the final selection stage *)

(** X4. [get_final_combined_selection] raises in these three cases and
    in no other: the backend call raises, and the stage raises the same
    exception; the completion has no choice, and the stage raises
    [IndexError]; the first choice carries no text, and the stage raises
    [AttributeError] for [strip] on [None]. *)
Theorem final_selection_raises_iff `{Builtins} (client : backend)
  (user_query : text) (food_results : gmap text (list menu_item))
  (product_results : gmap text json) (e : exn) :
  let request := selection_request user_query food_results product_results in
  get_final_combined_selection client user_query food_results product_results
  = Raise e
  ↔ client request = Raise e
    ∨ (client request = Return []
       ∧ e = Exn (T "IndexError") (T "list index out of range"))
    ∨ (∃ rest, client request = Return (None :: rest)
               ∧ e = AttributeError None "strip").
Proof.
  intros request. unfold get_final_combined_selection. fold request.
  destruct (client request) as [[|[content|] rest]|e'] eqn:Hc; cbn.
  - split; [intros [= <-]; eauto|].
    by intros [?|[[_ ->]|(? & ? & _)]].
  - destruct (loads_or_braces _); split; try done;
      by intros [?|[[? _]|(? & ? & _)]].
  - split; [intros [= <-]; eauto 10|].
    by intros [?|[[? _]|(? & _ & ->)]].
  - split; [intros [= <-]; eauto|].
    by intros [[= ->]|[[? _]|(? & ? & _)]].
Qed.

(** ** The random generator, without repetition *)

(** The selection loop draws from the first [n - i] places of the pool,
    and takes each place at most once. *)
Lemma sample_loop_NoDup {A} (k i n : nat) (pool : list A) (g : rng) l g' :
  (i + k ≤ n)%nat → (n ≤ length pool)%nat →
  NoDup (take (n - i) pool) →
  sample_loop k i n pool g = Return (l, g') →
  NoDup l ∧ l ⊆ take (n - i) pool.
Proof.
  revert i pool g l g'. induction k as [|k IH]; intros i pool g l g' Hk Hn Hnd.
  - intros [= <- _]. split; [constructor|]. intros x Hx.
    by apply elem_of_nil in Hx.
  - cbn [sample_loop].
    destruct (randbelow (n - i) g) as [j g1] eqn:Hr.
    assert (Hj : (j < n - i)%nat).
    { change j with (fst (j, g1)). rewrite <- Hr. apply randbelow_lt. lia. }
    destruct (pool !! j) as [x|] eqn:Hx; [|done].
    destruct (pool !! (n - i - 1)%nat) as [y|] eqn:Hy; [|done].
    destruct (sample_loop k (S i) n (<[j:=y]> pool) g1) as [[l1 g2]|e] eqn:Hl;
      [|done].
    cbn. intros [= <- <-].
    set (m := (n - i - 1)%nat) in *.
    assert (Hm : (n - i = S m)%nat) by lia.
    assert (Hact : take (n - i) pool = take m pool ++ [y]).
    { rewrite Hm. by apply take_S_r. }
    rewrite Hact in Hnd. apply NoDup_app in Hnd as (Hnd & Hy' & _).
    assert (Hym : y ∉ take m pool).
    { intros Hin. apply (Hy' y Hin). left. }
    assert (Hnext : NoDup (take (n - S i) (<[j:=y]> pool))
                    ∧ (x ∉ take (n - S i) (<[j:=y]> pool))
                    ∧ (take (n - S i) (<[j:=y]> pool) ⊆ take (n - i) pool)).
    { replace (n - S i)%nat with m by lia. rewrite Hact.
      destruct (decide (j = m)) as [->|Hjm].
      - rewrite list_insert_id by done.
        assert (x = y) as -> by congruence.
        split_and!; [done | done |]. intros z Hz. apply elem_of_app. by left.
      - assert (Hjlt : (j < m)%nat) by lia.
        rewrite take_insert_lt by done.
        assert (Hxm : take m pool !! j = Some x)
          by (by rewrite lookup_take_lt).
        rewrite insert_take_drop by (rewrite length_take; lia).
        pose proof (take_drop_middle _ _ _ Hxm) as Hsplit.
        remember (take j (take m pool)) as t1 eqn:Ht1.
        remember (drop (S j) (take m pool)) as t2 eqn:Ht2.
        clear Ht1 Ht2. rewrite <- Hsplit in Hnd, Hym |- *.
        apply NoDup_app in Hnd as (Hnd1 & Hd1 & Hnd2).
        apply NoDup_cons in Hnd2 as [Hx2 Hnd2].
        apply not_elem_of_app in Hym as [Hy1 Hy2].
        apply not_elem_of_cons in Hy2 as [Hyx Hy2].
        split_and!.
        + apply NoDup_app. split_and!; [done| |by apply NoDup_cons].
          intros z Hz [->|Hz2]%elem_of_cons; [done|].
          apply (Hd1 z Hz). by right.
        + intros [Hin|[->|Hin]%elem_of_cons]%elem_of_app; [|done..].
          apply (Hd1 x Hin). left.
        + intros z. rewrite !elem_of_app, !elem_of_cons, elem_of_nil. tauto. }
    destruct Hnext as (Hnd' & Hxn & Hsub).
    destruct (IH (S i) (<[j:=y]> pool) g1 l1 g2) as [Hl1 Hsub1];
      [lia | rewrite length_insert; lia | done | done |].
    split.
    + apply NoDup_cons. split; [|done]. intros Hin. by apply Hxn, Hsub1.
    + intros z [->|Hz]%elem_of_cons.
      * apply list_elem_of_lookup. exists j. by rewrite lookup_take_lt by lia.
      * by apply Hsub, Hsub1.
Qed.

(** [random.sample] draws [k] names without repetition from a population
    without repetition. *)
Lemma sample_NoDup {A} (population : list A) (k : nat) (g : rng) :
  (k ≤ length population)%nat → NoDup population →
  ∃ l g', sample population k g = Return (l, g')
          ∧ length l = k ∧ NoDup l ∧ l ⊆ population.
Proof.
  intros Hk Hnd.
  destruct (sample_returns population k g Hk) as (l & g' & Hs & Hlen & Hsub).
  exists l, g'. split_and!; [done..| |done].
  unfold sample in Hs. destruct (Nat.leb_spec k (length population)); [|lia].
  apply sample_loop_NoDup in Hs as [Hl _]; [done | lia | lia |].
  by rewrite Nat.sub_0_r, firstn_all.
Qed.

(** ** Fallback suggestion engine, case by case *)

Lemma fromkeys_fold_NoDup (l d : list text) :
  NoDup (d ++ l) →
  fold_left (fun d x => if bool_decide (x ∈ d) then d else d ++ [x]) l d
  = d ++ l.
Proof.
  revert d. induction l as [|a l IH]; intros d Hnd; cbn.
  - by rewrite app_nil_r.
  - pose proof Hnd as Hnd'. apply NoDup_app in Hnd' as (_ & Hd & _).
    rewrite bool_decide_eq_false_2 by (intros Ha; apply (Hd a Ha); left).
    rewrite IH by (by rewrite <- app_assoc). by rewrite <- app_assoc.
Qed.

(** [dict.fromkeys] keeps a list without repetition as it is. *)
Lemma fromkeys_NoDup_id (l : list text) : NoDup l → fromkeys l = l.
Proof. intros Hl. by apply (fromkeys_fold_NoDup l []). Qed.

Section MoreFallbackProperties.
Context `{Builtins}.

Lemma collect_matches_fold (keywords available acc : list text) :
  fold_left
    (fun suggested keyword =>
       match keyword_matches keyword available with
       | [] => suggested
       | matches => suggested ++ take 2 matches
       end) keywords acc
  = acc ++ collect_matches keywords available.
Proof.
  unfold collect_matches. revert acc.
  induction keywords as [|kw kws IH]; intros acc; cbn.
  - by rewrite app_nil_r.
  - rewrite IH. rewrite (IH (match keyword_matches kw available with
                             | [] => [] | m :: ms => _ end)).
    destruct (keyword_matches kw available); [done|].
    by rewrite app_assoc.
Qed.

(** The loop appends the first two matches of each keyword in turn. *)
Lemma collect_matches_cons (kw : text) (kws available : list text) :
  collect_matches (kw :: kws) available
  = take 2 (keyword_matches kw available) ++ collect_matches kws available.
Proof.
  unfold collect_matches at 1. cbn [fold_left].
  rewrite collect_matches_fold.
  by destruct (keyword_matches kw available).
Qed.

Lemma elem_of_keyword_matches (kw item : text) (available : list text) :
  item ∈ keyword_matches kw available
  ↔ item ∈ available
    ∧ Str.contains (str_lower kw) (str_lower item) = true.
Proof.
  unfold keyword_matches.
  by rewrite list_elem_of_In, filter_In, <- list_elem_of_In.
Qed.

Lemma collect_matches_Forall (keywords available : list text) :
  Forall (matches_keyword keywords) (collect_matches keywords available).
Proof.
  induction keywords as [|kw kws IH]; [constructor|].
  rewrite collect_matches_cons. apply Forall_app. split.
  - apply Forall_forall. intros item Hitem%subseteq_take.
    apply elem_of_keyword_matches in Hitem as [_ Hitem].
    exists kw. split; [left | done].
  - eapply Forall_impl; [exact IH|]. intros item (kw' & Hkw & Hm).
    exists kw'. split; [by right | done].
Qed.

Lemma collect_matches_nonempty (keywords available : list text) (item : text) :
  item ∈ available → matches_keyword keywords item →
  collect_matches keywords available ≠ [].
Proof.
  intros Hitem (kw & Hkw & Hm).
  induction keywords as [|kw' kws IH]; [by apply elem_of_nil in Hkw|].
  rewrite collect_matches_cons.
  apply elem_of_cons in Hkw as [<-|Hkw].
  - assert (Hin : item ∈ keyword_matches kw available)
      by (by apply elem_of_keyword_matches).
    destruct (keyword_matches kw available) as [|m ms];
      [by apply elem_of_nil in Hin | done].
  - intros [_ Hnil]%app_eq_nil. by apply IH.
Qed.

Lemma collect_matches_none (keywords available : list text) :
  (∀ item, item ∈ available → ¬ matches_keyword keywords item) →
  collect_matches keywords available = [].
Proof.
  intros Hno.
  destruct (collect_matches keywords available) as [|item l] eqn:Hc; [done|].
  exfalso. apply (Hno item).
  - apply (collect_matches_subseteq keywords available). rewrite Hc. left.
  - pose proof (collect_matches_Forall keywords available) as Hall.
    rewrite Hc in Hall. by apply Forall_cons in Hall as [? _].
Qed.

(** The two fields of the suggestion set, each cut from the list its
    own step leaves. *)
Lemma create_fallback_suggestions_fields (user_query : text)
  (foods prods : list text) (g : rng) :
  ∃ lf g1 lp g2,
    or_random (collect_matches (food_keywords user_query) foods) foods g
    = Return (lf, g1)
    ∧ or_random (collect_matches (product_keywords user_query) prods) prods g1
      = Return (lp, g2)
    ∧ create_fallback_suggestions user_query foods prods g
      = Return ({| food_items := take 5 (fromkeys lf);
                   products := take 5 (fromkeys lp) |}, g2).
Proof.
  unfold create_fallback_suggestions, food_keywords, product_keywords.
  destruct (event_keywords (str_lower user_query)) as [fk pk]. cbn [fst snd].
  destruct (or_random_total (collect_matches fk foods) foods g)
    as (lf & g1 & Hf).
  destruct (or_random_total (collect_matches pk prods) prods g1)
    as (lp & g2 & Hp).
  exists lf, g1, lp, g2. rewrite Hf. cbn. rewrite Hp. done.
Qed.

(** The step of one field when a keyword matched: the matches, and the
    generator as it was. *)
Lemma or_random_matched (keywords available : list text) (g : rng)
  (item : text) :
  item ∈ available → matches_keyword keywords item →
  or_random (collect_matches keywords available) available g
  = Return (collect_matches keywords available, g).
Proof.
  intros Hitem Hm. unfold or_random.
  pose proof (collect_matches_nonempty keywords available item Hitem Hm).
  by destruct (collect_matches keywords available).
Qed.

(** The step of one field when no keyword matched and the names are
    distinct: a draw of three names, or of all when there are fewer. *)
Lemma or_random_drawn (keywords available : list text) (g : rng) :
  NoDup available →
  (∀ item, item ∈ available → ¬ matches_keyword keywords item) →
  ∃ l g', or_random (collect_matches keywords available) available g
          = Return (l, g')
          ∧ length l = Nat.min 3 (length available)
          ∧ NoDup l ∧ l ⊆ available.
Proof.
  intros Hnd Hno. rewrite (collect_matches_none _ _ Hno). unfold or_random.
  destruct available as [|a av].
  - exists [], g. split_and!; [done | done | constructor | done].
  - apply sample_NoDup; [lia | done].
Qed.

Lemma take5_drawn (l : list text) (n : nat) :
  length l = Nat.min 3 n → NoDup l → take 5 (fromkeys l) = l.
Proof.
  intros Hlen Hnd. rewrite (fromkeys_NoDup_id l Hnd).
  apply take_ge. lia.
Qed.

Lemma take5_matched (keywords l : list text) :
  Forall (matches_keyword keywords) l →
  Forall (matches_keyword keywords) (take 5 (fromkeys l)).
Proof.
  intros Hall. apply Forall_forall. intros item Hitem%subseteq_take.
  apply (proj1 (elem_of_fromkeys _ _)) in Hitem.
  by apply (proj1 (Forall_forall _ _) Hall).
Qed.

End MoreFallbackProperties.

(** X5. On empty catalog lists the fallback engine returns empty lists,
    whatever the request text: with both lists empty the suggestion set
    is empty and the generator is not used; an empty food list gives an
    empty [food_items], and an empty product list an empty [products]. *)
Theorem fallback_empty_catalog `{Builtins} (user_query : text) (g : rng) :
  create_fallback_suggestions user_query [] [] g
  = Return ({| food_items := []; products := [] |}, g)
  ∧ (∀ available_products, ∃ s g',
       create_fallback_suggestions user_query [] available_products g
       = Return (s, g') ∧ food_items s = [])
  ∧ (∀ available_food_items, ∃ s g',
       create_fallback_suggestions user_query available_food_items [] g
       = Return (s, g') ∧ products s = []).
Proof.
  assert (Hnil : ∀ keywords g0,
            or_random (collect_matches keywords []) [] g0 = Return ([], g0)).
  { intros keywords g0. rewrite collect_matches_none; [done|].
    by intros item Hitem%elem_of_nil. }
  split_and!.
  - destruct (create_fallback_suggestions_fields user_query [] [] g)
      as (lf & g1 & lp & g2 & Hf & Hp & ->).
    rewrite Hnil in Hf. injection Hf as <- <-.
    rewrite Hnil in Hp. by injection Hp as <- <-.
  - intros prods.
    destruct (create_fallback_suggestions_fields user_query [] prods g)
      as (lf & g1 & lp & g2 & Hf & Hp & ->).
    rewrite Hnil in Hf. injection Hf as <- <-. eauto.
  - intros foods.
    destruct (create_fallback_suggestions_fields user_query foods [] g)
      as (lf & g1 & lp & g2 & Hf & Hp & ->).
    rewrite Hnil in Hp. injection Hp as <- <-. eauto.
Qed.

(** X6. When a food name and a product name of the catalog lists hold a
    keyword of the event of the request, the random selection takes no
    part: the fallback engine returns the same suggestion set for every
    generator and leaves the generator as it was, and every name it
    suggests holds a keyword of the event. *)
Theorem fallback_keyword_matches `{Builtins} (user_query : text)
  (available_food_items available_products : list text)
  (food product : text) :
  food ∈ available_food_items →
  matches_keyword (food_keywords user_query) food →
  product ∈ available_products →
  matches_keyword (product_keywords user_query) product →
  ∃ s,
    (∀ g, create_fallback_suggestions user_query available_food_items
            available_products g = Return (s, g))
    ∧ Forall (matches_keyword (food_keywords user_query)) (food_items s)
    ∧ Forall (matches_keyword (product_keywords user_query)) (products s).
Proof.
  intros Hf Hfm Hp Hpm. eexists. split_and!.
  - intros g.
    destruct (create_fallback_suggestions_fields user_query
                available_food_items available_products g)
      as (lf & g1 & lp & g2 & Hlf & Hlp & ->).
    rewrite (or_random_matched _ _ _ _ Hf Hfm) in Hlf. injection Hlf as <- <-.
    rewrite (or_random_matched _ _ _ _ Hp Hpm) in Hlp. injection Hlp as <- <-.
    reflexivity.
  - apply take5_matched, collect_matches_Forall.
  - apply take5_matched, collect_matches_Forall.
Qed.

Lemma fallback_keyword_matches_witness :
  let foods := [T "Chocolate Cake"; T "Masala Dosa"; T "Veggie Pizza"] in
  let prods := [T "Party Poppers"; T "Floor Cleaner"] in
  let query := T "Birthday party for 10 kids" in
  T "Chocolate Cake" ∈ foods
  ∧ matches_keyword (H := Runtime.builtins)
      (food_keywords (H := Runtime.builtins) query) (T "Chocolate Cake")
  ∧ T "Party Poppers" ∈ prods
  ∧ matches_keyword (H := Runtime.builtins)
      (product_keywords (H := Runtime.builtins) query) (T "Party Poppers")
  ∧ ∃ s,
      (∀ g, create_fallback_suggestions (H := Runtime.builtins) query foods
              prods g = Return (s, g))
      ∧ Forall (matches_keyword (H := Runtime.builtins)
                  (food_keywords (H := Runtime.builtins) query)) (food_items s)
      ∧ Forall (matches_keyword (H := Runtime.builtins)
                  (product_keywords (H := Runtime.builtins) query))
          (products s).
Proof.
  intros foods prods query.
  assert (Hf : T "Chocolate Cake" ∈ foods) by left.
  assert (Hfm : matches_keyword (H := Runtime.builtins)
                  (food_keywords (H := Runtime.builtins) query)
                  (T "Chocolate Cake")).
  { exists (T "cake"). split; [left | reflexivity]. }
  assert (Hp : T "Party Poppers" ∈ prods) by left.
  assert (Hpm : matches_keyword (H := Runtime.builtins)
                  (product_keywords (H := Runtime.builtins) query)
                  (T "Party Poppers")).
  { exists (T "poppers"). split; [right; left | reflexivity]. }
  split; [exact Hf|]. split; [exact Hfm|]. split; [exact Hp|].
  split; [exact Hpm|].
  exact (fallback_keyword_matches (H := Runtime.builtins) query foods prods
           (T "Chocolate Cake") (T "Party Poppers") Hf Hfm Hp Hpm).
Defined.

(** X7. When the food names are distinct and none of them holds a
    keyword of the event of the request, [food_items] is a random draw
    from the list: three names, or all of them when there are fewer than
    three, none of them twice. *)
Theorem fallback_random_draw `{Builtins} (user_query : text)
  (available_food_items available_products : list text) (g : rng) :
  NoDup available_food_items →
  (∀ item, item ∈ available_food_items →
           ¬ matches_keyword (food_keywords user_query) item) →
  ∃ s g',
    create_fallback_suggestions user_query available_food_items
      available_products g = Return (s, g')
    ∧ length (food_items s) = Nat.min 3 (length available_food_items)
    ∧ NoDup (food_items s)
    ∧ food_items s ⊆ available_food_items.
Proof.
  intros Hnd Hno.
  destruct (create_fallback_suggestions_fields user_query
              available_food_items available_products g)
    as (lf & g1 & lp & g2 & Hlf & Hlp & ->).
  destruct (or_random_drawn _ _ g Hnd Hno) as (l & g' & Hl & Hlen & Hl' & Hsub).
  rewrite Hl in Hlf. injection Hlf as <- <-.
  eexists _, _. split; [reflexivity|]. cbn.
  by rewrite (take5_drawn l _ Hlen Hl').
Qed.

Lemma fallback_random_draw_witness :
  let foods := [T "Idli"; T "Masala Dosa"; T "Upma"; T "Lassi"] in
  let query := T "birthday" in
  let g : rng := fun i => (7 * i + 5)%nat in
  NoDup foods
  ∧ (∀ item, item ∈ foods →
       ¬ matches_keyword (H := Runtime.builtins)
           (food_keywords (H := Runtime.builtins) query) item)
  ∧ ∃ s g',
      create_fallback_suggestions (H := Runtime.builtins) query foods [] g
      = Return (s, g')
      ∧ length (food_items s) = Nat.min 3 (length foods)
      ∧ NoDup (food_items s)
      ∧ food_items s ⊆ foods.
Proof.
  intros foods query g.
  assert (Hnd : NoDup foods) by (by apply (bool_decide_unpack _)).
  assert (Hno : ∀ item, item ∈ foods →
            ¬ matches_keyword (H := Runtime.builtins)
                (food_keywords (H := Runtime.builtins) query) item).
  { intros item Hitem (kw & Hkw & Hm).
    repeat (apply elem_of_cons in Hitem as [->|Hitem]);
      [..|by apply elem_of_nil in Hitem];
      repeat (apply elem_of_cons in Hkw as [->|Hkw]);
      try discriminate Hm; by apply elem_of_nil in Hkw. }
  split; [exact Hnd|]. split; [exact Hno|].
  exact (fallback_random_draw (H := Runtime.builtins) query foods [] g Hnd Hno).
Defined.

(** ** Catalog search, beyond soundness *)

Section MoreCatalogProperties.
Context `{Builtins}.

Lemma insert_row_Permutation (row : menu_item) (sorted : list menu_item) :
  insert_row row sorted ≡ₚ row :: sorted.
Proof.
  induction sorted as [|r rest IH]; cbn; [done|].
  destruct (review_before r row); [|done].
  rewrite IH. apply Permutation_swap.
Qed.

Lemma order_by_review_Permutation (rows : list menu_item) :
  order_by_review rows ≡ₚ rows.
Proof.
  induction rows as [|r rows IH]; cbn; [done|].
  by rewrite insert_row_Permutation, IH.
Qed.

(** The rows the statement leaves out are rated no higher than the rows
    it returns. *)
Lemma select_top3_best (table : list menu_item) (item : text) :
  let matching := List.filter (name_matches item) table in
  ∃ rest,
    select_top3 table item ++ rest ≡ₚ matching
    ∧ length (select_top3 table item) = Nat.min 3 (length matching)
    ∧ ∀ row row', row ∈ select_top3 table item → row' ∈ rest →
                  review_order row row'.
Proof.
  intros matching. unfold select_top3. fold matching.
  exists (drop 3 (order_by_review matching)). split_and!.
  - by rewrite take_drop, order_by_review_Permutation.
  - by rewrite length_take, (Permutation_length (order_by_review_Permutation _)).
  - intros row row' Hrow Hrow'.
    pose proof (order_by_review_sorted matching) as Hsorted.
    rewrite <- (take_drop 3 (order_by_review matching)) in Hsorted.
    by eapply StronglySorted_app_1_elem_of.
Qed.

(** A statement that fails ends the loop with an exception. *)
Lemma run_queries_None (db : database) (k : nat) (items : list text)
  (m m' : gmap text (list menu_item)) :
  run_queries db k items m = (m', None) →
  ∀ i item, items !! i = Some item → execute_error db (k + i) item = None.
Proof.
  revert k m. induction items as [|a items IH]; intros k m; cbn.
  - by intros _ i item Hi.
  - destruct (execute_error db k a) eqn:He; [done|]. intros Hrun [|i] item.
    + cbn. intros [= <-]. by rewrite Nat.add_0_r.
    + cbn. intros Hi. rewrite <- Nat.add_succ_comm. by eapply IH.
Qed.

(** When no statement fails, the loop runs to its end. *)
Lemma run_queries_runs (db : database) (k : nat) (items : list text)
  (m : gmap text (list menu_item)) :
  (∀ i item, items !! i = Some item → execute_error db (k + i) item = None) →
  ∃ m', run_queries db k items m = (m', None).
Proof.
  revert k m. induction items as [|a items IH]; intros k m Hok; cbn; [eauto|].
  pose proof (Hok O a eq_refl) as Ha. rewrite Nat.add_0_r in Ha. rewrite Ha.
  apply IH. intros i item Hi. rewrite Nat.add_succ_comm. by apply (Hok (S i)).
Qed.

Lemma run_queries_keys (db : database) (k : nat) (items : list text)
  (m m' : gmap text (list menu_item)) (oe : option exn) (key : text) :
  run_queries db k items m = (m', oe) →
  is_Some (m' !! key) → key ∈ items ∨ is_Some (m !! key).
Proof.
  revert k m. induction items as [|a items IH]; intros k m; cbn.
  - intros [= <- _]. by right.
  - destruct (execute_error db k a); [intros [= <- _]; by right|].
    intros Hrun Hkey. destruct (IH _ _ Hrun Hkey) as [Hin|Hin]; [left; by right|].
    destruct (decide (key = a)) as [->|Hne]; [left; left|].
    right. by rewrite lookup_insert_ne in Hin.
Qed.

Lemma select_top3_lower (table : list menu_item) (item1 item2 : text) :
  sql_lower item1 = sql_lower item2 →
  select_top3 table item1 = select_top3 table item2.
Proof.
  intros Hlow. unfold select_top3. do 2 f_equal.
  apply filter_ext. intros row. unfold name_matches. by rewrite Hlow.
Qed.

(** The dict holds the rows of the statement for every name, or no row
    for every name. *)
Lemma fetch_food_search_results_uniform (db : database)
  (item_list : list text) :
  (∀ item, item ∈ item_list →
     fetch_food_search_results db item_list !! item
     = Some (select_top3 (menu_items db) item))
  ∨ (∀ item, item ∈ item_list →
       fetch_food_search_results db item_list !! item = Some []).
Proof.
  unfold fetch_food_search_results. destruct (reachable db).
  - destruct (run_queries db O item_list ∅) as [m [e|]] eqn:Hrun.
    + right. intros item Hin. by rewrite lookup_reset, bool_decide_eq_true_2.
    + left. intros item Hin.
      by rewrite (lookup_run_queries _ _ _ _ _ _ Hrun), bool_decide_eq_true_2.
  - right. intros item Hin. by rewrite lookup_reset, bool_decide_eq_true_2.
Qed.

End MoreCatalogProperties.

(** X8. The keys of the dict [fetch_food_search_results] returns are the
    names of its argument and no other, whether the database can be
    reached or not and whether a statement fails or not. *)
Theorem fetch_food_search_results_keys `{Builtins} (db : database)
  (item_list : list text) (key : text) :
  is_Some (fetch_food_search_results db item_list !! key) ↔ key ∈ item_list.
Proof.
  unfold fetch_food_search_results. destruct (reachable db).
  - destruct (run_queries db O item_list ∅) as [m [e|]] eqn:Hrun.
    + rewrite lookup_reset. case_bool_decide as Hin; [by split; eauto|].
      split; [|done]. intros Hkey.
      destruct (run_queries_keys _ _ _ _ _ _ _ Hrun Hkey) as [?|Hempty];
        [done|].
      rewrite lookup_empty in Hempty. by destruct Hempty.
    + rewrite (lookup_run_queries _ _ _ _ _ _ Hrun).
      case_bool_decide as Hin; [by split; eauto|].
      rewrite lookup_empty. split; [by intros [? ?] | done].
  - rewrite lookup_reset. case_bool_decide as Hin; [by split; eauto|].
    rewrite lookup_empty. split; [by intros [? ?] | done].
Qed.

(** X9. When the database cannot be reached, or one statement of the
    loop fails, every name of the list is mapped to the empty list: the
    rows fetched before the failure are dropped. *)
Theorem fetch_food_search_results_failure `{Builtins} (db : database)
  (item_list : list text) :
  reachable db = false
  ∨ (∃ i item, item_list !! i = Some item
               ∧ is_Some (execute_error db i item)) →
  ∀ key, key ∈ item_list →
         fetch_food_search_results db item_list !! key = Some [].
Proof.
  intros Hfail key Hkey. unfold fetch_food_search_results.
  destruct (reachable db) eqn:Hr.
  - destruct Hfail as [?|(i & item & Hi & He)]; [done|].
    destruct (run_queries db O item_list ∅) as [m [e|]] eqn:Hrun.
    + by rewrite lookup_reset, bool_decide_eq_true_2.
    + pose proof (run_queries_None _ _ _ _ _ Hrun i item Hi) as Hnone.
      cbn in Hnone. rewrite Hnone in He. by destruct He.
  - by rewrite lookup_reset, bool_decide_eq_true_2.
Qed.

Lemma fetch_food_search_results_failure_witness :
  let row n r := {| name := Some n; review := r; columns := [] |} in
  let db :=
    {| reachable := true;
       menu_items := [row (T "Veggie Pizza") (Some (4 # 1));
                      row (T "Cake") (Some (5 # 1))];
       execute_error := fun i _ =>
         if (i =? 1)%nat
         then Some (Exn (T "OperationalError") (T "server closed the connection"))
         else None |} in
  (∃ i item, [T "Cake"; T "Veggie Pizza"] !! i = Some item
             ∧ is_Some (execute_error db i item))
  ∧ ∀ key, key ∈ [T "Cake"; T "Veggie Pizza"] →
           fetch_food_search_results (H := Runtime.builtins) db
             [T "Cake"; T "Veggie Pizza"] !! key = Some [].
Proof.
  intros row db.
  assert (Hfail : ∃ i item, [T "Cake"; T "Veggie Pizza"] !! i = Some item
                            ∧ is_Some (execute_error db i item)).
  { exists 1%nat, (T "Veggie Pizza"). split; [reflexivity | by eexists]. }
  split; [exact Hfail|].
  exact (fetch_food_search_results_failure (H := Runtime.builtins) db
           [T "Cake"; T "Veggie Pizza"] (or_intror Hfail)).
Defined.

(** X10. When the database is reached and no statement fails, the rows
    under a name are the best rated of the rows of that name: all of them
    when there are at most three, three of them otherwise, and every row
    left out is rated no higher than every row returned, a row without
    rating counting below every rated row. *)
Theorem fetch_food_search_results_best `{Builtins} (db : database)
  (item_list : list text) (item : text) :
  reachable db = true →
  (∀ i name, item_list !! i = Some name → execute_error db i name = None) →
  item ∈ item_list →
  let matching := List.filter (name_matches item) (menu_items db) in
  ∃ rows rest,
    fetch_food_search_results db item_list !! item = Some rows
    ∧ rows ++ rest ≡ₚ matching
    ∧ length rows = Nat.min 3 (length matching)
    ∧ ∀ row row', row ∈ rows → row' ∈ rest → review_order row row'.
Proof.
  intros Hr Hok Hitem matching.
  destruct (select_top3_best (menu_items db) item) as (rest & Hperm & Hlen & Hbest).
  exists (select_top3 (menu_items db) item), rest. split; [|done].
  unfold fetch_food_search_results. rewrite Hr.
  destruct (run_queries_runs db O item_list ∅) as [m Hrun]; [done|].
  rewrite Hrun, (lookup_run_queries _ _ _ _ _ _ Hrun).
  by rewrite bool_decide_eq_true_2.
Qed.

Lemma fetch_food_search_results_best_witness :
  let row n r := {| name := Some n; review := r; columns := [] |} in
  let db :=
    {| reachable := true;
       menu_items := [row (T "Veggie Pizza") (Some (4 # 1));
                      row (T "veggie pizza") None;
                      row (T "Cake") (Some (5 # 1));
                      row (T "VEGGIE PIZZA") (Some (9 # 2));
                      row (T "Veggie Pizza") (Some (3 # 1));
                      row (T "Veggie pizza") (Some (7 # 2))];
       execute_error := fun _ _ => None |} in
  let matching :=
    List.filter (name_matches (H := Runtime.builtins) (T "Veggie Pizza"))
      (menu_items db) in
  reachable db = true
  ∧ T "Veggie Pizza" ∈ [T "Cake"; T "Veggie Pizza"]
  ∧ length matching = 5%nat
  ∧ ∃ rows rest,
      fetch_food_search_results (H := Runtime.builtins) db
        [T "Cake"; T "Veggie Pizza"] !! T "Veggie Pizza" = Some rows
      ∧ rows ++ rest ≡ₚ matching
      ∧ length rows = Nat.min 3 (length matching)
      ∧ ∀ row row', row ∈ rows → row' ∈ rest → review_order row row'.
Proof.
  intros row db matching.
  assert (Hin : T "Veggie Pizza" ∈ [T "Cake"; T "Veggie Pizza"])
    by (right; left).
  split; [reflexivity|]. split; [exact Hin|]. split; [reflexivity|].
  exact (fetch_food_search_results_best (H := Runtime.builtins) db
           [T "Cake"; T "Veggie Pizza"] (T "Veggie Pizza") eq_refl
           (fun _ _ _ => eq_refl) Hin).
Defined.

(** X11. The catalog search is blind to case: two names of the list
    that are equal after [LOWER] are mapped to the same rows. *)
Theorem fetch_food_search_results_case `{Builtins} (db : database)
  (item_list : list text) (item1 item2 : text) :
  item1 ∈ item_list → item2 ∈ item_list →
  sql_lower item1 = sql_lower item2 →
  fetch_food_search_results db item_list !! item1
  = fetch_food_search_results db item_list !! item2.
Proof.
  intros H1 H2 Hlow.
  destruct (fetch_food_search_results_uniform db item_list) as [Hall|Hall];
    rewrite (Hall item1 H1), (Hall item2 H2); [|done].
  by rewrite (select_top3_lower _ _ _ Hlow).
Qed.

Lemma fetch_food_search_results_case_witness :
  let row n r := {| name := Some n; review := r; columns := [] |} in
  let db :=
    {| reachable := true;
       menu_items := [row (T "Veggie Pizza") (Some (4 # 1));
                      row (T "Cake") (Some (5 # 1));
                      row (T "VEGGIE PIZZA") (Some (9 # 2))];
       execute_error := fun _ _ => None |} in
  let items := [T "veggie pizza"; T "Cake"; T "Veggie Pizza"] in
  T "veggie pizza" ∈ items ∧ T "Veggie Pizza" ∈ items
  ∧ Runtime.lower (T "veggie pizza") = Runtime.lower (T "Veggie Pizza")
  ∧ fetch_food_search_results (H := Runtime.builtins) db items
      !! T "veggie pizza"
    = Some [row (T "VEGGIE PIZZA") (Some (9 # 2));
            row (T "Veggie Pizza") (Some (4 # 1))]
  ∧ fetch_food_search_results (H := Runtime.builtins) db items
      !! T "veggie pizza"
    = fetch_food_search_results (H := Runtime.builtins) db items
        !! T "Veggie Pizza".
Proof.
  intros row db items.
  assert (H1 : T "veggie pizza" ∈ items) by left.
  assert (H2 : T "Veggie Pizza" ∈ items) by (right; right; left).
  split; [exact H1|]. split; [exact H2|]. split; [reflexivity|].
  split; [vm_compute; reflexivity|].
  exact (fetch_food_search_results_case (H := Runtime.builtins) db items
           (T "veggie pizza") (T "Veggie Pizza") H1 H2 eq_refl).
Defined.

(** ** Dicts as lists of items *)

Lemma dict_set_keys {V} (d : list (text * V)) (k : text) (v : V) :
  (dict_set d k v).*1 = if bool_decide (k ∈ d.*1) then d.*1 else d.*1 ++ [k].
Proof.
  induction d as [|[k' v'] d IH]; cbn [dict_set fmap list_fmap fst]; [done|].
  destruct (decide (k = k')) as [->|Hne].
  - rewrite (bool_decide_eq_true_2 (k' = k')) by done. cbn.
    by rewrite bool_decide_eq_true_2 by left.
  - rewrite (bool_decide_eq_false_2 (k = k')) by done. cbn. rewrite IH.
    case_bool_decide as Hin.
    + by rewrite bool_decide_eq_true_2 by (by right).
    + rewrite bool_decide_eq_false_2; [done|].
      by intros [?|?]%elem_of_cons.
Qed.

Lemma dict_get_set {V} (d : list (text * V)) (k k' : text) (v : V) :
  dict_get (dict_set d k v) k'
  = if bool_decide (k' = k) then Some v else dict_get d k'.
Proof.
  induction d as [|[k0 v0] d IH]; cbn.
  - by case_bool_decide.
  - destruct (decide (k = k0)) as [->|Hne].
    + rewrite (bool_decide_eq_true_2 (k0 = k0)) by done. cbn.
      by case_bool_decide.
    + rewrite (bool_decide_eq_false_2 (k = k0)) by done. cbn. rewrite IH.
      repeat case_bool_decide; congruence.
Qed.

(** ** Product search *)

Section ProductSearchProperties.
Context {world : Type}.
Variable SERVER_URL : option text.
Variable http_get : world -> text -> result search_reply * world.

Lemma search_entry_found (w : world) (product : text) :
  found_for SERVER_URL http_get product
    (search_entry (fst (http_get w (search_url SERVER_URL product)))).
Proof.
  unfold found_for, search_entry.
  destruct (http_get w _) as [[r|e] w'] eqn:Hget; cbn; [|by left].
  case_bool_decide as Hs; [|by left].
  destruct (search_body r) as [v|e] eqn:Hb; [|by left].
  right. exists w, r. by rewrite Hget.
Qed.

Lemma search_loop_keys (st : search_run world) (product_list : list text) :
  (search_results
     (foldl (search_step SERVER_URL http_get) st product_list)).*1
  = fold_left (fun d x => if bool_decide (x ∈ d) then d else d ++ [x])
      product_list (search_results st).*1.
Proof.
  revert st. induction product_list as [|p l IH]; intros st; cbn; [done|].
  rewrite IH. f_equal. unfold search_step.
  destruct (http_get _ _) as [outcome w']. cbn. apply dict_set_keys.
Qed.

Lemma search_loop_requested (st : search_run world)
  (product_list : list text) :
  requested (foldl (search_step SERVER_URL http_get) st product_list)
  = requested st ++ (search_url SERVER_URL <$> product_list).
Proof.
  revert st. induction product_list as [|p l IH]; intros st; cbn.
  - by rewrite app_nil_r.
  - rewrite IH. unfold search_step.
    destruct (http_get _ _) as [outcome w']. cbn. by rewrite <- app_assoc.
Qed.

Lemma search_loop_found (st : search_run world) (product_list : list text)
  (product : text) :
  (product ∈ product_list
   ∨ ∃ v, dict_get (search_results st) product = Some v ∧ found_for SERVER_URL http_get product v) →
  ∃ v, dict_get
         (search_results
            (foldl (search_step SERVER_URL http_get) st product_list)) product
       = Some v
       ∧ found_for SERVER_URL http_get product v.
Proof.
  revert st. induction product_list as [|p l IH]; intros st; cbn.
  - by intros [?%elem_of_nil|?].
  - intros Hp. apply IH.
    destruct (decide (product ∈ l)) as [?|Hl]; [by left|]. right.
    unfold search_step.
    destruct (http_get (search_backend st) (search_url SERVER_URL p))
      as [outcome w'] eqn:Hget. cbn.
    rewrite dict_get_set. case_bool_decide as Heq.
    + subst p. eexists. split; [done|].
      replace outcome
        with (fst (http_get (search_backend st)
                     (search_url SERVER_URL product)))
        by (by rewrite Hget).
      apply search_entry_found.
    + by destruct Hp as [[?|?]%elem_of_cons|?].
Qed.

End ProductSearchProperties.

(** X12. [fetch_product_search_results] sends one request per element
    of its list, in the order of the list, to the URL made of
    [SERVER_URL], [/search/product/] and the name as it is; a name that
    occurs twice is requested twice.  The dict it returns has one key
    per distinct name, in the order of the first occurrences. *)
Theorem fetch_product_search_results_keys {world : Type}
  (SERVER_URL : option text)
  (http_get : world -> text -> result search_reply * world) (w : world)
  (product_list : list text) :
  let run := fetch_product_search_results SERVER_URL http_get w product_list in
  (search_results run).*1 = fromkeys product_list
  ∧ requested run = (search_url SERVER_URL <$> product_list).
Proof.
  split.
  - apply (search_loop_keys SERVER_URL http_get).
  - apply (search_loop_requested SERVER_URL http_get).
Qed.

(** X13. Every name of the list has an entry in the dict that
    [fetch_product_search_results] returns, and the entry is the empty
    list or the decoded body of a reply of status 200 to the request for
    that name. *)
Theorem fetch_product_search_results_entries {world : Type}
  (SERVER_URL : option text)
  (http_get : world -> text -> result search_reply * world) (w : world)
  (product_list : list text) (product : text) :
  product ∈ product_list →
  ∃ v,
    dict_get
      (search_results
         (fetch_product_search_results SERVER_URL http_get w product_list))
      product = Some v
    ∧ (v = JList []
       ∨ ∃ w0 r,
           fst (http_get w0 (search_url SERVER_URL product)) = Return r
           ∧ search_status r = 200%nat ∧ search_body r = Return v).
Proof.
  intros Hp.
  apply (search_loop_found SERVER_URL http_get). by left.
Qed.

Lemma fetch_product_search_results_entries_witness :
  let http_get : nat -> text -> result search_reply * nat :=
    fun n url =>
      (if Str.endswith (T "Poppers") url
       then Return {| search_status := 200;
                      search_body := Return (JList [JInt (Z.of_nat n)]) |}
       else if Str.endswith (T "Lights") url
       then Return {| search_status := 200;
                      search_body :=
                        Raise (Exn (T "JSONDecodeError") (T "Expecting value")) |}
       else Return {| search_status := 404; search_body := Return JNull |},
       S n) in
  let products := [T "Party Poppers"; T "Towels"; T "LED Lights";
                   T "Party Poppers"] in
  fetch_product_search_results (Some (T "http://shop")) http_get O products
  = {| search_results := [(T "Party Poppers", JList [JInt 3]);
                          (T "Towels", JList []);
                          (T "LED Lights", JList [])];
       requested := [T "http://shop/search/product/Party Poppers";
                     T "http://shop/search/product/Towels";
                     T "http://shop/search/product/LED Lights";
                     T "http://shop/search/product/Party Poppers"];
       search_backend := 4%nat |}
  ∧ T "Party Poppers" ∈ products
  ∧ ∃ v,
      dict_get
        (search_results
           (fetch_product_search_results (Some (T "http://shop")) http_get O
              products))
        (T "Party Poppers") = Some v
      ∧ (v = JList []
         ∨ ∃ w0 r,
             fst (http_get w0
                    (search_url (Some (T "http://shop")) (T "Party Poppers")))
             = Return r
             ∧ search_status r = 200%nat ∧ search_body r = Return v).
Proof.
  intros http_get products.
  assert (Hin : T "Party Poppers" ∈ products) by left.
  split; [vm_compute; reflexivity|]. split; [exact Hin|].
  exact (fetch_product_search_results_entries (Some (T "http://shop"))
           http_get O products (T "Party Poppers") Hin).
Defined.

(** X14. When no request is answered with status 200, each one raising
    or being answered with another status, [fetch_product_search_results]
    maps every name of the list to the empty list. *)
Theorem fetch_product_search_results_outage {world : Type}
  (SERVER_URL : option text)
  (http_get : world -> text -> result search_reply * world) (w : world)
  (product_list : list text) (product : text) :
  (∀ w0 url r, fst (http_get w0 url) = Return r → search_status r ≠ 200%nat) →
  product ∈ product_list →
  dict_get
    (search_results
       (fetch_product_search_results SERVER_URL http_get w product_list))
    product = Some (JList []).
Proof.
  intros Hdown Hp.
  destruct (search_loop_found SERVER_URL http_get
              {| search_results := []; requested := []; search_backend := w |}
              product_list product (or_introl Hp))
    as (v & Hv & [->|(w0 & r & Hr & Hs & _)]); [done|].
  by apply Hdown in Hr.
Qed.

Lemma fetch_product_search_results_outage_witness :
  let http_get : nat -> text -> result search_reply * nat :=
    fun n url =>
      (if Nat.even n
       then Raise (Exn (T "ConnectionError") (T "Connection refused"))
       else Return {| search_status := 503; search_body := Return JNull |},
       S n) in
  let products := [T "Party Poppers"; T "Towels"] in
  (∀ w0 url r, fst (http_get w0 url) = Return r → search_status r ≠ 200%nat)
  ∧ T "Towels" ∈ products
  ∧ dict_get
      (search_results
         (fetch_product_search_results None http_get O products))
      (T "Towels") = Some (JList []).
Proof.
  intros http_get products.
  assert (Hdown : ∀ w0 url r,
            fst (http_get w0 url) = Return r → search_status r ≠ 200%nat).
  { intros w0 url r. unfold http_get. cbn.
    destruct (Nat.even w0); [done|]. by intros [= <-]. }
  assert (Hin : T "Towels" ∈ products) by (right; left).
  split; [exact Hdown|]. split; [exact Hin|].
  exact (fetch_product_search_results_outage None http_get O products
           (T "Towels") Hdown Hin).
Defined.

(** ** The refinement route, request by request *)

Section MoreRefinementProperties.
Context `{Builtins}.

(** What the route does to [SESSION_CONTEXT]: nothing, or one update of
    the session the request names, by the user turn alone or by the user
    turn, the revision and the assistant turn. *)
Lemma continue_chat_store (client : backend) (store : gmap text context)
  (data : json) :
  snd (continue_chat client store data) = store
  ∨ ∃ d sid followup_message ctx ctx',
      data = JDict d
      ∧ dict_get d (T "session_id") = Some (JStr sid)
      ∧ dict_get d (T "message") = Some followup_message
      ∧ store !! sid = Some ctx
      ∧ snd (continue_chat client store data) = <[sid := ctx']> store
      ∧ let ctx1 := append_turn ctx (message "user" followup_message) in
        ctx' = ctx1
        ∨ ∃ revised revised_data,
            ctx' = append_turn (set_final_selection ctx1 revised_data)
                     (message "assistant" (JStr revised)).
Proof.
  unfold continue_chat.
  destruct data as [| | | | | |d]; try (by left).
  unfold py_get. cbn -[revise append_turn set_final_selection jsonify T].
  destruct (dict_get d (T "session_id")) as [session_id|] eqn:Hsid;
    cbn -[revise append_turn set_final_selection jsonify T]; [|by left].
  destruct (dict_get d (T "message")) as [followup_message|] eqn:Hmsg;
    cbn -[revise append_turn set_final_selection jsonify T];
    [|rewrite orb_true_r; by left].
  destruct (negb (truthy session_id) || negb (truthy followup_message));
    [by left|].
  destruct session_id as [| | | |sid| |]; try (by left).
  cbn -[revise append_turn set_final_selection jsonify T].
  destruct (store !! sid) as [ctx|] eqn:Hctx; [|by left].
  right.
  destruct (revise client _) as [[revised revised_data]|e];
    cbn -[append_turn set_final_selection jsonify T];
    eexists d, sid, followup_message, ctx, _; split_and!; eauto.
Qed.

End MoreRefinementProperties.

(** X15. A [/chat/continue] request without [session_id] or without
    [message], or with a false value under one of them (null, the empty
    string, zero, an empty list or dict), is answered with status 400 and
    the error [Session ID and message are required], whatever the
    backend would answer; no session changes. *)
Theorem continue_chat_requires_fields `{Builtins} (client : backend)
  (store : gmap text context) (d : list (text * json)) :
  truthy (default JNull (dict_get d (T "session_id"))) = false
  ∨ truthy (default JNull (dict_get d (T "message"))) = false →
  continue_chat client store (JDict d)
  = (Return {| status := 400;
               body := JDict [(T "error",
                               JStr (T "Session ID and message are required"))] |},
     store).
Proof.
  intros Hmissing. unfold continue_chat, py_get.
  cbn -[revise append_turn set_final_selection T].
  by destruct Hmissing as [-> | ->]; rewrite ?orb_true_r.
Qed.

Lemma continue_chat_requires_fields_witness :
  let client : backend := fun _ => Return [Some (J "{}")] in
  let ctx :=
    {| chat_history := [message "user" (JStr (T "birthday party"))];
       session_food_items := JList []; session_products := JList [];
       food_search_results := ∅; product_search_results := ∅;
       final_selection := empty_selection |} in
  let store : gmap text context := {[ T "s1" := ctx ]} in
  let d := [(T "session_id", JStr (T "s1")); (T "message", JStr [])] in
  truthy (H := Runtime.builtins) (default JNull (dict_get d (T "message")))
  = false
  ∧ continue_chat (H := Runtime.builtins) client store (JDict d)
    = (Return {| status := 400;
                 body := JDict [(T "error",
                                 JStr (T "Session ID and message are required"))] |},
       store).
Proof.
  intros client ctx store d. split; [reflexivity|].
  apply (continue_chat_requires_fields (H := Runtime.builtins) client store d).
  right. reflexivity.
Defined.

(** X16. A [/chat/continue] request with a message and a [session_id]
    that is no key of [SESSION_CONTEXT], be it a string without session
    or a true number or boolean, is answered with status 404 and the
    error [Invalid session ID]; no session changes. *)
Theorem continue_chat_unknown_session `{Builtins} (client : backend)
  (store : gmap text context) (d : list (text * json))
  (session_id followup_message : json) :
  dict_get d (T "session_id") = Some session_id →
  dict_get d (T "message") = Some followup_message →
  truthy session_id = true → truthy followup_message = true →
  match session_id with
  | JStr sid => store !! sid = None
  | JList _ | JDict _ => False
  | _ => True
  end →
  continue_chat client store (JDict d)
  = (Return {| status := 404;
               body := JDict [(T "error", JStr (T "Invalid session ID"))] |},
     store).
Proof.
  intros Hsid Hmsg Hs Hm Hunknown. unfold continue_chat, py_get.
  rewrite Hsid, Hmsg. cbn -[revise append_turn set_final_selection T].
  rewrite Hs, Hm. cbn -[revise append_turn set_final_selection T].
  destruct session_id as [| | | |sid| |]; try done.
  cbn -[revise append_turn set_final_selection T]. by rewrite Hunknown.
Qed.

Lemma continue_chat_unknown_session_witness :
  let client : backend := fun _ => Return [Some (J "{}")] in
  let ctx :=
    {| chat_history := [message "user" (JStr (T "birthday party"))];
       session_food_items := JList []; session_products := JList [];
       food_search_results := ∅; product_search_results := ∅;
       final_selection := empty_selection |} in
  let store : gmap text context := {[ T "s1" := ctx ]} in
  let d := [(T "session_id", JStr (T "s2"));
            (T "message", JStr (T "no onions please"))] in
  store !! T "s2" = None
  ∧ continue_chat (H := Runtime.builtins) client store (JDict d)
    = (Return {| status := 404;
                 body := JDict [(T "error", JStr (T "Invalid session ID"))] |},
       store).
Proof.
  intros client ctx store d.
  assert (Hnone : store !! T "s2" = None) by reflexivity.
  split; [exact Hnone|].
  exact (continue_chat_unknown_session (H := Runtime.builtins) client store d
           (JStr (T "s2")) (JStr (T "no onions please"))
           eq_refl eq_refl eq_refl eq_refl Hnone).
Defined.

(** X17. A [/chat/continue] request with a message and a [session_id]
    that is a non-empty list or dict makes the route raise [TypeError]
    for an unhashable type: no error body is returned, and no session
    changes. *)
Theorem continue_chat_unhashable_session `{Builtins} (client : backend)
  (store : gmap text context) (d : list (text * json))
  (session_id followup_message : json) :
  dict_get d (T "session_id") = Some session_id →
  dict_get d (T "message") = Some followup_message →
  truthy session_id = true → truthy followup_message = true →
  (∃ items, session_id = JList items) ∨ (∃ pairs, session_id = JDict pairs) →
  continue_chat client store (JDict d)
  = (Raise (TypeError (T "unhashable type: '"
                       ++ T (type_name (Some session_id)) ++ T "'")),
     store).
Proof.
  intros Hsid Hmsg Hs Hm Hshape. unfold continue_chat, py_get.
  rewrite Hsid, Hmsg. cbn -[revise append_turn set_final_selection T].
  rewrite Hs, Hm. cbn -[revise append_turn set_final_selection T].
  by destruct Hshape as [[items ->]|[pairs ->]].
Qed.

Lemma continue_chat_unhashable_session_witness :
  let client : backend := fun _ => Return [Some (J "{}")] in
  let store : gmap text context := ∅ in
  let d := [(T "session_id", JList [JStr (T "s1")]);
            (T "message", JStr (T "no onions please"))] in
  continue_chat (H := Runtime.builtins) client store (JDict d)
  = (Raise (Exn (T "TypeError") (T "unhashable type: 'list'")), store).
Proof.
  intros client store d.
  exact (continue_chat_unhashable_session (H := Runtime.builtins) client store
           d (JList [JStr (T "s1")]) (JStr (T "no onions please"))
           eq_refl eq_refl eq_refl eq_refl
           (or_introl (ex_intro _ [JStr (T "s1")] eq_refl))).
Defined.

(** X18. For every request and every backend, [/chat/continue] creates
    no session and removes none; the chat history of a session only
    grows at its end; the suggested names and the search results of a
    session stay as they are; and a session other than the one the
    request names stays as it is. *)
Theorem continue_chat_frame `{Builtins} (client : backend)
  (store : gmap text context) (data : json) :
  let store' := snd (continue_chat client store data) in
  (∀ sid, store !! sid = None → store' !! sid = None)
  ∧ (∀ sid ctx, store !! sid = Some ctx →
       ∃ ctx',
         store' !! sid = Some ctx'
         ∧ chat_history ctx `prefix_of` chat_history ctx'
         ∧ session_food_items ctx' = session_food_items ctx
         ∧ session_products ctx' = session_products ctx
         ∧ food_search_results ctx' = food_search_results ctx
         ∧ product_search_results ctx' = product_search_results ctx
         ∧ (py_get data "session_id" JNull ≠ Return (JStr sid) → ctx' = ctx)).
Proof.
  intros store'. subst store'.
  destruct (continue_chat_store client store data)
    as [-> | (d & sid0 & msg & ctx0 & ctx0' & -> & Hsid & Hmsg & Hctx & -> & Hupd)].
  - split; [done|]. intros sid ctx Hctx. exists ctx. split_and!; done.
  - split.
    + intros sid Hnone. rewrite lookup_insert_ne; [done|]. congruence.
    + intros sid ctx Hsome. destruct (decide (sid = sid0)) as [->|Hne].
      * rewrite lookup_insert_eq. exists ctx0'.
        assert (ctx = ctx0) as -> by congruence.
        assert (Hnames : py_get (JDict d) "session_id" JNull
                         = Return (JStr sid0))
          by (unfold py_get; by rewrite Hsid).
        split; [done|].
        destruct Hupd as [-> | (revised & revised_data & ->)];
          cbn [append_turn set_final_selection chat_history session_food_items
               session_products food_search_results product_search_results].
        -- split_and!; try done. by apply prefix_app_r.
        -- split_and!; try done.
           rewrite <- app_assoc. by apply prefix_app_r.
      * rewrite lookup_insert_ne by done. exists ctx. split_and!; done.
Qed.

(** X19. Two successful turns on one session compose.  The request of
    the second turn to the backend holds the system prompt, the history
    with both messages of the first turn, the second message of the user
    and the first revision as current selection; after both turns the
    history of the session is the old history followed by the four
    messages and its final selection is the second revision. *)
Theorem continue_chat_two_turns `{Builtins} (client : backend)
  (store : gmap text context) (d1 d2 : list (text * json)) (sid : text)
  (message1 message2 : json) (ctx : context)
  (content1 content2 : text) (rest1 rest2 : list (option text))
  (revision1 revision2 : json) :
  dict_get d1 (T "session_id") = Some (JStr sid) →
  dict_get d1 (T "message") = Some message1 →
  dict_get d2 (T "session_id") = Some (JStr sid) →
  dict_get d2 (T "message") = Some message2 →
  sid ≠ [] → truthy message1 = true → truthy message2 = true →
  store !! sid = Some ctx →
  let turn1 := [message "user" message1;
                message "assistant" (JStr (Str.strip content1))] in
  let request1 :=
    refinement_request (append_turn ctx (message "user" message1)) in
  let request2 :=
    {| model := llama_scout;
       messages :=
         [message "system" (JStr refinement_prompt)] ++ chat_history ctx
         ++ turn1 ++ [message "user" message2]
         ++ [message "user"
               (JStr (T "Current Selection:
" ++ dumps_indent2 revision1))];
       temperature := T "0.2";
       max_completion_tokens := 1024;
       top_p := T "1" |} in
  client request1 = Return (Some content1 :: rest1) →
  Json.loads (Str.strip content1) = Some revision1 →
  client request2 = Return (Some content2 :: rest2) →
  Json.loads (Str.strip content2) = Some revision2 →
  ∃ ctx',
    snd (continue_chat client
           (snd (continue_chat client store (JDict d1))) (JDict d2)) !! sid
    = Some ctx'
    ∧ chat_history ctx'
      = chat_history ctx ++ turn1
        ++ [message "user" message2;
            message "assistant" (JStr (Str.strip content2))]
    ∧ final_selection ctx' = revision2.
Proof.
  intros Hsid1 Hmsg1 Hsid2 Hmsg2 Hne Ht1 Ht2 Hctx turn1 request1 request2
    Hc1 Hj1 Hc2 Hj2.
  rewrite (continue_chat_known_session _ _ _ _ _ _ Hsid1 Hmsg1 Hne Ht1 Hctx).
  cbn zeta. fold request1.
  rewrite (revise_succeeds _ _ _ _ _ Hc1 Hj1). cbn [snd].
  set (ctx2 := append_turn _ (message "assistant" _)).
  rewrite (continue_chat_known_session _ _ _ _ _ ctx2 Hsid2 Hmsg2 Hne Ht2)
    by apply lookup_insert_eq.
  cbn zeta.
  assert (Hreq : refinement_request (append_turn ctx2 (message "user" message2))
                 = request2).
  { unfold refinement_request, request2, ctx2, turn1. cbn.
    f_equal. f_equal. rewrite <- !app_assoc. done. }
  rewrite (revise_succeeds _ _ content2 rest2 revision2)
    by (by rewrite ?Hreq).
  cbn [snd]. rewrite lookup_insert_eq. eexists. split; [reflexivity|].
  split; [|done]. unfold ctx2, turn1. cbn. by rewrite <- !app_assoc.
Qed.

Lemma continue_chat_two_turns_witness :
  let client : backend :=
    fun request =>
      if bool_decide (length (messages request) ≤ 4)%nat
      then Return [Some (J " {'food_selection': ['Cake'], 'product_selection': []} ")]
      else Return [Some (J "{'food_selection': [], 'product_selection': []}")] in
  let ctx :=
    {| chat_history := [message "user" (JStr (T "birthday party"))];
       session_food_items := JList []; session_products := JList [];
       food_search_results := ∅; product_search_results := ∅;
       final_selection := empty_selection |} in
  let store : gmap text context := {[ T "s1" := ctx ]} in
  let d1 := [(T "session_id", JStr (T "s1"));
             (T "message", JStr (T "add a cake"))] in
  let d2 := [(T "session_id", JStr (T "s1"));
             (T "message", JStr (T "drop everything"))] in
  ∃ ctx',
    snd (continue_chat (H := Runtime.builtins) client
           (snd (continue_chat (H := Runtime.builtins) client store (JDict d1)))
           (JDict d2)) !! T "s1"
    = Some ctx'
    ∧ chat_history ctx'
      = chat_history ctx
        ++ [message "user" (JStr (T "add a cake"));
            message "assistant"
              (JStr (J "{'food_selection': ['Cake'], 'product_selection': []}"))]
        ++ [message "user" (JStr (T "drop everything"));
            message "assistant"
              (JStr (J "{'food_selection': [], 'product_selection': []}"))]
    ∧ final_selection ctx' = empty_selection.
Proof.
  intros client ctx store d1 d2.
  exact (continue_chat_two_turns (H := Runtime.builtins) client store d1 d2
           (T "s1") (JStr (T "add a cake")) (JStr (T "drop everything")) ctx
           (J " {'food_selection': ['Cake'], 'product_selection': []} ")
           (J "{'food_selection': [], 'product_selection': []}") [] []
           (JDict [(T "food_selection", JList [JStr (T "Cake")]);
                   (T "product_selection", JList [])])
           empty_selection
           eq_refl eq_refl eq_refl eq_refl ltac:(discriminate) eq_refl eq_refl
           eq_refl eq_refl eq_refl eq_refl eq_refl).
Defined.

(** ** The cart route, item by item *)

Section MoreCartProperties.
Context `{Builtins} {world : Type}.
Variable cart_add : world -> json -> result http_reply * world.

(** A value that iterates over at least one item is true. *)
Lemma py_iter_truthy (v : json) (items : list json) :
  py_iter v = Return items → items ≠ [] → truthy v = true.
Proof.
  destruct v as [| | | |s|l|d]; try done; cbn; intros [= <-] Hne;
    apply negb_true_iff, bool_decide_eq_false_2; by intros ->.
Qed.

(** The loop over items whose payloads can be built: each payload is
    sent, in the order of the items, and each item is filed once. *)
Lemma cart_loop_app (st : cart_run) (before rest payloads : list json) :
  Forall2 (fun item payload => cart_payload item = Return payload)
    before payloads →
  ∃ st' added failed,
    cart_loop cart_add st (before ++ rest) = cart_loop cart_add st' rest
    ∧ posted st' = posted st ++ payloads
    ∧ added_items st' = added_items st ++ added
    ∧ failed_items st' = failed_items st ++ failed
    ∧ sublist added payloads
    ∧ (length added + length failed = length before)%nat
    ∧ Forall (fun entry => ∃ item reason,
                item ∈ before ∧ entry = failed_entry item reason) failed.
Proof.
  intros Hall. revert st.
  induction Hall as [|item p before payloads Hp _ IH]; intros st.
  - exists st, [], []. rewrite !app_nil_r. split_and!; done.
  - cbn [app cart_loop].
    destruct (cart_step cart_add st item) as [st1|e] eqn:Hstep.
    + apply cart_step_files_item in Hstep
        as (p' & Hp' & Hposted & Hfiled).
      assert (p' = p) as -> by congruence.
      destruct (IH st1) as (st' & a & f & -> & Hpo & Ha & Hf & Hsub & Hlen & Hsh).
      assert (Hsh' : Forall (fun entry => ∃ item0 reason,
                       item0 ∈ item :: before
                       ∧ entry = failed_entry item0 reason) f).
      { eapply Forall_impl; [exact Hsh|].
        intros entry (item0 & reason & Hin & ->). exists item0, reason.
        split; [by right | done]. }
      destruct Hfiled as [[Ha1 Hf1] | [Ha1 [reason Hf1]]].
      * exists st', (p :: a), f. rewrite Hpo, Ha, Hf, Hposted, Ha1, Hf1.
        rewrite <- !app_assoc. split_and!; try done.
        -- by apply sublist_skip.
        -- cbn. lia.
      * exists st', a, (failed_entry item reason :: f).
        rewrite Hpo, Ha, Hf, Hposted, Ha1, Hf1.
        rewrite <- !app_assoc. split_and!; try done.
        -- by apply sublist_cons.
        -- cbn. lia.
        -- constructor; [|done]. exists item, reason. split; [left | done].
    + unfold cart_step in Hstep. rewrite Hp in Hstep. cbn in Hstep.
      by destruct (cart_add (commerce st) p) as [[?|?] ?].
Qed.

End MoreCartProperties.

(** X20. A [/cart/add-all] request without [food_selection], or with a
    false value under it (null, an empty list, ...), is answered with
    status 400 and the error [Missing food_selection or user_id]; nothing
    is sent to the commerce backend. *)
Theorem add_items_to_cart_requires_selection `{Builtins} {world : Type}
  (cart_add : world -> json -> result http_reply * world) (w : world)
  (d : list (text * json)) :
  truthy (default JNull (dict_get d (T "food_selection"))) = false →
  add_items_to_cart cart_add w (JDict d)
  = (Return {| status := 400;
               body := JDict [(T "error",
                               JStr (T "Missing food_selection or user_id"))] |},
     [], w).
Proof.
  intros Hmissing. unfold add_items_to_cart, py_get. by rewrite Hmissing.
Qed.

Lemma add_items_to_cart_requires_selection_witness :
  let cart_add : nat -> json -> result http_reply * nat :=
    fun n _ => (Return {| status_code := 200; reply_text := T "ok" |}, S n) in
  let d := [(T "user_id", JStr (T "someone")); (T "food_selection", JList [])] in
  truthy (H := Runtime.builtins)
    (default JNull (dict_get d (T "food_selection"))) = false
  ∧ add_items_to_cart (H := Runtime.builtins) cart_add O (JDict d)
    = (Return {| status := 400;
                 body := JDict [(T "error",
                                 JStr (T "Missing food_selection or user_id"))] |},
       [], O).
Proof.
  intros cart_add d. split; [reflexivity|].
  exact (add_items_to_cart_requires_selection (H := Runtime.builtins) cart_add
           O d eq_refl).
Defined.

(** X21. When the payload of every item of a non-empty list can be
    built, [/cart/add-all] sends one request per item, with the payload
    of the item and in the order of the list, whatever the commerce
    backend answers or raises; it answers with status 200 and
    [completed]; the payloads under [added] are among those sent, in
    their order; every entry under [failed] holds an item of the list and
    a reason; and [added] and [failed] together have one entry per
    item. *)
Theorem add_items_to_cart_posts_each_item `{Builtins} {world : Type}
  (cart_add : world -> json -> result http_reply * world) (w : world)
  (d : list (text * json)) (items payloads : list json) :
  dict_get d (T "food_selection") = Some (JList items) →
  items ≠ [] →
  Forall2 (fun item payload => cart_payload item = Return payload)
    items payloads →
  ∃ added failed w',
    add_items_to_cart cart_add w (JDict d)
    = (Return {| status := 200;
                 body := JDict [(T "status", JStr (T "completed"));
                                (T "added", JList added);
                                (T "failed", JList failed)] |},
       payloads, w')
    ∧ sublist added payloads
    ∧ (length added + length failed = length items)%nat
    ∧ Forall (fun entry => ∃ item reason,
                item ∈ items ∧ entry = failed_entry item reason) failed.
Proof.
  intros Hd Hne Hall. unfold add_items_to_cart, py_get. rewrite Hd.
  cbn -[jsonify T cart_loop]. rewrite (bool_decide_eq_false_2 _ Hne).
  cbn -[jsonify T cart_loop].
  destruct (cart_loop_app cart_add
              {| added_items := []; failed_items := []; posted := [];
                 commerce := w |} items [] payloads Hall)
    as (st' & added & failed & Hloop & Hpo & Ha & Hf & Hsub & Hlen & Hsh).
  rewrite app_nil_r in Hloop. rewrite Hloop. cbn [cart_loop].
  cbn in Hpo, Ha, Hf. rewrite Hpo, Ha, Hf.
  exists added, failed, (commerce st'). split_and!; done.
Qed.

Lemma add_items_to_cart_posts_each_item_witness :
  let cart_add : nat -> json -> result http_reply * nat :=
    fun n _ =>
      (match n with
       | O => Return {| status_code := 200; reply_text := T "ok" |}
       | 1%nat => Return {| status_code := 409; reply_text := T "out of stock" |}
       | _ => Raise (Exn (T "ConnectionError") (T "Connection refused"))
       end, S n) in
  let item id := JDict [(T "item_id", JStr id);
                        (T "restaurant_id", JStr (T "r1"))] in
  let payload id := JDict [(T "user_id", JStr user_id);
                           (T "restaurant_id", JStr (T "r1"));
                           (T "item_id", JStr id);
                           (T "quantity", JInt 1);
                           (T "producturl", JNull)] in
  let items := [item (T "m1"); item (T "m2"); item (T "m3")] in
  let payloads := [payload (T "m1"); payload (T "m2"); payload (T "m3")] in
  let d := [(T "food_selection", JList items)] in
  Forall2 (fun item payload =>
             cart_payload (H := Runtime.builtins) item = Return payload)
    items payloads
  ∧ add_items_to_cart (H := Runtime.builtins) cart_add O (JDict d)
    = (Return {| status := 200;
                 body := JDict [(T "status", JStr (T "completed"));
                                (T "added", JList [payload (T "m1")]);
                                (T "failed",
                                 JList [failed_entry (item (T "m2"))
                                          (T "out of stock");
                                        failed_entry (item (T "m3"))
                                          (T "Connection refused")])] |},
       payloads, 3%nat)
  ∧ ∃ added failed w',
      add_items_to_cart (H := Runtime.builtins) cart_add O (JDict d)
      = (Return {| status := 200;
                   body := JDict [(T "status", JStr (T "completed"));
                                  (T "added", JList added);
                                  (T "failed", JList failed)] |},
         payloads, w')
      ∧ sublist added payloads
      ∧ (length added + length failed = length items)%nat
      ∧ Forall (fun entry => ∃ item reason,
                  item ∈ items ∧ entry = failed_entry item reason) failed.
Proof.
  intros cart_add item payload items payloads d.
  assert (Hall : Forall2 (fun item payload =>
                    cart_payload (H := Runtime.builtins) item = Return payload)
                   items payloads)
    by (repeat constructor).
  split; [exact Hall|]. split; [vm_compute; reflexivity|].
  exact (add_items_to_cart_posts_each_item (H := Runtime.builtins) cart_add O d
           items payloads eq_refl ltac:(discriminate) Hall).
Defined.

(** X22. [/cart/add-all] stops at the first item whose payload cannot be
    built: the exception of that item leaves the route, the payloads of
    the items before it have been sent, and nothing is sent for the items
    after it.  The items are those the iteration over [food_selection]
    gives, be it a list, a string or a dict. *)
Theorem add_items_to_cart_aborts `{Builtins} {world : Type}
  (cart_add : world -> json -> result http_reply * world) (w : world)
  (d : list (text * json)) (food_selection : json)
  (before after payloads : list json) (item : json) (e : exn) :
  dict_get d (T "food_selection") = Some food_selection →
  py_iter food_selection = Return (before ++ item :: after) →
  Forall2 (fun item payload => cart_payload item = Return payload)
    before payloads →
  cart_payload item = Raise e →
  ∃ w', add_items_to_cart cart_add w (JDict d) = (Raise e, payloads, w').
Proof.
  intros Hd Hiter Hall He. unfold add_items_to_cart, py_get. rewrite Hd.
  cbn -[jsonify T cart_loop py_iter truthy].
  rewrite (py_iter_truthy _ _ Hiter) by (by destruct before).
  cbn -[jsonify T cart_loop py_iter]. rewrite Hiter.
  destruct (cart_loop_app cart_add
              {| added_items := []; failed_items := []; posted := [];
                 commerce := w |} before (item :: after) payloads Hall)
    as (st' & added & failed & -> & Hpo & _).
  cbn [cart_loop]. unfold cart_step. rewrite He. cbn.
  rewrite Hpo. eauto.
Qed.

Lemma add_items_to_cart_aborts_witness :
  let cart_add : nat -> json -> result http_reply * nat :=
    fun n _ => (Return {| status_code := 200; reply_text := T "ok" |}, S n) in
  let item id quantity :=
    JDict [(T "item_id", JStr id); (T "restaurant_id", JStr (T "r1"));
           (T "quantity", quantity)] in
  let payload1 := JDict [(T "user_id", JStr user_id);
                         (T "restaurant_id", JStr (T "r1"));
                         (T "item_id", JStr (T "m1"));
                         (T "quantity", JInt 2);
                         (T "producturl", JNull)] in
  let food_selection :=
    JList [item (T "m1") (JInt 2); item (T "m2") (JList []);
           item (T "m3") (JInt 1)] in
  let d := [(T "food_selection", food_selection)] in
  let e := TypeError (T "int() argument must be a string, a bytes-like object or a real number, not 'list'") in
  cart_payload (H := Runtime.builtins) (item (T "m1") (JInt 2)) = Return payload1
  ∧ cart_payload (H := Runtime.builtins) (item (T "m2") (JList [])) = Raise e
  ∧ ∃ w', add_items_to_cart (H := Runtime.builtins) cart_add O (JDict d)
          = (Raise e, [payload1], w').
Proof.
  intros cart_add item payload1 food_selection d e.
  split; [reflexivity|]. split; [reflexivity|].
  apply (add_items_to_cart_aborts (H := Runtime.builtins) cart_add O d
           food_selection [item (T "m1") (JInt 2)] [item (T "m3") (JInt 1)]
           [payload1] (item (T "m2") (JList [])) e);
    [reflexivity | reflexivity | by repeat constructor | reflexivity].
Defined.

(** A [food_selection] that is a string is iterated character by
    character, and the first character has no [get]. *)
Example add_items_to_cart_string_selection :
  let cart_add : nat -> json -> result http_reply * nat :=
    fun n _ => (Return {| status_code := 200; reply_text := T "ok" |}, S n) in
  add_items_to_cart (H := Runtime.builtins) cart_add O
    (JDict [(T "food_selection", JStr (T "m1"))])
  = (Raise (AttributeError (Some (JStr (T "m"))) "get"), [], O).
Proof. vm_compute. reflexivity. Qed.
